(** * The time-skew estimator of the oscilloscope deskew wizard

    A shallow embedding of [src/ngscopeclient/ScopeDeskewWizard.cpp]:
    the two CPU cross-correlation loops, the host-side scan of the
    accelerator output, the dispatch in [StartCorrelation], the
    acquire/correlate state machine of [DoMainProcessingFlow] with its
    progress table, the welcome pages of [DoRender] and the stream list
    of [ChannelSelector].

    Conventions.
    - [int64_t] and [uint64_t]/[size_t] values are integers of [Z]; every
      arithmetic operation on time values has its wrap-around written out
      ([Int64.wrap] and [Int64.uwrap]).  Loop counters that are bounded by
      a buffer size ([i], [isecondary], [samplesProcessed],
      [m_measureCycle]) are incremented without wrapping.
    - [float] and [double] values are IEEE 754 binary32 and binary64
      numbers of the standard library's [spec_float], with its executable
      round-to-nearest-even operations.
    - An unchecked array read is a computation in the [mem] monad, which
      stops with [OutOfBounds] when the index is outside the buffer.
    - The iterations of an [omp parallel for] loop reach the mutex-guarded
      update in some order; that order is an explicit list of candidate
      offsets, the schedule.  The statements below hold for every
      schedule; the sequential one is [window]. *)

From Stdlib Require Import String.
From Stdlib Require Import ZArith List Bool Lia Sorted Permutation.
From Stdlib Require Import Floats.SpecFloat.
From Equations Require Import Equations.
Import ListNotations.
Local Open Scope Z_scope.

(** ** Machine integers *)

Module Int64.

Definition modulus : Z := 18446744073709551616.
Definition half : Z := 9223372036854775808.

(** Value of a [uint64_t] (or [size_t]) after an operation whose exact
    result is [x]: the residue of [x] modulo [2^64].  The residue is
    written out for an [x] less than [2^64] away from the range, which is
    the case after an addition, a subtraction or a conversion.  Also the
    conversion of an [int64_t] to [uint64_t]. *)
Definition uwrap (x : Z) : Z :=
  if x <? 0 then
    if - modulus <=? x then x + modulus else x mod modulus
  else if x <? modulus then x
  else if x - modulus <? modulus then x - modulus
  else x mod modulus.

(** Value of an [int64_t] after an operation whose exact result is [x]:
    the two's complement reading of the residue of [x] modulo [2^64].
    Also the conversion of a [uint64_t] to [int64_t]. *)
Definition wrap (x : Z) : Z :=
  let u := uwrap x in
  if u <? half then u else u - modulus.

Definition add (x y : Z) : Z := wrap (x + y).
Definition sub (x y : Z) : Z := wrap (x - y).
Definition mul (x y : Z) : Z := wrap (x * y).
Definition neg (x : Z) : Z := wrap (- x).
Definition uadd (x y : Z) : Z := uwrap (x + y).
Definition umul (x y : Z) : Z := uwrap (x * y).

Definition in_range (x : Z) : Prop := - half <= x < half.
Definition in_urange (x : Z) : Prop := 0 <= x < modulus.

End Int64.

(** ** Floating point *)

Module Fp.

(** A binary32 [float]. *)
Definition float : Type := spec_float.

(** A binary64 [double]. *)
Definition double : Type := spec_float.

Definition zero : double := S754_zero false.
Definition nan : double := S754_nan.

(** [float * float], rounded to binary32. *)
Definition mulf (x y : float) : float := SFmul 24 128 x y.

(** The implicit conversion of a [float] to [double]; it is exact, and
    renormalises the mantissa for the wider format. *)
Definition widen (x : float) : double :=
  match x with
  | S754_finite s m e => binary_normalize 53 1024 (cond_Zopp s (Zpos m)) e s
  | _ => x
  end.

(** The implicit conversion of a signed integer to [double]. *)
Definition of_int (n : Z) : double := binary_normalize 53 1024 n 0 false.

Definition add (x y : double) : double := SFadd 53 1024 x y.
Definition div (x y : double) : double := SFdiv 53 1024 x y.

(** [x > y]; false as soon as one side is not a number. *)
Definition gt (x y : double) : bool := SFltb y x.

(** [x <= y]; false as soon as one side is not a number. *)
Definition le (x y : double) : bool := SFleb x y.

Definition is_nan (x : double) : bool :=
  match x with S754_nan => true | _ => false end.

End Fp.

(** ** Unchecked buffer reads *)

Inductive mem (A : Type) : Type :=
| Ok (a : A)
| OutOfBounds.

Arguments Ok {A} a.
Arguments OutOfBounds {A}.

Definition bind {A B : Type} (m : mem A) (k : A -> mem B) : mem B :=
  match m with
  | Ok a => k a
  | OutOfBounds => OutOfBounds
  end.

Notation "x <- m ;; k" := (bind m (fun x => k))
  (at level 61, m at next level, right associativity).

(** [buf[i]] on an [AcceleratorBuffer]: no bounds check in the source. *)
Definition read {A : Type} (buf : list A) (i : Z) : mem A :=
  if i <? 0 then OutOfBounds
  else match nth_error buf (Z.to_nat i) with
       | Some a => Ok a
       | None => OutOfBounds
       end.

(** ** Waveforms *)

(** Modelled from the spec: the waveform classes are declared in headers
    that are not part of the source.  These are the members of
    [WaveformBase] that the wizard reads: section 3 has [timescale] and
    [triggerPhase] as femtosecond integers, and the start time stamp pair
    is the data-arrival signature of section 6. *)
Record WaveformBase : Type := {
  m_timescale : Z;
  m_triggerPhase : Z;
  m_startTimestamp : Z;
  m_startFemtoseconds : Z
}.

Module UniformAnalogWaveform.

(** Modelled from the spec: "samples: ordered sequence of amplitude values
    (floating point)"; they are binary32 numbers, as the disabled
    functions of the source take a [float*] from [m_samples]. *)
Record t : Type := {
  base : WaveformBase;
  m_samples : list Fp.float
}.

Definition size (w : t) : Z := Z.of_nat (length (m_samples w)).

End UniformAnalogWaveform.

Module SparseAnalogWaveform.

(** Modelled from the spec: a sparse sample "additionally carries
    [offset[i]] (start, in timescale units) and [duration[i]] (span, in
    timescale units)", both [int64_t]. *)
Record t : Type := {
  base : WaveformBase;
  m_offsets : list Z;
  m_durations : list Z;
  m_samples : list Fp.float
}.

Definition size (w : t) : Z := Z.of_nat (length (m_samples w)).

(** [Resize] keeps the three buffers of a sparse waveform the same length. *)
Definition consistent (w : t) : Prop :=
  length (m_offsets w) = length (m_samples w) /\
  length (m_durations w) = length (m_samples w).

End SparseAnalogWaveform.

(** What [GetData] of a stream points to; the two [dynamic_cast]s of
    [StartCorrelation] tell the first two apart from any other waveform. *)
Inductive WaveformData : Type :=
| Uniform (w : UniformAnalogWaveform.t)
| Sparse (w : SparseAnalogWaveform.t)
| OtherWaveform (b : WaveformBase).

Definition waveform_base (d : WaveformData) : WaveformBase :=
  match d with
  | Uniform w => UniformAnalogWaveform.base w
  | Sparse w => SparseAnalogWaveform.base w
  | OtherWaveform b => b
  end.

(** ** The body of one candidate offset *)

(** The three locals of the loop over the primary samples. *)
Record Accum : Type := {
  samplesProcessed : Z;
  isecondary : Z;
  correlation : Fp.double
}.

Definition accum0 : Accum :=
  {| samplesProcessed := 0; isecondary := 0; correlation := Fp.zero |}.

(** [correlation += p * s; samplesProcessed ++] with the cursor left at
    [isec]. *)
Definition accumulate (acc : Accum) (isec : Z) (p s : Fp.float) : Accum :=
  {| samplesProcessed := samplesProcessed acc + 1;
     isecondary := isec;
     correlation := Fp.add (correlation acc) (Fp.widen (Fp.mulf p s)) |}.

(** [double normalizedCorrelation = correlation / samplesProcessed] *)
Definition normalizedCorrelation (acc : Accum) : Fp.double :=
  Fp.div (correlation acc) (Fp.of_int (samplesProcessed acc)).

(** *** Uniform / uniform, unequal rate *)

(** The [while] loop of the uniform path,
[[
    while( ((isecondary + 1) * psec->m_timescale) < utarget)
    {
        isecondary ++;
        if(isecondary >= slen) { done = true; break; }
    }
]]
    [Some isec] is the cursor on a normal exit, [None] stands for
    [done = true].  The comparison is between [uint64_t] values. *)
Equations? uniform_advance (slen sts utarget isec : Z) : option Z
  by wf (Z.to_nat (slen - isec)) lt :=
uniform_advance slen sts utarget isec
  with Z_lt_dec (Int64.umul (Int64.uwrap (isec + 1)) (Int64.uwrap sts)) utarget => {
  | right _ := Some isec
  | left _ with Z_ge_dec (isec + 1) slen => {
    | left _ := None
    | right _ := uniform_advance slen sts utarget (isec + 1) } }.
Proof. lia. Qed.

(** [deltaFs] of the uniform path: the candidate offset in femtoseconds,
    shifted by the relative trigger phase. *)
Definition uniform_deltaFs (ppri psec : UniformAnalogWaveform.t) (d : Z) : Z :=
  let deltaFs := Int64.mul (m_timescale (UniformAnalogWaveform.base ppri)) d in
  Int64.add deltaFs
    (Int64.sub (m_triggerPhase (UniformAnalogWaveform.base ppri))
               (m_triggerPhase (UniformAnalogWaveform.base psec))).

(** [int64_t target = i * ppri->m_timescale + deltaFs] with [size_t i]:
    the sum is formed in [uint64_t] and converted back. *)
Definition uniform_target (ppri : UniformAnalogWaveform.t) (deltaFs i : Z) : Z :=
  Int64.wrap
    (Int64.uadd
       (Int64.umul i (Int64.uwrap (m_timescale (UniformAnalogWaveform.base ppri))))
       (Int64.uwrap deltaFs)).

(** The loop over the primary samples, from sample [i], with [n] samples
    left. *)
Fixpoint uniform_samples (ppri psec : UniformAnalogWaveform.t) (deltaFs : Z)
    (n : nat) (i : Z) (acc : Accum) : mem Accum :=
  match n with
  | O => Ok acc
  | S n' =>
    let target := uniform_target ppri deltaFs i in
    if target <? 0 then uniform_samples ppri psec deltaFs n' (i + 1) acc
    else
      let utarget := Int64.uwrap target in
      match uniform_advance (UniformAnalogWaveform.size psec)
              (m_timescale (UniformAnalogWaveform.base psec))
              utarget (isecondary acc) with
      | None => Ok acc
      | Some isec =>
        p <- read (UniformAnalogWaveform.m_samples ppri) i ;;
        s <- read (UniformAnalogWaveform.m_samples psec) isec ;;
        uniform_samples ppri psec deltaFs n' (i + 1) (accumulate acc isec p s)
      end
  end.

(** The body of the [omp parallel for] loop of
    [DoProcessWaveformUniformUnequalRate], up to the critical section. *)
Definition uniform_candidate (ppri psec : UniformAnalogWaveform.t) (d : Z) : mem Accum :=
  uniform_samples ppri psec (uniform_deltaFs ppri psec d)
    (Z.to_nat (UniformAnalogWaveform.size ppri)) 0 accum0.

(** *** Sparse / sparse *)

(** End time of secondary sample [isec],
    [(m_offsets[isec] + m_durations[isec]) * m_timescale + m_triggerPhase]. *)
Definition sparse_end (psec : SparseAnalogWaveform.t) (isec : Z) : mem Z :=
  o <- read (SparseAnalogWaveform.m_offsets psec) isec ;;
  du <- read (SparseAnalogWaveform.m_durations psec) isec ;;
  Ok (Int64.add
        (Int64.mul (Int64.add o du) (m_timescale (SparseAnalogWaveform.base psec)))
        (m_triggerPhase (SparseAnalogWaveform.base psec))).

(** The [while] loop of the sparse path; its condition reads the secondary
    buffers at the cursor before the cursor is compared with [slen]. *)
Equations? sparse_advance (psec : SparseAnalogWaveform.t) (target isec : Z)
  : mem (option Z)
  by wf (Z.to_nat (SparseAnalogWaveform.size psec - isec)) lt :=
sparse_advance psec target isec with sparse_end psec isec => {
  | OutOfBounds := OutOfBounds
  | Ok e with Z_lt_dec e target => {
    | right _ := Ok (Some isec)
    | left _ with Z_ge_dec (isec + 1) (SparseAnalogWaveform.size psec) => {
      | left _ := Ok None
      | right _ := sparse_advance psec target (isec + 1) } } }.
Proof. lia. Qed.

(** [deltaFs] of the sparse path: the candidate offset in femtoseconds. *)
Definition sparse_deltaFs (ppri : SparseAnalogWaveform.t) (d : Z) : Z :=
  Int64.mul (m_timescale (SparseAnalogWaveform.base ppri)) d.

(** [start = m_offsets[i] * m_timescale + m_triggerPhase] of the primary. *)
Definition sparse_start (ppri : SparseAnalogWaveform.t) (i : Z) : mem Z :=
  o <- read (SparseAnalogWaveform.m_offsets ppri) i ;;
  Ok (Int64.add
        (Int64.mul o (m_timescale (SparseAnalogWaveform.base ppri)))
        (m_triggerPhase (SparseAnalogWaveform.base ppri))).

(** [target = start + deltaFs] *)
Definition sparse_target (ppri : SparseAnalogWaveform.t) (deltaFs i : Z) : mem Z :=
  start <- sparse_start ppri i ;;
  Ok (Int64.add start deltaFs).

Fixpoint sparse_samples (ppri psec : SparseAnalogWaveform.t) (deltaFs : Z)
    (n : nat) (i : Z) (acc : Accum) : mem Accum :=
  match n with
  | O => Ok acc
  | S n' =>
    target <- sparse_target ppri deltaFs i ;;
    if target <? 0 then sparse_samples ppri psec deltaFs n' (i + 1) acc
    else
      found <- sparse_advance psec target (isecondary acc) ;;
      match found with
      | None => Ok acc
      | Some isec =>
        p <- read (SparseAnalogWaveform.m_samples ppri) i ;;
        s <- read (SparseAnalogWaveform.m_samples psec) isec ;;
        sparse_samples ppri psec deltaFs n' (i + 1) (accumulate acc isec p s)
      end
  end.

(** The body of the [omp parallel for] loop of [DoProcessWaveformSparse],
    up to the critical section. *)
Definition sparse_candidate (ppri psec : SparseAnalogWaveform.t) (d : Z) : mem Accum :=
  sparse_samples ppri psec (sparse_deltaFs ppri d)
    (Z.to_nat (SparseAnalogWaveform.size ppri)) 0 accum0.

(** ** The channel selector *)

(** The stream types that [ChannelSelector] tells apart: the three it
    accepts, and any other. *)
Inductive StreamType : Type :=
| STREAM_TYPE_ANALOG
| STREAM_TYPE_DIGITAL
| STREAM_TYPE_TRIGGER
| STREAM_TYPE_OTHER.

(** What [ChannelSelector] asks of channel [i] of an instrument:
    [CanEnableChannel(i)], [IsChannelEnabled(i)] and, for each stream of
    the channel, [GetType(j)].  The classes are declared in headers that
    are not part of the source. *)
Record Channel : Type := {
  CanEnableChannel : bool;
  IsChannelEnabled : bool;
  GetType : list StreamType
}.

Definition Oscilloscope : Type := list Channel.

(** A [StreamDescriptor]: a channel, here its index in the instrument,
    and a stream index; [None] is the null descriptor. *)
Definition StreamDescriptor : Type := option (Z * Z).

(** The [switch] on the stream type. *)
Definition usable_as_trigger (t : StreamType) : bool :=
  match t with
  | STREAM_TYPE_ANALOG | STREAM_TYPE_DIGITAL | STREAM_TYPE_TRIGGER => true
  | STREAM_TYPE_OTHER => false
  end.

Definition descriptor_eqb (a b : Z * Z) : bool :=
  (fst a =? fst b) && (snd a =? snd b).

(** The locals [streams] and [sel] of [ChannelSelector]. *)
Record Selector : Type := {
  streams : list (Z * Z);
  sel : Z
}.

(** The loop over the streams of channel [chan], from stream [j]. *)
Fixpoint offer_streams (stream : StreamDescriptor) (chan : Z)
    (types : list StreamType) (j : Z) (st : Selector) : Selector :=
  match types with
  | [] => st
  | t :: rest =>
    if usable_as_trigger t then
      let s := (chan, j) in
      let sel' :=
        match stream with
        | Some cur => if descriptor_eqb cur s then Z.of_nat (length (streams st)) else sel st
        | None => sel st
        end in
      offer_streams stream chan rest (j + 1)
        {| streams := streams st ++ [s]; sel := sel' |}
    else offer_streams stream chan rest (j + 1) st
  end.

(** The loop over the channels, from channel [i]. *)
Fixpoint offer_channels (stream : StreamDescriptor) (chans : list Channel)
    (i : Z) (st : Selector) : Selector :=
  match chans with
  | [] => st
  | chan :: rest =>
    if negb (CanEnableChannel chan) then offer_channels stream rest (i + 1) st
    else if negb (IsChannelEnabled chan) then offer_channels stream rest (i + 1) st
    else offer_channels stream rest (i + 1) (offer_streams stream i (GetType chan) 0 st)
  end.

(** [ChannelSelector]: the new value of [stream].  [picked] is what the
    combo box reports: [Some k] when it returns true with [sel] set to
    [k]. *)
Definition ChannelSelector (scope : Oscilloscope) (stream : StreamDescriptor)
    (picked : option Z) : mem StreamDescriptor :=
  let st := offer_channels stream scope 0 {| streams := []; sel := 0 |} in
  stream1 <- match picked with
             | Some k => s <- read (streams st) k ;; Ok (Some s)
             | None => Ok stream
             end ;;
  match stream1 with
  | Some s => Ok (Some s)
  | None => s <- read (streams st) 0 ;; Ok (Some s)
  end.

(** A small instrument: an enabled analog channel with one stream, a
    disabled one, and an enabled channel with a stream of another type
    and a digital stream. *)
Definition sample_scope : Oscilloscope :=
  [ {| CanEnableChannel := true; IsChannelEnabled := true;
       GetType := [STREAM_TYPE_ANALOG] |};
    {| CanEnableChannel := true; IsChannelEnabled := false;
       GetType := [STREAM_TYPE_ANALOG] |};
    {| CanEnableChannel := true; IsChannelEnabled := true;
       GetType := [STREAM_TYPE_OTHER; STREAM_TYPE_DIGITAL] |} ].

(** ** The wizard *)

(** The states that the source names; the enumeration itself is declared
    in the header. *)
Inductive State : Type :=
| STATE_WELCOME_1
| STATE_WELCOME_2
| STATE_WELCOME_3
| STATE_WELCOME_4
| STATE_WELCOME_5
| STATE_ACQUIRE
| STATE_CORRELATE
| STATE_DONE.

(** Modelled from the spec: the class is declared in a header that is not
    part of the source; the best pair has the types of the
    [CorrelationOutcome] of section 3 ([int64] offset, [float64]
    correlation) and the two history vectors those of its [TrialRecord].
    These are the members that the processing flow reads or writes,
    the two streams that [ChannelSelector] writes, which the constructor
    leaves default-constructed and so null,
    and two counters for what it does to its collaborators: [armed] counts
    the calls of [m_group->Arm(TRIGGER_TYPE_SINGLE)], [errors] the calls
    of [LogError]. *)
Record ScopeDeskewWizard : Type := {
  m_state : State;
  m_measureCycle : Z;
  m_lastTriggerTimestamp : Z;
  m_lastTriggerFs : Z;
  m_bestCorrelation : Fp.double;
  m_bestCorrelationOffset : Z;
  m_maxSkewSamples : Z;
  m_primaryStream : StreamDescriptor;
  m_secondaryStream : StreamDescriptor;
  m_correlations : list Fp.double;
  m_skews : list Z;
  armed : nat;
  errors : nat
}.

(** The member initialisers of the constructor. *)
Definition ScopeDeskewWizard_new : ScopeDeskewWizard :=
  {| m_state := STATE_WELCOME_1;
     m_measureCycle := 0;
     m_lastTriggerTimestamp := 0;
     m_lastTriggerFs := 0;
     m_bestCorrelation := Fp.zero;
     m_bestCorrelationOffset := 0;
     m_maxSkewSamples := 30000;
     m_primaryStream := None;
     m_secondaryStream := None;
     m_correlations := [];
     m_skews := [];
     armed := 0;
     errors := 0 |}.

Definition set_state (w : ScopeDeskewWizard) (s : State) : ScopeDeskewWizard :=
  {| m_state := s;
     m_measureCycle := m_measureCycle w;
     m_lastTriggerTimestamp := m_lastTriggerTimestamp w;
     m_lastTriggerFs := m_lastTriggerFs w;
     m_bestCorrelation := m_bestCorrelation w;
     m_bestCorrelationOffset := m_bestCorrelationOffset w;
     m_maxSkewSamples := m_maxSkewSamples w;
     m_primaryStream := m_primaryStream w;
     m_secondaryStream := m_secondaryStream w;
     m_correlations := m_correlations w;
     m_skews := m_skews w;
     armed := armed w;
     errors := errors w |}.

Definition set_measureCycle (w : ScopeDeskewWizard) (n : Z) : ScopeDeskewWizard :=
  {| m_state := m_state w;
     m_measureCycle := n;
     m_lastTriggerTimestamp := m_lastTriggerTimestamp w;
     m_lastTriggerFs := m_lastTriggerFs w;
     m_bestCorrelation := m_bestCorrelation w;
     m_bestCorrelationOffset := m_bestCorrelationOffset w;
     m_maxSkewSamples := m_maxSkewSamples w;
     m_primaryStream := m_primaryStream w;
     m_secondaryStream := m_secondaryStream w;
     m_correlations := m_correlations w;
     m_skews := m_skews w;
     armed := armed w;
     errors := errors w |}.

Definition set_lastTrigger (w : ScopeDeskewWizard) (ts fs : Z) : ScopeDeskewWizard :=
  {| m_state := m_state w;
     m_measureCycle := m_measureCycle w;
     m_lastTriggerTimestamp := ts;
     m_lastTriggerFs := fs;
     m_bestCorrelation := m_bestCorrelation w;
     m_bestCorrelationOffset := m_bestCorrelationOffset w;
     m_maxSkewSamples := m_maxSkewSamples w;
     m_primaryStream := m_primaryStream w;
     m_secondaryStream := m_secondaryStream w;
     m_correlations := m_correlations w;
     m_skews := m_skews w;
     armed := armed w;
     errors := errors w |}.

Definition set_best (w : ScopeDeskewWizard) (c : Fp.double) (d : Z) : ScopeDeskewWizard :=
  {| m_state := m_state w;
     m_measureCycle := m_measureCycle w;
     m_lastTriggerTimestamp := m_lastTriggerTimestamp w;
     m_lastTriggerFs := m_lastTriggerFs w;
     m_bestCorrelation := c;
     m_bestCorrelationOffset := d;
     m_maxSkewSamples := m_maxSkewSamples w;
     m_primaryStream := m_primaryStream w;
     m_secondaryStream := m_secondaryStream w;
     m_correlations := m_correlations w;
     m_skews := m_skews w;
     armed := armed w;
     errors := errors w |}.

(** [m_correlations.push_back(c); m_skews.push_back(skew)] *)
Definition push_back_record (w : ScopeDeskewWizard) (c : Fp.double) (skew : Z)
  : ScopeDeskewWizard :=
  {| m_state := m_state w;
     m_measureCycle := m_measureCycle w;
     m_lastTriggerTimestamp := m_lastTriggerTimestamp w;
     m_lastTriggerFs := m_lastTriggerFs w;
     m_bestCorrelation := m_bestCorrelation w;
     m_bestCorrelationOffset := m_bestCorrelationOffset w;
     m_maxSkewSamples := m_maxSkewSamples w;
     m_primaryStream := m_primaryStream w;
     m_secondaryStream := m_secondaryStream w;
     m_correlations := m_correlations w ++ [c];
     m_skews := m_skews w ++ [skew];
     armed := armed w;
     errors := errors w |}.

(** [m_group->Arm(TriggerGroup::TRIGGER_TYPE_SINGLE)] *)
Definition Arm (w : ScopeDeskewWizard) : ScopeDeskewWizard :=
  {| m_state := m_state w;
     m_measureCycle := m_measureCycle w;
     m_lastTriggerTimestamp := m_lastTriggerTimestamp w;
     m_lastTriggerFs := m_lastTriggerFs w;
     m_bestCorrelation := m_bestCorrelation w;
     m_bestCorrelationOffset := m_bestCorrelationOffset w;
     m_maxSkewSamples := m_maxSkewSamples w;
     m_primaryStream := m_primaryStream w;
     m_secondaryStream := m_secondaryStream w;
     m_correlations := m_correlations w;
     m_skews := m_skews w;
     armed := S (armed w);
     errors := errors w |}.

(** [LogError("Mixed sparse and uniform waveforms not implemented\n")] *)
Definition LogError (w : ScopeDeskewWizard) : ScopeDeskewWizard :=
  {| m_state := m_state w;
     m_measureCycle := m_measureCycle w;
     m_lastTriggerTimestamp := m_lastTriggerTimestamp w;
     m_lastTriggerFs := m_lastTriggerFs w;
     m_bestCorrelation := m_bestCorrelation w;
     m_bestCorrelationOffset := m_bestCorrelationOffset w;
     m_maxSkewSamples := m_maxSkewSamples w;
     m_primaryStream := m_primaryStream w;
     m_secondaryStream := m_secondaryStream w;
     m_correlations := m_correlations w;
     m_skews := m_skews w;
     armed := armed w;
     errors := S (errors w) |}.

(** [stream = ...] in [ChannelSelector], called on [m_primaryStream]. *)
Definition set_primaryStream (w : ScopeDeskewWizard) (s : StreamDescriptor)
  : ScopeDeskewWizard :=
  {| m_state := m_state w;
     m_measureCycle := m_measureCycle w;
     m_lastTriggerTimestamp := m_lastTriggerTimestamp w;
     m_lastTriggerFs := m_lastTriggerFs w;
     m_bestCorrelation := m_bestCorrelation w;
     m_bestCorrelationOffset := m_bestCorrelationOffset w;
     m_maxSkewSamples := m_maxSkewSamples w;
     m_primaryStream := s;
     m_secondaryStream := m_secondaryStream w;
     m_correlations := m_correlations w;
     m_skews := m_skews w;
     armed := armed w;
     errors := errors w |}.

(** The same on [m_secondaryStream]. *)
Definition set_secondaryStream (w : ScopeDeskewWizard) (s : StreamDescriptor)
  : ScopeDeskewWizard :=
  {| m_state := m_state w;
     m_measureCycle := m_measureCycle w;
     m_lastTriggerTimestamp := m_lastTriggerTimestamp w;
     m_lastTriggerFs := m_lastTriggerFs w;
     m_bestCorrelation := m_bestCorrelation w;
     m_bestCorrelationOffset := m_bestCorrelationOffset w;
     m_maxSkewSamples := m_maxSkewSamples w;
     m_primaryStream := m_primaryStream w;
     m_secondaryStream := s;
     m_correlations := m_correlations w;
     m_skews := m_skews w;
     armed := armed w;
     errors := errors w |}.

(** ** The correlation backends *)

(** The candidate offsets of [for(int64_t d = -m; d < m; d ++)], in
    sequential order. *)
Fixpoint window_from (n : nat) (d : Z) : list Z :=
  match n with
  | O => []
  | S n' => d :: window_from n' (d + 1)
  end.

Definition window (m : Z) : list Z :=
  let lo := Int64.neg m in
  window_from (Z.to_nat (m - lo)) lo.

(** The critical section,
[[
    if(normalizedCorrelation > m_bestCorrelation)
    {
        m_bestCorrelation = normalizedCorrelation;
        m_bestCorrelationOffset = d;
    }
]] *)
Definition update_best (w : ScopeDeskewWizard) (d : Z) (nc : Fp.double)
  : ScopeDeskewWizard :=
  if Fp.gt nc (m_bestCorrelation w) then set_best w nc d else w.

(** The candidates of a schedule, one after the other: the loop body, then
    the critical section. *)
Fixpoint run_candidates (body : Z -> mem Accum) (sched : list Z)
    (w : ScopeDeskewWizard) : mem ScopeDeskewWizard :=
  match sched with
  | [] => Ok w
  | d :: rest =>
    acc <- body d ;;
    run_candidates body rest (update_best w d (normalizedCorrelation acc))
  end.

Definition DoProcessWaveformSparse (sched : list Z) (w : ScopeDeskewWizard)
    (ppri psec : SparseAnalogWaveform.t) : mem ScopeDeskewWizard :=
  run_candidates (sparse_candidate ppri psec) sched w.

Definition DoProcessWaveformUniformUnequalRate (sched : list Z)
    (w : ScopeDeskewWizard) (ppri psec : UniformAnalogWaveform.t)
  : mem ScopeDeskewWizard :=
  run_candidates (uniform_candidate ppri psec) sched w.

(** Modelled from the spec: the "packed argument record" of section 4.2,
    whose declaration is in a header that is not part of the source.  The
    fields are those that the constructor in the source fills; their
    widths are not modelled. *)
Record UniformUnequalCrossCorrelateArgs : Type := {
  priTimescale : Z;
  secTimescale : Z;
  priTrigPhase : Z;
  secTrigPhase : Z;
  priLen : Z;
  secLen : Z;
  startingDelta : Z
}.

Definition UniformUnequalCrossCorrelateArgs_new
    (ppri psec : UniformAnalogWaveform.t) (delta : Z)
  : UniformUnequalCrossCorrelateArgs :=
  {| priTimescale := m_timescale (UniformAnalogWaveform.base ppri);
     secTimescale := m_timescale (UniformAnalogWaveform.base psec);
     priTrigPhase := m_triggerPhase (UniformAnalogWaveform.base ppri);
     secTrigPhase := m_triggerPhase (UniformAnalogWaveform.base psec);
     priLen := UniformAnalogWaveform.size ppri;
     secLen := UniformAnalogWaveform.size psec;
     startingDelta := delta |}.

(** The compute shader [shaders/ScopeDeskewUniformUnequalRate.spv] is not
    part of the source; it is a parameter: the value that invocation [i]
    leaves in [corrOut[i]], given the push constants and the two sample
    buffers. *)
Definition Shader : Type :=
  UniformUnequalCrossCorrelateArgs -> list Fp.float -> list Fp.float -> Z -> Fp.double.

(** The host-side scan of [corrOut],
[[
    for(int64_t i=0; i<2*m_maxSkewSamples; i++)
        if(corrOut[i] > bestCorr) { bestCorr = corrOut[i]; bestOffset = i - m_maxSkewSamples; }
]]
    on the pair [(bestCorr, bestOffset)]. *)
Fixpoint scan_corrOut (corrOut : Z -> Fp.double) (m : Z) (n : nat) (i : Z)
    (best : Fp.double * Z) : Fp.double * Z :=
  match n with
  | O => best
  | S n' =>
    scan_corrOut corrOut m n' (i + 1)
      (if Fp.gt (corrOut i) (fst best) then (corrOut i, Int64.sub i m) else best)
  end.

Definition DoProcessWaveformUniformUnequalRateVulkan (shader : Shader)
    (w : ScopeDeskewWizard) (ppri psec : UniformAnalogWaveform.t)
  : ScopeDeskewWizard :=
  let args :=
    UniformUnequalCrossCorrelateArgs_new ppri psec (Int64.neg (m_maxSkewSamples w)) in
  let corrOut :=
    shader args (UniformAnalogWaveform.m_samples ppri)
      (UniformAnalogWaveform.m_samples psec) in
  let best :=
    scan_corrOut corrOut (m_maxSkewSamples w)
      (Z.to_nat (Int64.mul 2 (m_maxSkewSamples w))) 0 (Fp.zero, 0) in
  set_best w (fst best) (snd best).

(** ** One frame of the dialog *)

(** What the wizard observes of its collaborators during one call of
    [DoRender]: the waveforms that the two selected streams hold, the two
    capability flags, the order in which the iterations of the parallel
    loop reach the critical section, the channels of the two instruments
    and what the two combo boxes report, whether [ImGui::BeginTable]
    returns true, and whether the button of the page is pressed. *)
Record Frame : Type := {
  primaryData : option WaveformData;
  secondaryData : option WaveformData;
  g_hasShaderInt64 : bool;
  g_hasShaderFloat64 : bool;
  omp_schedule : list Z;
  primaryScope : Oscilloscope;
  secondaryScope : Oscilloscope;
  primaryPick : option Z;
  secondaryPick : option Z;
  table_visible : bool;
  button : bool
}.

(** "Collect the skew from this round": the tail of [StartCorrelation]. *)
Definition collect_skew (w : ScopeDeskewWizard) (pri : WaveformBase)
  : ScopeDeskewWizard :=
  let skew := Int64.mul (m_bestCorrelationOffset w) (m_timescale pri) in
  push_back_record w (m_bestCorrelation w) skew.

Definition StartCorrelation (shader : Shader) (f : Frame) (w : ScopeDeskewWizard)
  : mem ScopeDeskewWizard :=
  match primaryData f, secondaryData f with
  | Some (Uniform upri), Some (Uniform usec) =>
    w' <- (if g_hasShaderInt64 f && g_hasShaderFloat64 f
           then Ok (DoProcessWaveformUniformUnequalRateVulkan shader w upri usec)
           else DoProcessWaveformUniformUnequalRate (omp_schedule f) w upri usec) ;;
    Ok (collect_skew w' (UniformAnalogWaveform.base upri))
  | Some (Sparse spri), Some (Sparse ssec) =>
    w' <- DoProcessWaveformSparse (omp_schedule f) w spri ssec ;;
    Ok (collect_skew w' (SparseAnalogWaveform.base spri))
  | _, _ => Ok (LogError w)
  end.

(** [const int nWaveforms = 10] *)
Definition nWaveforms : Z := 10.

(** The [switch] at the end of [DoMainProcessingFlow]; the table that is
    drawn before it is [draw_table] below, and the two together are
    [DoMainProcessingFlow_drawn]. *)
Definition DoMainProcessingFlow (shader : Shader) (f : Frame) (w : ScopeDeskewWizard)
  : mem ScopeDeskewWizard :=
  match m_state w with
  | STATE_ACQUIRE =>
    match primaryData f with
    | None => Ok w
    | Some data =>
      if (m_lastTriggerTimestamp w =? m_startTimestamp (waveform_base data))
         && (m_lastTriggerFs w =? m_startFemtoseconds (waveform_base data))
      then Ok w
      else
        let w1 :=
          set_lastTrigger w (m_startTimestamp (waveform_base data))
            (m_startFemtoseconds (waveform_base data)) in
        w2 <- StartCorrelation shader f w1 ;;
        Ok (set_state w2 STATE_CORRELATE)
    end
  | STATE_CORRELATE =>
    let w1 := set_measureCycle w (m_measureCycle w + 1) in
    if m_measureCycle w1 >=? nWaveforms then Ok (set_state w1 STATE_DONE)
    else Ok (set_state (Arm w1) STATE_ACQUIRE)
  | _ => Ok w
  end.

(** *** The progress table *)

(** A cell of the progress table.  [Unit::PrettyPrint] and [to_string_sci]
    are not part of the source: a cell that prints a skew or a correlation
    holds the value that is printed. *)
Inductive Cell : Type :=
| Label (text : string)
| SkewCell (fs : Z)
| CorrelationCell (c : Fp.double).

Arguments Label text%_string.

(** The four columns of a row: Acquire, Correlate, Skew, Correlation. *)
Definition Row : Type := list Cell.

Definition pending_row : Row :=
  [Label "Pending"; Label "Pending"; Label "--"; Label "--"].

(** "Past measurements",
[[
    for(int i=0; i<m_measureCycle; i++) { ... m_skews[i] ... m_correlations[i] ... }
]]
    from row [i], with [n] rows left; [operator[]] of the two vectors does
    not check its index. *)
Fixpoint past_rows (w : ScopeDeskewWizard) (n : nat) (i : Z) : mem (list Row) :=
  match n with
  | O => Ok []
  | S n' =>
    skew <- read (m_skews w) i ;;
    c <- read (m_correlations w) i ;;
    rest <- past_rows w n' (i + 1) ;;
    Ok ([Label "Done"; Label "Done"; SkewCell skew; CorrelationCell c] :: rest)
  end.

(** "Current measurement": no row in the final state. *)
Definition current_rows (w : ScopeDeskewWizard) : list Row :=
  match m_state w with
  | STATE_DONE => []
  | STATE_ACQUIRE => [[Label "Acquiring"; Label "Pending"; Label "--"; Label "--"]]
  | STATE_CORRELATE => [[Label "Done"; Label "Calculating"; Label "--"; Label "--"]]
  | _ => [[Label "Done"; Label "Pending"; Label "--"; Label "--"]]
  end.

(** "Future measurements": [for(int i=m_measureCycle+1; i<nWaveforms; i++)]. *)
Definition future_rows (w : ScopeDeskewWizard) : list Row :=
  repeat pending_row (Z.to_nat (nWaveforms - (m_measureCycle w + 1))).

(** The rows that [DoMainProcessingFlow] draws before its [switch], when
    [ImGui::BeginTable] returns [visible]. *)
Definition draw_table (visible : bool) (w : ScopeDeskewWizard) : mem (list Row) :=
  if visible then
    past <- past_rows w (Z.to_nat (m_measureCycle w)) 0 ;;
    Ok (past ++ current_rows w ++ future_rows w)
  else Ok [].

(** The whole of [DoMainProcessingFlow]: the table, then the [switch]. *)
Definition DoMainProcessingFlow_drawn (visible : bool) (shader : Shader) (f : Frame)
    (w : ScopeDeskewWizard) : mem (list Row * ScopeDeskewWizard) :=
  rows <- draw_table visible w ;;
  w' <- DoMainProcessingFlow shader f w ;;
  Ok (rows, w').

(** *** The pages *)

(** The [Start] button of the last welcome page. *)
Definition start_pressed (f : Frame) (w : ScopeDeskewWizard) : ScopeDeskewWizard :=
  let w1 := set_state w STATE_ACQUIRE in
  let w2 :=
    match primaryData f with
    | Some data =>
      set_lastTrigger w1 (m_startTimestamp (waveform_base data))
        (m_startFemtoseconds (waveform_base data))
    | None => w1
    end in
  Arm w2.

(** The two calls on the fourth welcome page,
[[
    ChannelSelector("Primary", m_group->m_primary, m_primaryStream);
    ChannelSelector("Secondary", m_secondary, m_secondaryStream);
]] *)
Definition select_streams (f : Frame) (w : ScopeDeskewWizard) : mem ScopeDeskewWizard :=
  pri <- ChannelSelector (primaryScope f) (m_primaryStream w) (primaryPick f) ;;
  let w1 := set_primaryStream w pri in
  sec <- ChannelSelector (secondaryScope f) (m_secondaryStream w1) (secondaryPick f) ;;
  Ok (set_secondaryStream w1 sec).

(** [DoRender]: the page of the state.  The fourth welcome page runs the
    two channel selectors before its button; the states of the processing
    flow draw the table and then run the [switch]. *)
Definition DoRender (shader : Shader) (f : Frame) (w : ScopeDeskewWizard)
  : mem ScopeDeskewWizard :=
  match m_state w with
  | STATE_WELCOME_1 => Ok (if button f then set_state w STATE_WELCOME_2 else w)
  | STATE_WELCOME_2 => Ok (if button f then set_state w STATE_WELCOME_3 else w)
  | STATE_WELCOME_3 => Ok (if button f then set_state w STATE_WELCOME_4 else w)
  | STATE_WELCOME_4 =>
    w1 <- select_streams f w ;;
    Ok (if button f then set_state w1 STATE_WELCOME_5 else w1)
  | STATE_WELCOME_5 => Ok (if button f then start_pressed f w else w)
  | _ =>
    drawn <- DoMainProcessingFlow_drawn (table_visible f) shader f w ;;
    Ok (snd drawn)
  end.

(** A session: the frames rendered since the wizard was constructed. *)
Fixpoint run_frames (shader : Shader) (fs : list Frame) (w : ScopeDeskewWizard)
  : mem ScopeDeskewWizard :=
  match fs with
  | [] => Ok w
  | f :: rest => w' <- DoRender shader f w ;; run_frames shader rest w'
  end.

(** ** Auxiliary definitions for the statements *)

(** Candidate [d] ran to its end without matching a single sample pair. *)
Definition zero_overlap (body : Z -> mem Accum) (d : Z) : bool :=
  match body d with
  | Ok acc => samplesProcessed acc =? 0
  | OutOfBounds => false
  end.

(** A schedule without its zero-overlap candidates. *)
Definition overlapping (body : Z -> mem Accum) (sched : list Z) : list Z :=
  filter (fun d => negb (zero_overlap body d)) sched.

(** A body all of whose unmatched candidates yield not-a-number; both CPU
    bodies are of this kind. *)
Definition nan_when_unmatched (body : Z -> mem Accum) : Prop :=
  forall d acc, body d = Ok acc -> samplesProcessed acc = 0 ->
                normalizedCorrelation acc = Fp.nan.

(** The position of a number in the order that [SFcompare] decides:
    class first, then exponent, then mantissa. *)
Definition rank (x : spec_float) : Z * Z * Z :=
  match x with
  | S754_nan => (0, 0, 0)
  | S754_zero _ => (0, 0, 0)
  | S754_infinity true => (-2, 0, 0)
  | S754_infinity false => (2, 0, 0)
  | S754_finite true m e => (-1, - e, - Zpos m)
  | S754_finite false m e => (1, e, Zpos m)
  end.

Definition lex_lt (a b : Z * Z * Z) : Prop :=
  fst (fst a) < fst (fst b) \/
  (fst (fst a) = fst (fst b) /\
   (snd (fst a) < snd (fst b) \/
    (snd (fst a) = snd (fst b) /\ snd a < snd b))).

(** ** Sample inputs *)

(** The binary32 number of a small integer. *)
Definition f32 (n : Z) : Fp.float := binary_normalize 24 128 n 0 false.

(** The binary64 number of a small integer. *)
Definition f64 (n : Z) : Fp.double := binary_normalize 53 1024 n 0 false.

Definition base_at (timescale triggerPhase stamp : Z) : WaveformBase :=
  {| m_timescale := timescale;
     m_triggerPhase := triggerPhase;
     m_startTimestamp := stamp;
     m_startFemtoseconds := 0 |}.

(** Two samples, one femtosecond apart, trigger phase 0. *)
Definition uniform_pair (stamp : Z) : UniformAnalogWaveform.t :=
  {| UniformAnalogWaveform.base := base_at 1 0 stamp;
     UniformAnalogWaveform.m_samples := [f32 1; f32 2] |}.


(** A uniform waveform without samples. *)
Definition uniform_empty (stamp : Z) : UniformAnalogWaveform.t :=
  {| UniformAnalogWaveform.base := base_at 1 0 stamp;
     UniformAnalogWaveform.m_samples := [] |}.

(** Two sparse samples of duration 1 at offsets 0 and 1, one femtosecond
    per unit. *)
Definition sparse_pair (triggerPhase stamp : Z) : SparseAnalogWaveform.t :=
  {| SparseAnalogWaveform.base := base_at 1 triggerPhase stamp;
     SparseAnalogWaveform.m_offsets := [0; 1];
     SparseAnalogWaveform.m_durations := [1; 1];
     SparseAnalogWaveform.m_samples := [f32 1; f32 2] |}.

(** A sparse waveform without samples. *)
Definition sparse_empty (stamp : Z) : SparseAnalogWaveform.t :=
  {| SparseAnalogWaveform.base := base_at 1 0 stamp;
     SparseAnalogWaveform.m_offsets := [];
     SparseAnalogWaveform.m_durations := [];
     SparseAnalogWaveform.m_samples := [] |}.

(** ** The matches of the uniform loop *)

(** The loop of [uniform_samples] without its buffer reads: the pairs
    (primary index, secondary index) of the samples it correlates, in
    order, from primary sample [i] with the cursor at [isec]. *)
Fixpoint uniform_matches (ppri psec : UniformAnalogWaveform.t) (deltaFs : Z)
    (n : nat) (i isec : Z) : list (Z * Z) :=
  match n with
  | O => []
  | S n' =>
    let target := uniform_target ppri deltaFs i in
    if target <? 0 then uniform_matches ppri psec deltaFs n' (i + 1) isec
    else
      let utarget := Int64.uwrap target in
      match uniform_advance (UniformAnalogWaveform.size psec)
              (m_timescale (UniformAnalogWaveform.base psec))
              utarget isec with
      | None => []
      | Some k => (i, k) :: uniform_matches ppri psec deltaFs n' (i + 1) k
      end
  end.

(** The reads and the accumulation for a list of matched pairs. *)
Fixpoint accumulate_matches (pri sec : list Fp.float) (ms : list (Z * Z))
    (acc : Accum) : mem Accum :=
  match ms with
  | [] => Ok acc
  | (i, k) :: rest =>
    p <- read pri i ;;
    s <- read sec k ;;
    accumulate_matches pri sec rest (accumulate acc k p s)
  end.

(** The matches of candidate [d]. *)
Definition uniform_candidate_matches (ppri psec : UniformAnalogWaveform.t) (d : Z)
  : list (Z * Z) :=
  uniform_matches ppri psec (uniform_deltaFs ppri psec d)
    (Z.to_nat (UniformAnalogWaveform.size ppri)) 0 0.

(** ** The matches of the sparse loop *)



(** ** The matching rules as the specification states them *)

(** Step 1 of section 4.1: the time shift of candidate [d], in exact
    integers. *)
Definition claimed_deltaFs (pri sec : WaveformBase) (d : Z) : Z :=
  d * m_timescale pri + (m_triggerPhase pri - m_triggerPhase sec).

(** Step 4 of section 4.1 for a uniform secondary: the direct index
    [target / secondary.timescale]. *)
Definition direct_index (sts target : Z) : Z := target / sts.

(** The index of the first secondary sample whose end time
    [(k + 1) * timescale] is not before the target:
    [(target - 1) / timescale], and 0 for target 0. *)
Definition boundary_index (sts target : Z) : Z := Z.max 0 ((target - 1) / sts).

(** Steps 1 to 4 for a uniform pair, by index arithmetic and without a
    cursor: primary sample [i], with target time
    [i * primary.timescale + deltaFs], is matched with secondary sample
    [index target] when the target is not negative and that index is
    inside the secondary waveform. *)
Definition indexed_matches (index : Z -> Z -> Z)
    (ppri psec : UniformAnalogWaveform.t) (d : Z) : list (Z * Z) :=
  let pts := m_timescale (UniformAnalogWaveform.base ppri) in
  let sts := m_timescale (UniformAnalogWaveform.base psec) in
  let deltaFs :=
    claimed_deltaFs (UniformAnalogWaveform.base ppri) (UniformAnalogWaveform.base psec) d in
  flat_map
    (fun i =>
       let target := i * pts + deltaFs in
       if (0 <=? target) && (index sts target <? UniformAnalogWaveform.size psec)
       then [(i, index sts target)]
       else [])
    (map Z.of_nat (seq 0 (Z.to_nat (UniformAnalogWaveform.size ppri)))).

(** ** Predicates on frames and sessions *)

(** One stream holds a uniform analog waveform and the other a sparse
    one. *)
Definition mixed_representation (f : Frame) : Prop :=
  (exists u s, primaryData f = Some (Uniform u) /\ secondaryData f = Some (Sparse s)) \/
  (exists s u, primaryData f = Some (Sparse s) /\ secondaryData f = Some (Uniform u)).

(** [StartCorrelation] on this frame takes the accelerator path. *)
Definition uses_accelerator (f : Frame) : bool :=
  match primaryData f, secondaryData f with
  | Some (Uniform _), Some (Uniform _) => g_hasShaderInt64 f && g_hasShaderFloat64 f
  | _, _ => false
  end.

(** The buffers that a CPU backend would read on this frame are
    consistent and the secondary waveform has a sample. *)
Definition readable (f : Frame) : Prop :=
  match primaryData f, secondaryData f with
  | Some (Uniform _), Some (Uniform usec) =>
    uses_accelerator f = true \/ 1 <= UniformAnalogWaveform.size usec
  | Some (Sparse spri), Some (Sparse ssec) =>
    SparseAnalogWaveform.consistent spri /\
    SparseAnalogWaveform.consistent ssec /\
    1 <= SparseAnalogWaveform.size ssec
  | _, _ => True
  end.

(** The primary stream has data whose signature differs from the stored
    one. *)
Definition fresh_data (f : Frame) (w : ScopeDeskewWizard) : Prop :=
  exists data,
    primaryData f = Some data /\
    (m_lastTriggerTimestamp w, m_lastTriggerFs w) <>
    (m_startTimestamp (waveform_base data), m_startFemtoseconds (waveform_base data)).

(** Each value is at most the next one. *)
Fixpoint nondecreasing (l : list Fp.double) : bool :=
  match l with
  | a :: (b :: _) as rest => Fp.le a b && nondecreasing rest
  | _ => true
  end.

(** What the state machine keeps true of its counters and its history:
    every completed trial left one record or one logged error, and every
    trial begun was armed once. *)
Definition history_invariant (w : ScopeDeskewWizard) : Prop :=
  length (m_correlations w) = length (m_skews w) /\
  match m_state w with
  | STATE_ACQUIRE =>
    0 <= m_measureCycle w < nWaveforms /\
    Z.of_nat (length (m_skews w) + errors w) = m_measureCycle w /\
    Z.of_nat (armed w) = m_measureCycle w + 1
  | STATE_CORRELATE =>
    0 <= m_measureCycle w < nWaveforms /\
    Z.of_nat (length (m_skews w) + errors w) = m_measureCycle w + 1 /\
    Z.of_nat (armed w) = m_measureCycle w + 1
  | STATE_DONE =>
    m_measureCycle w = nWaveforms /\
    Z.of_nat (length (m_skews w) + errors w) = nWaveforms /\
    Z.of_nat (armed w) = nWaveforms
  | _ =>
    m_measureCycle w = 0 /\ m_skews w = [] /\ errors w = 0%nat /\ armed w = 0%nat
  end.

(** The running best is a number, and the last recorded correlation, if
    there is one, is the running best. *)
Definition best_invariant (w : ScopeDeskewWizard) : Prop :=
  Fp.is_nan (m_bestCorrelation w) = false /\
  nondecreasing (m_correlations w) = true /\
  forall l c, m_correlations w = l ++ [c] -> c = m_bestCorrelation w.

(** ** Sample frames *)

(** Modelled from the spec: the compute shader is not part of the source.
    Section 4.2 has invocation [i] compute the normalized correlation of
    candidate [startingOffset + i] "by the equivalent per-offset
    reduction"; this is the reduction of the uniform CPU path on the
    buffers and push constants the shader is given. *)
Definition reference_shader : Shader :=
  fun args pri sec i =>
    let ppri :=
      {| UniformAnalogWaveform.base := base_at (priTimescale args) (priTrigPhase args) 0;
         UniformAnalogWaveform.m_samples := pri |} in
    let psec :=
      {| UniformAnalogWaveform.base := base_at (secTimescale args) (secTrigPhase args) 0;
         UniformAnalogWaveform.m_samples := sec |} in
    match uniform_candidate ppri psec (Int64.add (startingDelta args) i) with
    | Ok acc => normalizedCorrelation acc
    | OutOfBounds => Fp.nan
    end.

(** A frame with data on both streams and no button pressed; the parallel
    loop runs its candidates in sequential order. *)
Definition data_frame (pri sec : WaveformData) (accelerator : bool) : Frame :=
  {| primaryData := Some pri;
     secondaryData := Some sec;
     g_hasShaderInt64 := accelerator;
     g_hasShaderFloat64 := accelerator;
     omp_schedule := window 30000;
     primaryScope := sample_scope;
     secondaryScope := sample_scope;
     primaryPick := None;
     secondaryPick := None;
     table_visible := true;
     button := false |}.

(** A frame before any acquisition, with the button of the page pressed. *)
Definition button_frame : Frame :=
  {| primaryData := None;
     secondaryData := None;
     g_hasShaderInt64 := false;
     g_hasShaderFloat64 := false;
     omp_schedule := window 30000;
     primaryScope := sample_scope;
     secondaryScope := sample_scope;
     primaryPick := None;
     secondaryPick := None;
     table_visible := true;
     button := true |}.

Definition mixed_frame : Frame :=
  data_frame (Uniform (uniform_pair 1)) (Sparse (sparse_pair 0 1)) false.

(** The wizard right after [Start] was pressed with no data yet, with
    stream 0 of channel 0 selected on both instruments. *)
Definition acquiring : ScopeDeskewWizard :=
  start_pressed button_frame
    (set_secondaryStream (set_primaryStream ScopeDeskewWizard_new (Some (0, 0)))
       (Some (0, 0))).

(** One sample. *)
Definition uniform_single (stamp : Z) : UniformAnalogWaveform.t :=
  {| UniformAnalogWaveform.base := base_at 1 0 stamp;
     UniformAnalogWaveform.m_samples := [f32 1] |}.

(** The two frames of trial [k]: new data with time stamp [k] arrives and
    is correlated on the CPU, then the correlate state is left. *)
Definition trial_frames (k : Z) : list Frame :=
  let f :=
    data_frame (Uniform (uniform_single k)) (Uniform (uniform_single k)) false in
  [f; f].

(** A whole session: the five welcome pages, then ten trials. *)
Definition ten_trial_session : list Frame :=
  repeat button_frame 5 ++ flat_map trial_frames [1; 2; 3; 4; 5; 6; 7; 8; 9; 10].

(** The loop body that a CPU backend runs on this frame, if the two
    streams hold waveforms of one representation. *)
Definition trial_body (f : Frame) : option (Z -> mem Accum) :=
  match primaryData f, secondaryData f with
  | Some (Uniform upri), Some (Uniform usec) => Some (uniform_candidate upri usec)
  | Some (Sparse spri), Some (Sparse ssec) => Some (sparse_candidate spri ssec)
  | _, _ => None
  end.

(** One sample, two femtoseconds per sample. *)
Definition uniform_slow (stamp : Z) : UniformAnalogWaveform.t :=
  {| UniformAnalogWaveform.base := base_at 2 0 stamp;
     UniformAnalogWaveform.m_samples := [f32 1] |}.

(** The welcome pages, a trial on a two-sample waveform at one
    femtosecond per sample, and a trial on a one-sample waveform at two
    femtoseconds per sample, both on the CPU. *)
Definition two_trial_session : list Frame :=
  let f1 := data_frame (Uniform (uniform_pair 1)) (Uniform (uniform_pair 1)) false in
  let f2 := data_frame (Uniform (uniform_slow 2)) (Uniform (uniform_slow 2)) false in
  repeat button_frame 5 ++ [f1; f1; f2; f2].

(** 2.5, the best correlation of the first of the two trials. *)
Definition five_halves : Fp.double := Fp.div (f64 5) (f64 2).

(** The frame [f] on a device whose shaders have 64-bit integers and
    double precision. *)
Definition with_capabilities (f : Frame) : Frame :=
  {| primaryData := primaryData f;
     secondaryData := secondaryData f;
     g_hasShaderInt64 := true;
     g_hasShaderFloat64 := true;
     omp_schedule := omp_schedule f;
     primaryScope := primaryScope f;
     secondaryScope := secondaryScope f;
     primaryPick := primaryPick f;
     secondaryPick := secondaryPick f;
     table_visible := table_visible f;
     button := button f |}.

(** The frames of [two_trial_session] on a device with both capabilities:
    the two trials run on the accelerator. *)
Definition two_trial_session_accelerated : list Frame :=
  map with_capabilities two_trial_session.

(** One sparse sample of value [v] and duration 1 at offset 0. *)
Definition sparse_single (v stamp : Z) : SparseAnalogWaveform.t :=
  {| SparseAnalogWaveform.base := base_at 1 0 stamp;
     SparseAnalogWaveform.m_offsets := [0];
     SparseAnalogWaveform.m_durations := [1];
     SparseAnalogWaveform.m_samples := [f32 v] |}.

(** The data frames of three trials on a device with both capabilities:
    two sparse waveforms, which a CPU backend correlates; two uniform
    waveforms, which the accelerator correlates; two sparse waveforms
    again. *)
Definition sparse_trial_1 : Frame :=
  data_frame (Sparse (sparse_pair 0 1)) (Sparse (sparse_pair 0 1)) true.

Definition uniform_trial_2 : Frame :=
  data_frame (Uniform (uniform_single 2)) (Uniform (uniform_single 2)) true.

Definition sparse_trial_3 : Frame :=
  data_frame (Sparse (sparse_single 1 3)) (Sparse (sparse_single 2 3)) true.

(** The welcome pages and these three trials. *)
Definition mixed_backend_session : list Frame :=
  map with_capabilities (repeat button_frame 5)
  ++ [sparse_trial_1; sparse_trial_1; uniform_trial_2; uniform_trial_2;
      sparse_trial_3; sparse_trial_3].

(** ** Auxiliary definitions for the further statements *)

(** The welcome page that a state shows, counted from 0; 5 for the states
    of the processing flow. *)
Definition page_number (s : State) : nat :=
  match s with
  | STATE_WELCOME_1 => 0
  | STATE_WELCOME_2 => 1
  | STATE_WELCOME_3 => 2
  | STATE_WELCOME_4 => 3
  | STATE_WELCOME_5 => 4
  | _ => 5
  end.

(** The number of frames in which the button was pressed. *)
Definition presses (fs : list Frame) : nat :=
  length (filter button fs).

(** Two waveforms carry the same data-arrival signature. *)
Definition same_signature (a b : WaveformData) : Prop :=
  m_startTimestamp (waveform_base a) = m_startTimestamp (waveform_base b) /\
  m_startFemtoseconds (waveform_base a) = m_startFemtoseconds (waveform_base b).

(** A frame in which the primary has new data and the secondary none. *)
Definition primary_only_frame : Frame :=
  {| primaryData := Some (Uniform (uniform_pair 1));
     secondaryData := None;
     g_hasShaderInt64 := false;
     g_hasShaderFloat64 := false;
     omp_schedule := window 30000;
     primaryScope := sample_scope;
     secondaryScope := sample_scope;
     primaryPick := None;
     secondaryPick := None;
     table_visible := true;
     button := false |}.

(** Two numbers stand at the same place of the order of [SFcompare]. *)
Definition lex_eq (a b : Z * Z * Z) : Prop :=
  fst (fst a) = fst (fst b) /\ snd (fst a) = snd (fst b) /\ snd a = snd b.

(** The best pair of [w'] is a first maximum of the candidates of the
    schedule, starting from the best pair of [w]: no candidate exceeds
    it, and it is the pair of [w] or that of a candidate which none of
    the candidates before it in the schedule equals or exceeds. *)
Definition selects_first_maximum (body : Z -> mem Accum) (sched : list Z)
    (w w' : ScopeDeskewWizard) : Prop :=
  (forall d acc, In d sched -> body d = Ok acc ->
     Fp.gt (normalizedCorrelation acc) (m_bestCorrelation w') = false) /\
  ((m_bestCorrelation w' = m_bestCorrelation w /\
    m_bestCorrelationOffset w' = m_bestCorrelationOffset w) \/
   (Fp.gt (m_bestCorrelation w') (m_bestCorrelation w) = true /\
    exists pre d post acc,
      sched = pre ++ d :: post /\
      body d = Ok acc /\
      m_bestCorrelation w' = normalizedCorrelation acc /\
      m_bestCorrelationOffset w' = d /\
      (forall e acc', In e pre -> body e = Ok acc' ->
         Fp.le (normalizedCorrelation acc) (normalizedCorrelation acc') = false))).

(** A frame of a welcome page with data on both streams and the button
    of the page pressed. *)
Definition pressed_data_frame : Frame :=
  {| primaryData := Some (Uniform (uniform_pair 1));
     secondaryData := Some (Uniform (uniform_pair 1));
     g_hasShaderInt64 := false;
     g_hasShaderFloat64 := false;
     omp_schedule := window 30000;
     primaryScope := sample_scope;
     secondaryScope := sample_scope;
     primaryPick := None;
     secondaryPick := None;
     table_visible := true;
     button := true |}.

(** A past row of the table. *)
Definition done_row (skew : Z) (c : Fp.double) : Row :=
  [Label "Done"; Label "Done"; SkewCell skew; CorrelationCell c].

(** The welcome pages, then a trial in which the secondary has no
    waveform. *)
Definition lost_trial_session : list Frame :=
  repeat button_frame 5 ++ [primary_only_frame; primary_only_frame].

(** Stream [snd s] of channel [fst s] of the instrument exists, the
    channel can be enabled and is enabled, and the stream is of one of
    the three accepted types. *)
Definition offered (scope : Oscilloscope) (s : Z * Z) : Prop :=
  exists chan t,
    0 <= fst s /\ 0 <= snd s /\
    nth_error scope (Z.to_nat (fst s)) = Some chan /\
    CanEnableChannel chan = true /\
    IsChannelEnabled chan = true /\
    nth_error (GetType chan) (Z.to_nat (snd s)) = Some t /\
    usable_as_trigger t = true.

(** The locals [streams] and [sel] when the two loops are left. *)
Definition selector_of (scope : Oscilloscope) (stream : StreamDescriptor) : Selector :=
  offer_channels stream scope 0 {| streams := []; sel := 0 |}.

(** Channel order, then stream order. *)
Definition descriptor_lt (a b : Z * Z) : Prop :=
  fst a < fst b \/ (fst a = fst b /\ snd a < snd b).

(** What the inner loop keeps true of [sel]: it is the place of the
    current stream in [streams] if the stream is there, and 0 if not. *)
Definition preselected (stream : StreamDescriptor) (st : Selector) : Prop :=
  match stream with
  | Some cur =>
    (In cur (streams st) -> read (streams st) (sel st) = Ok cur) /\
    (~ In cur (streams st) -> sel st = 0)
  | None => sel st = 0
  end.

(** The best pair and the recorded correlations are in range: the window
    is the 30000 samples of the constructor, the best offset is a
    candidate of that window, and neither the best correlation nor a
    recorded one is negative or not a number. *)
Definition best_in_range (w : ScopeDeskewWizard) : Prop :=
  m_maxSkewSamples w = 30000 /\
  -30000 <= m_bestCorrelationOffset w < 30000 /\
  Fp.le Fp.zero (m_bestCorrelation w) = true /\
  Forall (fun c => Fp.le Fp.zero c = true) (m_correlations w).

(** The schedule of the frame runs candidates of the window only. *)
Definition schedule_in_window (f : Frame) : Prop :=
  forall d, In d (omp_schedule f) -> -30000 <= d < 30000.

(** Match [a] comes before match [b]: a later primary sample, and a
    secondary sample that is not an earlier one. *)
Definition match_before (a b : Z * Z) : Prop :=
  fst a < fst b /\ snd a <= snd b.

(** What the pages keep true of the two streams: both are null until the
    fourth welcome page is rendered, and neither is null once it has
    been. *)
Definition streams_invariant (w : ScopeDeskewWizard) : Prop :=
  match m_state w with
  | STATE_WELCOME_1 | STATE_WELCOME_2 | STATE_WELCOME_3 =>
    m_primaryStream w = None /\ m_secondaryStream w = None
  | STATE_WELCOME_4 =>
    (m_primaryStream w = None /\ m_secondaryStream w = None) \/
    (m_primaryStream w <> None /\ m_secondaryStream w <> None)
  | _ => m_primaryStream w <> None /\ m_secondaryStream w <> None
  end.

(** A frame with the button pressed in which neither instrument has a
    channel. *)
Definition no_stream_frame : Frame :=
  {| primaryData := None;
     secondaryData := None;
     g_hasShaderInt64 := false;
     g_hasShaderFloat64 := false;
     omp_schedule := window 30000;
     primaryScope := [];
     secondaryScope := [];
     primaryPick := None;
     secondaryPick := None;
     table_visible := true;
     button := true |}.

(** The history has a record for every completed trial, so that the
    loop over the past measurements of the table stays inside the two
    vectors. *)
Definition history_covers_cycle (w : ScopeDeskewWizard) : Prop :=
  m_measureCycle w <= Z.of_nat (length (m_skews w)) /\
  m_measureCycle w <= Z.of_nat (length (m_correlations w)).

(** * Properties *)

(** ** Machine integers *)

Module Int64Facts.

Lemma uwrap_mod (x : Z) : Int64.uwrap x = x mod Int64.modulus.
Proof.
  unfold Int64.uwrap.
  destruct (Z.ltb_spec x 0).
  - destruct (Z.leb_spec (- Int64.modulus) x); [| reflexivity].
    apply Z.mod_unique with (q := -1); unfold Int64.modulus in *; lia.
  - destruct (Z.ltb_spec x Int64.modulus).
    + symmetry. apply Z.mod_small. lia.
    + destruct (Z.ltb_spec (x - Int64.modulus) Int64.modulus); [| reflexivity].
      apply Z.mod_unique with (q := 1); unfold Int64.modulus in *; lia.
Qed.

Lemma uwrap_range (x : Z) : Int64.in_urange (Int64.uwrap x).
Proof.
  unfold Int64.in_urange. rewrite uwrap_mod.
  apply Z.mod_pos_bound. reflexivity.
Qed.

Lemma uwrap_id (x : Z) : Int64.in_urange x -> Int64.uwrap x = x.
Proof.
  unfold Int64.in_urange. intros H. rewrite uwrap_mod.
  apply Z.mod_small. exact H.
Qed.

Lemma wrap_mod (x : Z) :
  Int64.wrap x = (x + Int64.half) mod Int64.modulus - Int64.half.
Proof.
  unfold Int64.wrap. cbv zeta. rewrite uwrap_mod.
  pose proof (Z.mod_pos_bound x Int64.modulus eq_refl) as Hx.
  unfold Int64.modulus, Int64.half in *.
  destruct (Z.ltb_spec (x mod 18446744073709551616) 9223372036854775808) as [Hlt | Hge].
  - assert (E : (x + 9223372036854775808) mod 18446744073709551616
               = x mod 18446744073709551616 + 9223372036854775808).
    { symmetry. apply Z.mod_unique with (q := x / 18446744073709551616); [lia |].
      pose proof (Z.div_mod x 18446744073709551616). lia. }
    lia.
  - assert (E : (x + 9223372036854775808) mod 18446744073709551616
               = x mod 18446744073709551616 - 9223372036854775808).
    { symmetry. apply Z.mod_unique with (q := x / 18446744073709551616 + 1); [lia |].
      pose proof (Z.div_mod x 18446744073709551616). lia. }
    lia.
Qed.

Lemma wrap_range (x : Z) : Int64.in_range (Int64.wrap x).
Proof.
  unfold Int64.in_range. rewrite wrap_mod.
  pose proof (Z.mod_pos_bound (x + Int64.half) Int64.modulus eq_refl).
  unfold Int64.modulus, Int64.half in *. lia.
Qed.

Lemma wrap_id (x : Z) : Int64.in_range x -> Int64.wrap x = x.
Proof.
  unfold Int64.in_range. intros H. rewrite wrap_mod.
  unfold Int64.modulus, Int64.half in *.
  rewrite Z.mod_small; lia.
Qed.

(** Going through [uint64_t] and back loses nothing. *)
Lemma wrap_uwrap (x : Z) : Int64.wrap (Int64.uwrap x) = Int64.wrap x.
Proof.
  rewrite !wrap_mod, uwrap_mod.
  f_equal.
  rewrite Zplus_mod_idemp_l. reflexivity.
Qed.

Lemma uwrap_nonneg (x : Z) : 0 <= x -> Int64.in_range x -> Int64.uwrap x = x.
Proof.
  unfold Int64.in_range, Int64.half. intros H0 H. apply uwrap_id.
  unfold Int64.in_urange, Int64.modulus. lia.
Qed.

End Int64Facts.

(** ** Floating-point comparisons *)

Module FpFacts.

Lemma gt_nan_l (x : Fp.double) : Fp.gt Fp.nan x = false.
Proof. destruct x; reflexivity. Qed.

Lemma gt_nan_r (x : Fp.double) : Fp.gt x Fp.nan = false.
Proof. destruct x; reflexivity. Qed.

(** [0.0 / 0] is not a number. *)
Lemma div_zero_by_zero : Fp.div Fp.zero (Fp.of_int 0) = Fp.nan.
Proof. reflexivity. Qed.

Lemma ltb_rank (x y : spec_float) :
  SFltb x y = true <->
  Fp.is_nan x = false /\ Fp.is_nan y = false /\ lex_lt (rank x) (rank y).
Proof.
  unfold SFltb, lex_lt.
  destruct x as [sx | sx | | sx mx ex], y as [sy | sy | | sy my ey];
    try destruct sx; try destruct sy; cbn;
    try (split; [discriminate | intros (_ & _ & H); lia]);
    try (split; [intros _; repeat split; lia | reflexivity]);
    try (split; [discriminate | intros (H & _); discriminate]);
    try (split; [discriminate | intros (_ & H & _); discriminate]).
  - change (Pos.compare_cont Eq mx my) with (Pos.compare mx my).
    destruct (Z.compare_spec ex ey), (Pos.compare_spec mx my); cbn;
      (split; [try discriminate; intros _; repeat split; lia
              | try reflexivity; intros (_ & _ & Hl); lia]).
  - change (Pos.compare_cont Eq mx my) with (Pos.compare mx my).
    destruct (Z.compare_spec ex ey), (Pos.compare_spec mx my); cbn;
      (split; [try discriminate; intros _; repeat split; lia
              | try reflexivity; intros (_ & _ & Hl); lia]).
Qed.

Lemma gt_not_nan (x y : Fp.double) :
  Fp.gt x y = true -> Fp.is_nan x = false /\ Fp.is_nan y = false.
Proof.
  unfold Fp.gt. intros H. apply ltb_rank in H. tauto.
Qed.

Lemma gt_trans (x y z : Fp.double) :
  Fp.gt x y = true -> Fp.gt y z = true -> Fp.gt x z = true.
Proof.
  unfold Fp.gt. intros Hxy Hyz.
  apply ltb_rank in Hxy. apply ltb_rank in Hyz. apply ltb_rank.
  destruct Hxy as (Hy & Hx & Hxy), Hyz as (Hz & _ & Hyz).
  repeat split; try assumption.
  unfold lex_lt in *.
  destruct (rank x) as [[x1 x2] x3], (rank y) as [[y1 y2] y3],
           (rank z) as [[z1 z2] z3].
  cbn in *. lia.
Qed.

Lemma gt_irrefl (x : Fp.double) : Fp.gt x x = false.
Proof.
  destruct (Fp.gt x x) eqn:E; [| reflexivity].
  unfold Fp.gt in E. apply ltb_rank in E.
  destruct E as (_ & _ & E). unfold lex_lt in E. lia.
Qed.

Lemma gt_le (x y : Fp.double) : Fp.gt x y = true -> Fp.le y x = true.
Proof.
  unfold Fp.gt, Fp.le, SFltb, SFleb.
  destruct (SFcompare y x) as [[| |] |]; try discriminate; reflexivity.
Qed.

Lemma le_refl (x : Fp.double) : Fp.is_nan x = false -> Fp.le x x = true.
Proof.
  unfold Fp.le, SFleb.
  destruct x as [s | s | | s m e]; try destruct s; cbn;
    try reflexivity; try discriminate; intros _.
  - rewrite Z.compare_refl.
    change (Pos.compare_cont Eq m m) with (Pos.compare m m).
    rewrite Pos.compare_refl. reflexivity.
  - rewrite Z.compare_refl.
    change (Pos.compare_cont Eq m m) with (Pos.compare m m).
    rewrite Pos.compare_refl. reflexivity.
Qed.

End FpFacts.

(** ** The loop over the primary samples *)

Ltac bind_ok H :=
  match type of H with
  | bind ?m _ = Ok _ =>
    let E := fresh "E" in
    destruct m eqn:E; cbn [bind] in H; [| discriminate H]
  end.

Lemma uniform_samples_processed (ppri psec : UniformAnalogWaveform.t) (deltaFs : Z)
    (n : nat) :
  forall (i : Z) (acc acc' : Accum),
    uniform_samples ppri psec deltaFs n i acc = Ok acc' ->
    samplesProcessed acc <= samplesProcessed acc' /\
    (samplesProcessed acc' = samplesProcessed acc ->
     correlation acc' = correlation acc).
Proof.
  induction n as [| n IH]; intros i acc acc' H; cbn [uniform_samples] in H.
  - injection H as <-. split; [lia | reflexivity].
  - cbv zeta in H.
    destruct (uniform_target ppri deltaFs i <? 0); [apply (IH _ _ _ H) |].
    destruct (uniform_advance _ _ _ _) as [isec |].
    + bind_ok H. bind_ok H.
      apply IH in H. cbn [accumulate samplesProcessed] in H.
      split; [lia | intros; lia].
    + injection H as <-. split; [lia | reflexivity].
Qed.

Lemma sparse_samples_processed (ppri psec : SparseAnalogWaveform.t) (deltaFs : Z)
    (n : nat) :
  forall (i : Z) (acc acc' : Accum),
    sparse_samples ppri psec deltaFs n i acc = Ok acc' ->
    samplesProcessed acc <= samplesProcessed acc' /\
    (samplesProcessed acc' = samplesProcessed acc ->
     correlation acc' = correlation acc).
Proof.
  induction n as [| n IH]; intros i acc acc' H; cbn [sparse_samples] in H.
  - injection H as <-. split; [lia | reflexivity].
  - bind_ok H.
    destruct (a <? 0); [apply (IH _ _ _ H) |].
    bind_ok H.
    destruct a0 as [isec |].
    + bind_ok H. bind_ok H.
      apply IH in H. cbn [accumulate samplesProcessed] in H.
      split; [lia | intros; lia].
    + injection H as <-. split; [lia | reflexivity].
Qed.

(** A candidate that matched nothing divides [0.0] by [0]. *)
Lemma unmatched_is_nan (acc : Accum) :
  samplesProcessed acc = 0 -> correlation acc = Fp.zero ->
  normalizedCorrelation acc = Fp.nan.
Proof.
  unfold normalizedCorrelation. intros -> ->. reflexivity.
Qed.

Lemma uniform_candidate_unmatched (ppri psec : UniformAnalogWaveform.t) (d : Z)
    (acc : Accum) :
  uniform_candidate ppri psec d = Ok acc -> samplesProcessed acc = 0 ->
  normalizedCorrelation acc = Fp.nan.
Proof.
  unfold uniform_candidate. intros H H0.
  apply uniform_samples_processed in H. cbn in H.
  apply unmatched_is_nan; [exact H0 | apply H; exact H0].
Qed.

Lemma sparse_candidate_unmatched (ppri psec : SparseAnalogWaveform.t) (d : Z)
    (acc : Accum) :
  sparse_candidate ppri psec d = Ok acc -> samplesProcessed acc = 0 ->
  normalizedCorrelation acc = Fp.nan.
Proof.
  unfold sparse_candidate. intros H H0.
  apply sparse_samples_processed in H. cbn in H.
  apply unmatched_is_nan; [exact H0 | apply H; exact H0].
Qed.

(** ** The critical section *)

Lemma update_best_nan (w : ScopeDeskewWizard) (d : Z) :
  update_best w d Fp.nan = w.
Proof.
  unfold update_best. rewrite FpFacts.gt_nan_l. reflexivity.
Qed.

Lemma zero_overlap_update_best (body : Z -> mem Accum) (w : ScopeDeskewWizard)
    (d : Z) (acc : Accum) :
  nan_when_unmatched body ->
  body d = Ok acc -> samplesProcessed acc = 0 ->
  update_best w d (normalizedCorrelation acc) = w.
Proof.
  intros Hbody Hd H0. rewrite (Hbody d acc Hd H0). apply update_best_nan.
Qed.

Lemma run_candidates_overlapping (body : Z -> mem Accum) :
  nan_when_unmatched body ->
  forall (sched : list Z) (w : ScopeDeskewWizard),
    run_candidates body sched w = run_candidates body (overlapping body sched) w.
Proof.
  intros Hbody sched. induction sched as [| d rest IH]; intros w.
  - reflexivity.
  - unfold overlapping. cbn [filter run_candidates].
    fold (overlapping body rest).
    unfold zero_overlap at 1.
    destruct (body d) as [acc |] eqn:Hd; cbn [negb bind].
    + destruct (Z.eqb_spec (samplesProcessed acc) 0) as [H0 | Hn]; cbn [negb].
      * rewrite (zero_overlap_update_best body w d acc Hbody Hd H0). apply IH.
      * cbn [run_candidates]. rewrite Hd. cbn [bind]. apply IH.
    + cbn [run_candidates]. rewrite Hd. reflexivity.
Qed.



(** ** C1: a zero-overlap candidate is never selected *)

(** C1.  On both CPU backends, whatever the schedule and the running best
    the run starts from: a candidate offset that matched no sample pair
    ([samplesProcessed == 0]) leaves the running best as it is when it
    reaches the critical section, and the whole run ends exactly as the run
    over the same schedule with every zero-overlap candidate removed.  So
    the final pair is never taken from such a candidate, wherever it stands
    in the schedule, the first place included. *)
Theorem zero_overlap_never_selected (sched : list Z) (w : ScopeDeskewWizard) :
  (forall (ppri psec : UniformAnalogWaveform.t) (d : Z) (acc : Accum),
     uniform_candidate ppri psec d = Ok acc -> samplesProcessed acc = 0 ->
     update_best w d (normalizedCorrelation acc) = w) /\
  (forall (ppri psec : SparseAnalogWaveform.t) (d : Z) (acc : Accum),
     sparse_candidate ppri psec d = Ok acc -> samplesProcessed acc = 0 ->
     update_best w d (normalizedCorrelation acc) = w) /\
  (forall ppri psec : UniformAnalogWaveform.t,
     DoProcessWaveformUniformUnequalRate sched w ppri psec =
     DoProcessWaveformUniformUnequalRate
       (overlapping (uniform_candidate ppri psec) sched) w ppri psec) /\
  (forall ppri psec : SparseAnalogWaveform.t,
     DoProcessWaveformSparse sched w ppri psec =
     DoProcessWaveformSparse
       (overlapping (sparse_candidate ppri psec) sched) w ppri psec).
Proof.
  assert (Hu : forall ppri psec, nan_when_unmatched (uniform_candidate ppri psec)).
  { intros ppri psec d acc. apply uniform_candidate_unmatched. }
  assert (Hs : forall ppri psec, nan_when_unmatched (sparse_candidate ppri psec)).
  { intros ppri psec d acc. apply sparse_candidate_unmatched. }
  repeat split.
  - intros ppri psec d acc. apply zero_overlap_update_best, Hu.
  - intros ppri psec d acc. apply zero_overlap_update_best, Hs.
  - intros ppri psec. apply run_candidates_overlapping, Hu.
  - intros ppri psec. apply run_candidates_overlapping, Hs.
Qed.

(** The first candidate of the window, [-30000], matches nothing on a
    two-sample waveform against itself, and leaves the initial best. *)
Lemma zero_overlap_never_selected_witness :
  uniform_candidate (uniform_pair 1) (uniform_pair 1) (-30000) = Ok accum0 /\
  update_best ScopeDeskewWizard_new (-30000) (normalizedCorrelation accum0)
  = ScopeDeskewWizard_new.
Proof.
  split; [reflexivity |].
  apply (proj1 (zero_overlap_never_selected [] ScopeDeskewWizard_new)
           (uniform_pair 1) (uniform_pair 1) (-30000) accum0);
    reflexivity.
Defined.

(** ** C3: every candidate without overlap *)





(** ** Reads inside a buffer *)

Lemma read_in_bounds {A : Type} (buf : list A) (i : Z) :
  0 <= i < Z.of_nat (length buf) -> exists a, read buf i = Ok a.
Proof.
  intros Hi. unfold read.
  destruct (Z.ltb_spec i 0); [lia |].
  destruct (nth_error buf (Z.to_nat i)) as [a |] eqn:E; [exists a; reflexivity |].
  apply nth_error_None in E. lia.
Qed.

(** ** C4: the cursor of the uniform path *)

Section UniformCursor.

Variables slen sts : Z.
Hypothesis sts_pos : 0 < sts.
Hypothesis no_wrap : slen * sts < Int64.modulus.

Lemma cursor_test (isec t : Z) :
  0 <= isec < slen ->
  (Int64.umul (Int64.uwrap (isec + 1)) (Int64.uwrap sts) < t
   <-> isec < (t - 1) / sts).
Proof.
  intros Hi.
  assert (Hs : slen <= slen * sts) by nia.
  assert (Hk : (isec + 1) * sts <= slen * sts) by nia.
  assert (Hsts : sts <= slen * sts) by nia.
  unfold Int64.umul.
  rewrite (Int64Facts.uwrap_id (isec + 1)) by (unfold Int64.in_urange; lia).
  rewrite (Int64Facts.uwrap_id sts) by (unfold Int64.in_urange; lia).
  rewrite Int64Facts.uwrap_id by (unfold Int64.in_urange; nia).
  split; intros H.
  - assert (isec + 1 <= (t - 1) / sts); [| lia].
    apply Z.div_le_lower_bound; [exact sts_pos | lia].
  - assert (Hq : sts * ((t - 1) / sts) <= t - 1)
      by (apply Z.mul_div_le; exact sts_pos).
    nia.
Qed.

Lemma uniform_advance_spec (t : Z) (n : nat) :
  forall isec,
    Z.to_nat (slen - isec) = n ->
    0 <= isec < slen ->
    uniform_advance slen sts t isec =
    let k := Z.max isec ((t - 1) / sts) in
    if k <? slen then Some k else None.
Proof.
  induction n as [n IH] using lt_wf_ind. intros isec Hn Hi. cbv zeta.
  rewrite uniform_advance_equation_1.
  pose proof (cursor_test isec t Hi) as Htest.
  destruct (Z_lt_dec _ _) as [Hlt | Hge]; cbn.
  - pose proof (proj1 Htest Hlt) as Hq.
    destruct (Z_ge_dec (isec + 1) slen) as [Hend | Hmore]; cbn.
    + destruct (Z.ltb_spec (Z.max isec ((t - 1) / sts)) slen); [lia | reflexivity].
    + rewrite (IH (Z.to_nat (slen - (isec + 1)))); [| lia | reflexivity | lia].
      cbv zeta.
      replace (Z.max (isec + 1) ((t - 1) / sts)) with (Z.max isec ((t - 1) / sts))
        by lia.
      reflexivity.
  - assert (Hq : ~ isec < (t - 1) / sts) by (intros H; apply Hge, Htest, H).
    replace (Z.max isec ((t - 1) / sts)) with isec by lia.
    destruct (Z.ltb_spec isec slen); [reflexivity | lia].
Qed.

End UniformCursor.

Lemma wrap_congruent (a b : Z) :
  a mod Int64.modulus = b mod Int64.modulus -> Int64.wrap a = Int64.wrap b.
Proof.
  intros H. rewrite !Int64Facts.wrap_mod. f_equal.
  rewrite <- (Z.add_mod_idemp_l a), <- (Z.add_mod_idemp_l b) by discriminate.
  rewrite H. reflexivity.
Qed.

(** Without overflow the target time is [i * timescale + deltaFs]. *)
Lemma uniform_target_exact (ppri : UniformAnalogWaveform.t) (deltaFs i : Z) :
  Int64.in_range (i * m_timescale (UniformAnalogWaveform.base ppri) + deltaFs) ->
  uniform_target ppri deltaFs i =
  i * m_timescale (UniformAnalogWaveform.base ppri) + deltaFs.
Proof.
  intros H. unfold uniform_target, Int64.uadd, Int64.umul.
  rewrite Int64Facts.wrap_uwrap.
  rewrite <- (Int64Facts.wrap_id _ H).
  apply wrap_congruent.
  rewrite !Int64Facts.uwrap_mod.
  rewrite Z.add_mod_idemp_r, Z.add_mod_idemp_l by discriminate.
  rewrite <- Z.add_mod_idemp_l, Z.mul_mod_idemp_r, Z.add_mod_idemp_l by discriminate.
  reflexivity.
Qed.

(** The loop reads the buffers at the places that [uniform_matches]
    lists, and nowhere else. *)
Lemma uniform_samples_matches (ppri psec : UniformAnalogWaveform.t) (deltaFs : Z)
    (n : nat) :
  forall (i : Z) (acc : Accum),
    uniform_samples ppri psec deltaFs n i acc =
    accumulate_matches (UniformAnalogWaveform.m_samples ppri)
      (UniformAnalogWaveform.m_samples psec)
      (uniform_matches ppri psec deltaFs n i (isecondary acc)) acc.
Proof.
  induction n as [| n IH]; intros i acc;
    cbn [uniform_samples uniform_matches]; [reflexivity |].
  cbv zeta.
  destruct (uniform_target ppri deltaFs i <? 0); [apply IH |].
  destruct (uniform_advance _ _ _ _) as [k |]; [| reflexivity].
  cbn [accumulate_matches].
  destruct (read (UniformAnalogWaveform.m_samples ppri) i) as [p |];
    cbn [bind]; [| reflexivity].
  destruct (read (UniformAnalogWaveform.m_samples psec) k) as [x |];
    cbn [bind]; [| reflexivity].
  rewrite IH. reflexivity.
Qed.

Lemma matched_index_vs_quotient (t sts : Z) :
  0 <= t -> 0 < sts ->
  (Z.max 0 ((t - 1) / sts) = t / sts <-> t = 0 \/ t mod sts <> 0).
Proof.
  intros Ht Hs.
  pose proof (Z.div_mod t sts ltac:(lia)) as Hdm.
  pose proof (Z.mod_pos_bound t sts Hs) as Hr.
  assert (Hq0 : 0 <= t / sts) by (apply Z.div_pos; lia).
  destruct (Z.eq_dec t 0) as [-> | Hnz].
  - assert ((0 - 1) / sts < 0) by (apply Z.div_lt_upper_bound; lia).
    split; [intros _; left; reflexivity | intros _; lia].
  - destruct (Z.eq_dec (t mod sts) 0) as [Hz | Hnzr].
    + assert (Hd : (t - 1) / sts = t / sts - 1).
      { symmetry. apply Z.div_unique with (r := sts - 1); [lia | lia]. }
      assert (Hq1 : 1 <= t / sts) by nia.
      split; [intros Heq; lia | intros [Heq | Heq]; contradiction].
    + assert (Hd : (t - 1) / sts = t / sts).
      { symmetry. apply Z.div_unique with (r := t mod sts - 1); [lia | lia]. }
      split; [intros _; right; exact Hnzr | intros _; lia].
Qed.

Section UniformMatches.

Variables ppri psec : UniformAnalogWaveform.t.
Variable deltaFs : Z.

Let pts := m_timescale (UniformAnalogWaveform.base ppri).
Let sts := m_timescale (UniformAnalogWaveform.base psec).
Let slen := UniformAnalogWaveform.size psec.

Hypothesis pts_nonneg : 0 <= pts.
Hypothesis sts_pos : 0 < sts.
Hypothesis no_wrap : slen * sts < Int64.modulus.

(** One step of the index arithmetic. *)
Let step (i : Z) : list (Z * Z) :=
  let target := i * pts + deltaFs in
  if (0 <=? target) && (boundary_index sts target <? slen)
  then [(i, boundary_index sts target)]
  else [].

Lemma boundary_index_mono (t t' : Z) :
  t <= t' -> boundary_index sts t <= boundary_index sts t'.
Proof.
  intros H. unfold boundary_index.
  assert ((t - 1) / sts <= (t' - 1) / sts) by (apply Z.div_le_mono; lia).
  lia.
Qed.

Lemma steps_exhausted (n : nat) :
  forall (i : nat),
    (forall j : nat, (i <= j)%nat ->
       0 <= Z.of_nat j * pts + deltaFs ->
       slen <= boundary_index sts (Z.of_nat j * pts + deltaFs)) ->
    flat_map step (map Z.of_nat (seq i n)) = [].
Proof.
  induction n as [| n IH]; intros i Hall; cbn [seq map flat_map]; [reflexivity |].
  rewrite (IH (S i)) by (intros j Hj; apply Hall; lia).
  rewrite app_nil_r. unfold step. cbv zeta.
  destruct (Z.leb_spec 0 (Z.of_nat i * pts + deltaFs)) as [Hpos | Hneg];
    [| reflexivity].
  destruct (Z.ltb_spec (boundary_index sts (Z.of_nat i * pts + deltaFs)) slen)
    as [Hlt | Hge]; [| reflexivity].
  specialize (Hall i (Nat.le_refl i) Hpos). lia.
Qed.

(** The cursor loop lists the matches of the index arithmetic. *)
Lemma uniform_matches_indexed (n : nat) :
  forall (i : nat) (c : Z),
    (forall j, Z.of_nat i <= j < Z.of_nat i + Z.of_nat n ->
               Int64.in_range (j * pts + deltaFs)) ->
    0 <= c < slen ->
    c <= boundary_index sts (Z.of_nat i * pts + deltaFs) ->
    uniform_matches ppri psec deltaFs n (Z.of_nat i) c =
    flat_map step (map Z.of_nat (seq i n)).
Proof.
  induction n as [| n IH]; intros i c Hrange Hc Hinv;
    cbn [uniform_matches seq map flat_map]; [reflexivity |].
  cbv zeta.
  assert (Hnext : Z.of_nat i + 1 = Z.of_nat (S i)) by lia.
  assert (Hmono : boundary_index sts (Z.of_nat i * pts + deltaFs)
                  <= boundary_index sts (Z.of_nat (S i) * pts + deltaFs))
    by (apply boundary_index_mono; nia).
  assert (Hrange' : forall j, Z.of_nat (S i) <= j < Z.of_nat (S i) + Z.of_nat n ->
                              Int64.in_range (j * pts + deltaFs))
    by (intros j Hj; apply Hrange; lia).
  rewrite (uniform_target_exact ppri deltaFs (Z.of_nat i)) by (apply Hrange; lia).
  fold pts sts slen. rewrite Hnext.
  unfold step at 1. cbv zeta.
  destruct (Z.ltb_spec (Z.of_nat i * pts + deltaFs) 0) as [Hneg | Hpos].
  - destruct (Z.leb_spec 0 (Z.of_nat i * pts + deltaFs)) as [Hpos | _]; [lia |].
    cbn [andb app]. apply IH; [exact Hrange' | exact Hc | lia].
  - destruct (Z.leb_spec 0 (Z.of_nat i * pts + deltaFs)) as [_ | Hneg]; [| lia].
    cbn [andb].
    rewrite Int64Facts.uwrap_nonneg; [| exact Hpos | apply Hrange; lia].
    rewrite (uniform_advance_spec slen sts sts_pos no_wrap _
               (Z.to_nat (slen - c)) c eq_refl Hc).
    cbv zeta.
    replace (Z.max c ((Z.of_nat i * pts + deltaFs - 1) / sts))
      with (boundary_index sts (Z.of_nat i * pts + deltaFs))
      by (unfold boundary_index in Hinv |- *; destruct Hc as [Hc0 _];
          revert Hinv Hc0; generalize ((Z.of_nat i * pts + deltaFs - 1) / sts);
          intros; lia).
    destruct (Z.ltb_spec (boundary_index sts (Z.of_nat i * pts + deltaFs)) slen)
      as [Hlt | Hge].
    + cbn [app]. f_equal.
      apply IH; [exact Hrange' | split; [apply Z.le_max_l | exact Hlt] | exact Hmono].
    + cbn [app]. symmetry. apply steps_exhausted.
      intros j Hj _.
      assert (boundary_index sts (Z.of_nat i * pts + deltaFs)
              <= boundary_index sts (Z.of_nat j * pts + deltaFs))
        by (apply boundary_index_mono; nia).
      lia.
Qed.

End UniformMatches.

(** C4, as the code has it.  On the uniform CPU path, with a
    non-negative primary timescale, a positive secondary timescale, a
    non-empty secondary waveform and no overflow in the time arithmetic,
    the cursor loop is the index arithmetic of [indexed_matches] with
    the index [boundary_index]: candidate [d] accumulates exactly the
    primary samples [i] whose target time
    [target = i * timescale + deltaFs], with the [deltaFs] of C2, is not
    negative and whose index [k = (target - 1) / timescale'], or [k = 0]
    for target 0, is inside the secondary waveform, each with secondary
    sample [k], the first whose end time [(k + 1) * timescale'] is not
    before the target.  That index is the direct index
    [target / timescale'] exactly when the target is 0 or is not a
    multiple of the secondary timescale; on a positive multiple it is one
    less. *)
Theorem uniform_cursor_matched_index (ppri psec : UniformAnalogWaveform.t) (d : Z) :
  let pb := UniformAnalogWaveform.base ppri in
  let sb := UniformAnalogWaveform.base psec in
  let pts := m_timescale pb in
  let sts := m_timescale sb in
  let deltaFs := claimed_deltaFs pb sb d in
  0 <= pts ->
  0 < sts ->
  1 <= UniformAnalogWaveform.size psec ->
  UniformAnalogWaveform.size psec * sts < Int64.modulus ->
  Int64.in_range (pts * d) ->
  Int64.in_range (m_triggerPhase pb - m_triggerPhase sb) ->
  (forall i, 0 <= i < UniformAnalogWaveform.size ppri ->
             Int64.in_range (i * pts + deltaFs)) ->
  uniform_candidate ppri psec d =
  accumulate_matches (UniformAnalogWaveform.m_samples ppri)
    (UniformAnalogWaveform.m_samples psec)
    (indexed_matches boundary_index ppri psec d) accum0 /\
  uniform_candidate_matches ppri psec d = indexed_matches boundary_index ppri psec d /\
  (forall i k,
     In (i, k) (uniform_candidate_matches ppri psec d) <->
     0 <= i < UniformAnalogWaveform.size ppri /\
     0 <= i * pts + deltaFs /\
     k = boundary_index sts (i * pts + deltaFs) /\
     k < UniformAnalogWaveform.size psec) /\
  (forall i, 0 <= i < UniformAnalogWaveform.size ppri ->
             uniform_target ppri (uniform_deltaFs ppri psec d) i = i * pts + deltaFs) /\
  (forall target, 0 <= target ->
     (boundary_index sts target = direct_index sts target <->
      target = 0 \/ target mod sts <> 0)).
Proof.
  intros pb sb pts sts deltaFs Hpts Hsts Hlen Hwrap Hmul Hsub Hrange.
  assert (Hdelta : 1 <= UniformAnalogWaveform.size ppri ->
                   uniform_deltaFs ppri psec d = deltaFs).
  { intros Hne. unfold uniform_deltaFs, Int64.add, Int64.mul, Int64.sub.
    fold pb sb pts.
    rewrite (Int64Facts.wrap_id _ Hmul), (Int64Facts.wrap_id _ Hsub).
    replace (pts * d + (m_triggerPhase pb - m_triggerPhase sb)) with (0 * pts + deltaFs)
      by (unfold deltaFs, claimed_deltaFs; fold pts; lia).
    rewrite Int64Facts.wrap_id by (apply Hrange; lia). lia. }
  assert (Hlist : uniform_candidate_matches ppri psec d
                  = indexed_matches boundary_index ppri psec d).
  { unfold uniform_candidate_matches, indexed_matches. cbv zeta.
    fold pb sb pts sts deltaFs.
    destruct (Z.to_nat (UniformAnalogWaveform.size ppri)) as [| n] eqn:Hn;
      [reflexivity |].
    rewrite Hdelta by lia. rewrite <- Hn.
    apply (uniform_matches_indexed ppri psec deltaFs Hpts Hsts Hwrap
             (Z.to_nat (UniformAnalogWaveform.size ppri)) 0%nat 0).
    - intros j Hj. apply Hrange. lia.
    - lia.
    - apply Z.le_max_l. }
  split.
  { rewrite <- Hlist. unfold uniform_candidate, uniform_candidate_matches.
    apply uniform_samples_matches. }
  split; [exact Hlist |].
  split.
  { intros i k. rewrite Hlist. unfold indexed_matches. cbv zeta.
    fold pb sb pts sts deltaFs.
    rewrite in_flat_map. split.
    - intros (j & Hj & Hin). apply in_map_iff in Hj.
      destruct Hj as (m & <- & Hm). apply in_seq in Hm.
      destruct (Z.leb_spec 0 (Z.of_nat m * pts + deltaFs)) as [Hpos | Hneg];
        [| destruct Hin].
      destruct (Z.ltb_spec (boundary_index sts (Z.of_nat m * pts + deltaFs))
                  (UniformAnalogWaveform.size psec)) as [Hlt | Hge];
        [| destruct Hin].
      destruct Hin as [Heq | []]. injection Heq as <- <-.
      repeat split; try assumption; lia.
    - intros (Hi & Hpos & -> & Hlt). exists i. split.
      + apply in_map_iff. exists (Z.to_nat i). split; [lia |].
        apply in_seq. lia.
      + destruct (Z.leb_spec 0 (i * pts + deltaFs)) as [_ | Hneg]; [| lia].
        destruct (Z.ltb_spec (boundary_index sts (i * pts + deltaFs))
                    (UniformAnalogWaveform.size psec)) as [_ | Hge]; [| lia].
        left. reflexivity. }
  split.
  { intros i Hi. rewrite Hdelta by lia.
    apply uniform_target_exact. apply Hrange. exact Hi. }
  intros target Ht. unfold boundary_index, direct_index.
  apply (matched_index_vs_quotient _ sts Ht Hsts).
Qed.

(** Candidate 1 of a two-sample waveform against itself: primary sample 1
    has target 2 and is matched with secondary sample [(2 - 1) / 1]. *)
Lemma uniform_cursor_matched_index_witness :
  uniform_candidate_matches (uniform_pair 1) (uniform_pair 1) 1 = [(0, 0); (1, 1)] /\
  indexed_matches boundary_index (uniform_pair 1) (uniform_pair 1) 1 = [(0, 0); (1, 1)] /\
  In (1, 1) (uniform_candidate_matches (uniform_pair 1) (uniform_pair 1) 1).
Proof.
  destruct (uniform_cursor_matched_index (uniform_pair 1) (uniform_pair 1) 1)
    as (_ & Hlist & Hin & _).
  - vm_compute. congruence.
  - reflexivity.
  - vm_compute. congruence.
  - reflexivity.
  - vm_compute. split; congruence.
  - vm_compute. split; congruence.
  - intros i Hi. change (UniformAnalogWaveform.size (uniform_pair 1)) with 2 in Hi.
    assert (Hcase : i = 0 \/ i = 1) by lia.
    destruct Hcase as [-> | ->]; vm_compute; split; congruence.
  - split; [rewrite Hlist; reflexivity |]. split; [reflexivity |].
    apply Hin. vm_compute. repeat split; congruence.
Defined.

(** C4 as stated fails.  For a two-sample waveform against itself at
    candidate 0, primary sample 1 has target time 1, the direct index is
    [1 / 1 = 1], and the loop matches it with secondary sample 0. *)
Lemma uniform_cursor_is_not_direct_index :
  let w := uniform_pair 1 in
  let deltaFs := uniform_deltaFs w w 0 in
  let sts := m_timescale (UniformAnalogWaveform.base w) in
  uniform_candidate_matches w w 0 = [(0, 0); (1, 0)] /\
  uniform_target w deltaFs 1 = 1 /\
  uniform_target w deltaFs 1 / sts = 1 /\
  ~ (forall i k, In (i, k) (uniform_candidate_matches w w 0) ->
                 k = uniform_target w deltaFs i / sts).
Proof.
  cbv zeta. repeat split; try reflexivity.
  intros H. specialize (H 1 0).
  assert (Hin : In (1, 0) (uniform_candidate_matches (uniform_pair 1) (uniform_pair 1) 0))
    by (vm_compute; auto).
  specialize (H Hin). vm_compute in H. discriminate H.
Qed.

(** ** C10: the reads of the secondary buffers *)

Lemma uniform_advance_bounds (slen sts t : Z) (n : nat) :
  forall isec k,
    Z.to_nat (slen - isec) = n ->
    uniform_advance slen sts t isec = Some k ->
    isec <= k /\ (isec < slen -> k < slen).
Proof.
  induction n as [n IH] using lt_wf_ind. intros isec k Hn H.
  rewrite uniform_advance_equation_1 in H.
  destruct (Z_lt_dec _ _) as [Hlt | Hge]; cbn in H.
  - destruct (Z_ge_dec (isec + 1) slen) as [Hend | Hmore]; cbn in H.
    + discriminate H.
    + apply (IH (Z.to_nat (slen - (isec + 1)))) in H; [lia | lia | reflexivity].
  - injection H as <-. lia.
Qed.

Lemma sparse_end_in_bounds (psec : SparseAnalogWaveform.t) (isec : Z) :
  SparseAnalogWaveform.consistent psec ->
  0 <= isec < SparseAnalogWaveform.size psec ->
  exists e, sparse_end psec isec = Ok e.
Proof.
  intros [Ho Hd] Hi. unfold SparseAnalogWaveform.size in Hi. unfold sparse_end.
  destruct (read_in_bounds (SparseAnalogWaveform.m_offsets psec) isec) as [o ->];
    [rewrite Ho; exact Hi |].
  destruct (read_in_bounds (SparseAnalogWaveform.m_durations psec) isec) as [du ->];
    [rewrite Hd; exact Hi |].
  cbn [bind]. eexists. reflexivity.
Qed.

Lemma sparse_advance_in_bounds (psec : SparseAnalogWaveform.t) (target : Z)
    (n : nat) :
  SparseAnalogWaveform.consistent psec ->
  forall isec,
    Z.to_nat (SparseAnalogWaveform.size psec - isec) = n ->
    0 <= isec < SparseAnalogWaveform.size psec ->
    sparse_advance psec target isec = Ok None \/
    exists k, sparse_advance psec target isec = Ok (Some k) /\
              isec <= k < SparseAnalogWaveform.size psec.
Proof.
  intros Hwf. induction n as [n IH] using lt_wf_ind. intros isec Hn Hi.
  rewrite sparse_advance_equation_1.
  destruct (sparse_end_in_bounds psec isec Hwf Hi) as [e ->]. cbn.
  destruct (Z_lt_dec e target) as [Hlt | Hge]; cbn.
  - destruct (Z_ge_dec (isec + 1) (SparseAnalogWaveform.size psec))
      as [Hend | Hmore]; cbn.
    + left. reflexivity.
    + destruct (IH (Z.to_nat (SparseAnalogWaveform.size psec - (isec + 1)))
                  ltac:(lia) (isec + 1) eq_refl ltac:(lia))
        as [-> | (k & -> & Hk)].
      * left. reflexivity.
      * right. exists k. split; [reflexivity | lia].
  - right. exists isec. split; [reflexivity | lia].
Qed.

Lemma uniform_samples_in_bounds (ppri psec : UniformAnalogWaveform.t) (deltaFs : Z)
    (n : nat) :
  forall (i : Z) (acc : Accum),
    0 <= i ->
    i + Z.of_nat n <= UniformAnalogWaveform.size ppri ->
    0 <= isecondary acc < UniformAnalogWaveform.size psec ->
    exists acc', uniform_samples ppri psec deltaFs n i acc = Ok acc'.
Proof.
  induction n as [| n IH]; intros i acc Hi Hn Hc; cbn [uniform_samples].
  - exists acc. reflexivity.
  - cbv zeta.
    destruct (uniform_target ppri deltaFs i <? 0); [apply IH; lia |].
    destruct (uniform_advance _ _ _ _) as [k |] eqn:Hadv;
      [| exists acc; reflexivity].
    apply (uniform_advance_bounds _ _ _ _ _ _ eq_refl) in Hadv.
    destruct (read_in_bounds (UniformAnalogWaveform.m_samples ppri) i) as [p ->];
      [unfold UniformAnalogWaveform.size in Hn; lia |].
    destruct (read_in_bounds (UniformAnalogWaveform.m_samples psec) k) as [s ->];
      [unfold UniformAnalogWaveform.size in Hc, Hadv; lia |].
    cbn [bind]. apply IH; cbn [accumulate isecondary]; lia.
Qed.

Lemma sparse_samples_in_bounds (ppri psec : SparseAnalogWaveform.t) (deltaFs : Z)
    (n : nat) :
  SparseAnalogWaveform.consistent ppri ->
  SparseAnalogWaveform.consistent psec ->
  forall (i : Z) (acc : Accum),
    0 <= i ->
    i + Z.of_nat n <= SparseAnalogWaveform.size ppri ->
    0 <= isecondary acc < SparseAnalogWaveform.size psec ->
    exists acc', sparse_samples ppri psec deltaFs n i acc = Ok acc'.
Proof.
  intros Hp Hs.
  induction n as [| n IH]; intros i acc Hi Hn Hc; cbn [sparse_samples].
  - exists acc. reflexivity.
  - unfold sparse_target, sparse_start.
    destruct (read_in_bounds (SparseAnalogWaveform.m_offsets ppri) i) as [o ->];
      [rewrite (proj1 Hp); unfold SparseAnalogWaveform.size in Hn; lia |].
    cbn [bind].
    destruct (_ <? 0); [apply IH; lia |].
    destruct (sparse_advance_in_bounds psec
                (Int64.add (Int64.add (Int64.mul o
                   (m_timescale (SparseAnalogWaveform.base ppri)))
                   (m_triggerPhase (SparseAnalogWaveform.base ppri))) deltaFs)
                _ Hs (isecondary acc) eq_refl Hc)
      as [-> | (k & -> & Hk)]; cbn [bind].
    + exists acc. reflexivity.
    + destruct (read_in_bounds (SparseAnalogWaveform.m_samples ppri) i) as [p ->];
        [unfold SparseAnalogWaveform.size in Hn; lia |].
      destruct (read_in_bounds (SparseAnalogWaveform.m_samples psec) k) as [s ->];
        [unfold SparseAnalogWaveform.size in Hk; lia |].
      cbn [bind]. apply IH; cbn [accumulate isecondary]; lia.
Qed.

Lemma uniform_candidate_in_bounds (ppri psec : UniformAnalogWaveform.t) (d : Z) :
  1 <= UniformAnalogWaveform.size psec ->
  exists acc, uniform_candidate ppri psec d = Ok acc.
Proof.
  intros Hs. unfold uniform_candidate.
  apply uniform_samples_in_bounds; cbn [accum0 isecondary]; try lia.
  unfold UniformAnalogWaveform.size. lia.
Qed.

Lemma sparse_candidate_in_bounds (ppri psec : SparseAnalogWaveform.t) (d : Z) :
  SparseAnalogWaveform.consistent ppri ->
  SparseAnalogWaveform.consistent psec ->
  1 <= SparseAnalogWaveform.size psec ->
  exists acc, sparse_candidate ppri psec d = Ok acc.
Proof.
  intros Hp Hs Hlen. unfold sparse_candidate.
  apply sparse_samples_in_bounds; cbn [accum0 isecondary]; try assumption; try lia.
  unfold SparseAnalogWaveform.size. lia.
Qed.

Lemma read_empty {A : Type} (i : Z) : read (@nil A) i = OutOfBounds.
Proof.
  unfold read. destruct (i <? 0); [reflexivity |].
  destruct (Z.to_nat i); reflexivity.
Qed.

Lemma uniform_samples_empty_secondary (ppri psec : UniformAnalogWaveform.t)
    (deltaFs : Z) (n : nat) :
  UniformAnalogWaveform.m_samples psec = [] ->
  forall (i j : Z) (acc : Accum),
    isecondary acc = 0 ->
    i <= j < i + Z.of_nat n ->
    (forall i', i <= i' < j -> uniform_target ppri deltaFs i' < 0) ->
    0 <= uniform_target ppri deltaFs j ->
    ~ Int64.umul (Int64.uwrap 1)
        (Int64.uwrap (m_timescale (UniformAnalogWaveform.base psec)))
      < Int64.uwrap (uniform_target ppri deltaFs j) ->
    uniform_samples ppri psec deltaFs n i acc = OutOfBounds.
Proof.
  intros Hempty.
  induction n as [| n IH]; intros i j acc Hc Hj Hskip Ht Htest;
    cbn [uniform_samples]; [lia |].
  cbv zeta.
  destruct (Z.ltb_spec (uniform_target ppri deltaFs i) 0) as [Hneg | Hpos].
  - apply (IH (i + 1) j); try assumption.
    + destruct (Z.eq_dec i j) as [-> | Hne]; lia.
    + intros i' Hi'. apply Hskip. lia.
  - assert (i = j) as ->.
    { destruct (Z.eq_dec i j) as [E | Hne]; [exact E |].
      specialize (Hskip i ltac:(lia)). lia. }
    rewrite Hc, uniform_advance_equation_1.
    destruct (Z_lt_dec _ _) as [Hlt | Hge]; [contradiction |]. cbn.
    destruct (read (UniformAnalogWaveform.m_samples ppri) j); cbn [bind];
      [| reflexivity].
    rewrite Hempty. reflexivity.
Qed.

Lemma sparse_samples_empty_secondary (ppri psec : SparseAnalogWaveform.t)
    (deltaFs : Z) (n : nat) :
  SparseAnalogWaveform.m_offsets psec = [] ->
  forall (i j t : Z) (acc : Accum),
    i <= j < i + Z.of_nat n ->
    sparse_target ppri deltaFs j = Ok t ->
    0 <= t ->
    sparse_samples ppri psec deltaFs n i acc = OutOfBounds.
Proof.
  intros Hempty.
  induction n as [| n IH]; intros i j t acc Hj Ht Hpos;
    cbn [sparse_samples]; [lia |].
  destruct (sparse_target ppri deltaFs i) as [ti |] eqn:Hti; cbn [bind];
    [| reflexivity].
  destruct (Z.ltb_spec ti 0) as [Hneg | Hge].
  - apply (IH (i + 1) j t); try assumption.
    destruct (Z.eq_dec i j) as [-> | Hne]; [| lia].
    rewrite Hti in Ht. injection Ht as ->. lia.
  - rewrite sparse_advance_equation_1.
    unfold sparse_end. rewrite Hempty, read_empty. reflexivity.
Qed.

(** C10.  On both CPU paths every buffer read of a candidate is in bounds
    when the secondary waveform has at least one sample (and, on the
    sparse path, the three buffers of each waveform have one length).  With
    an empty secondary waveform the first read of a secondary buffer, at
    cursor 0, comes before any comparison of the cursor with the length and
    is out of bounds: on the sparse path as soon as one primary sample has
    a non-negative target time, on the uniform path as soon as the first
    such sample does not enter the [while] loop. *)
Theorem secondary_reads_need_samples (d : Z) :
  (forall ppri psec : UniformAnalogWaveform.t,
     1 <= UniformAnalogWaveform.size psec ->
     exists acc, uniform_candidate ppri psec d = Ok acc) /\
  (forall ppri psec : SparseAnalogWaveform.t,
     SparseAnalogWaveform.consistent ppri ->
     SparseAnalogWaveform.consistent psec ->
     1 <= SparseAnalogWaveform.size psec ->
     exists acc, sparse_candidate ppri psec d = Ok acc) /\
  (forall (ppri psec : UniformAnalogWaveform.t) (j : Z),
     let deltaFs := uniform_deltaFs ppri psec d in
     UniformAnalogWaveform.size psec = 0 ->
     0 <= j < UniformAnalogWaveform.size ppri ->
     (forall i, 0 <= i < j -> uniform_target ppri deltaFs i < 0) ->
     0 <= uniform_target ppri deltaFs j ->
     ~ Int64.umul (Int64.uwrap 1)
         (Int64.uwrap (m_timescale (UniformAnalogWaveform.base psec)))
       < Int64.uwrap (uniform_target ppri deltaFs j) ->
     uniform_candidate ppri psec d = OutOfBounds) /\
  (forall (ppri psec : SparseAnalogWaveform.t) (j t : Z),
     SparseAnalogWaveform.size psec = 0 ->
     SparseAnalogWaveform.consistent psec ->
     0 <= j < SparseAnalogWaveform.size ppri ->
     sparse_target ppri (sparse_deltaFs ppri d) j = Ok t ->
     0 <= t ->
     sparse_candidate ppri psec d = OutOfBounds).
Proof.
  split; [| split; [| split]].
  - intros ppri psec. apply uniform_candidate_in_bounds.
  - intros ppri psec. apply sparse_candidate_in_bounds.
  - intros ppri psec j deltaFs Hlen Hj Hskip Ht Htest.
    unfold uniform_candidate. fold deltaFs.
    apply (uniform_samples_empty_secondary ppri psec deltaFs _) with (j := j);
      try assumption; try reflexivity; try lia.
    unfold UniformAnalogWaveform.size in Hlen.
    destruct (UniformAnalogWaveform.m_samples psec); [reflexivity | cbn in Hlen; lia].
  - intros ppri psec j t Hlen [Ho _] Hj Ht Hpos.
    unfold sparse_candidate.
    apply (sparse_samples_empty_secondary ppri psec _ _) with (j := j) (t := t);
      try assumption; try lia.
    unfold SparseAnalogWaveform.size in Hlen.
    destruct (SparseAnalogWaveform.m_offsets psec); [reflexivity |].
    rewrite <- Ho in Hlen. cbn in Hlen. lia.
Qed.

(** Candidate 0 of a two-sample primary against an empty secondary, on
    both paths: primary sample 0 has target time 0 and the secondary is
    read at index 0. *)
Lemma secondary_reads_need_samples_witness :
  uniform_candidate (uniform_pair 1) (uniform_empty 1) 0 = OutOfBounds /\
  sparse_candidate (sparse_pair 0 1) (sparse_empty 1) 0 = OutOfBounds /\
  (exists acc, uniform_candidate (uniform_pair 1) (uniform_pair 1) 0 = Ok acc) /\
  (exists acc, sparse_candidate (sparse_pair 0 1) (sparse_pair 0 1) 0 = Ok acc).
Proof.
  destruct (secondary_reads_need_samples 0) as (Hu & Hs & Hue & Hse).
  split; [| split; [| split]].
  - apply (Hue (uniform_pair 1) (uniform_empty 1) 0).
    + reflexivity.
    + vm_compute. split; congruence.
    + intros i Hi. lia.
    + vm_compute. congruence.
    + vm_compute. congruence.
  - apply (Hse (sparse_pair 0 1) (sparse_empty 1) 0 0).
    + reflexivity.
    + split; reflexivity.
    + vm_compute. split; congruence.
    + reflexivity.
    + lia.
  - apply (Hu (uniform_pair 1) (uniform_pair 1)). vm_compute. congruence.
  - apply (Hs (sparse_pair 0 1) (sparse_pair 0 1)).
    + split; reflexivity.
    + split; reflexivity.
    + vm_compute. congruence.
Defined.

(** ** What a correlation run changes *)

Lemma set_best_eta (w : ScopeDeskewWizard) :
  set_best w (m_bestCorrelation w) (m_bestCorrelationOffset w) = w.
Proof. destruct w; reflexivity. Qed.

Lemma run_candidates_best (body : Z -> mem Accum) (sched : list Z) :
  forall w w',
    run_candidates body sched w = Ok w' ->
    w' = set_best w (m_bestCorrelation w') (m_bestCorrelationOffset w') /\
    ((m_bestCorrelation w' = m_bestCorrelation w /\
      m_bestCorrelationOffset w' = m_bestCorrelationOffset w) \/
     Fp.gt (m_bestCorrelation w') (m_bestCorrelation w) = true).
Proof.
  induction sched as [| d rest IH]; intros w w' H; cbn [run_candidates] in H.
  - injection H as <-. split; [symmetry; apply set_best_eta | left; split; reflexivity].
  - bind_ok H. apply IH in H. destruct H as [Hshape Hmono].
    unfold update_best in Hshape, Hmono.
    destruct (Fp.gt (normalizedCorrelation a) (m_bestCorrelation w)) eqn:G.
    + split; [exact Hshape |]. right.
      destruct Hmono as [[Hc _] | Hgt].
      * cbn in Hc. rewrite Hc. exact G.
      * cbn in Hgt. apply (FpFacts.gt_trans _ _ _ Hgt G).
    + split; assumption.
Qed.

Lemma run_candidates_total (body : Z -> mem Accum) (sched : list Z) :
  (forall d, exists acc, body d = Ok acc) ->
  forall w, exists w', run_candidates body sched w = Ok w'.
Proof.
  intros Hbody. induction sched as [| d rest IH]; intros w; cbn [run_candidates].
  - exists w. reflexivity.
  - destruct (Hbody d) as [acc ->]. cbn [bind]. apply IH.
Qed.

(** [StartCorrelation] either logs the error and returns, or stores a
    best pair and pushes it, as the skew of the current primary. *)
Lemma StartCorrelation_shape (shader : Shader) (f : Frame) (w w' : ScopeDeskewWizard) :
  StartCorrelation shader f w = Ok w' ->
  w' = LogError w \/
  exists pri,
    primaryData f = Some pri /\
    w' = collect_skew
           (set_best w (m_bestCorrelation w') (m_bestCorrelationOffset w'))
           (waveform_base pri).
Proof.
  unfold StartCorrelation.
  destruct (primaryData f) as [[upri | spri | b] |];
    destruct (secondaryData f) as [[usec | ssec | b'] |];
    intros H; try (left; injection H as <-; reflexivity).
  - right. exists (Uniform upri). split; [reflexivity |].
    destruct (g_hasShaderInt64 f && g_hasShaderFloat64 f); cbn [bind] in H.
    + injection H as <-. reflexivity.
    + bind_ok H. injection H as <-.
      apply run_candidates_best in E. destruct E as [Hshape _].
      rewrite Hshape at 1. reflexivity.
  - right. exists (Sparse spri). split; [reflexivity |].
    bind_ok H. injection H as <-.
    apply run_candidates_best in E. destruct E as [Hshape _].
    rewrite Hshape at 1. reflexivity.
Qed.

(** ** C6: mixed representations *)

(** C6.  When one stream holds a uniform and the other a sparse waveform,
    [StartCorrelation] logs the error and returns at once: its result does
    not depend on any sample, no record is pushed to the history and the
    best pair is untouched; the frame that made the call leaves the
    history as it was. *)
Theorem mixed_representation_is_rejected (shader : Shader) (f : Frame)
    (w : ScopeDeskewWizard) :
  mixed_representation f ->
  StartCorrelation shader f w = Ok (LogError w) /\
  errors (LogError w) = S (errors w) /\
  m_skews (LogError w) = m_skews w /\
  m_correlations (LogError w) = m_correlations w /\
  m_bestCorrelation (LogError w) = m_bestCorrelation w /\
  m_bestCorrelationOffset (LogError w) = m_bestCorrelationOffset w /\
  (m_state w = STATE_ACQUIRE ->
   forall w', DoMainProcessingFlow shader f w = Ok w' ->
              m_skews w' = m_skews w /\ m_correlations w' = m_correlations w).
Proof.
  intros Hmixed.
  assert (Hstart : forall w0, StartCorrelation shader f w0 = Ok (LogError w0)).
  { intros w0. unfold StartCorrelation.
    destruct Hmixed as [(u & s & -> & ->) | (s & u & -> & ->)]; reflexivity. }
  split; [apply Hstart |].
  do 5 (split; [reflexivity |]).
  intros Hacq w' Hflow.
  unfold DoMainProcessingFlow in Hflow. rewrite Hacq in Hflow.
  destruct (primaryData f) as [data |];
    [| injection Hflow as <-; split; reflexivity].
  destruct (_ && _); [injection Hflow as <-; split; reflexivity |].
  rewrite Hstart in Hflow. cbn [bind] in Hflow.
  injection Hflow as <-. split; reflexivity.
Qed.

(** A uniform primary against a sparse secondary, in the acquire state. *)
Lemma mixed_representation_is_rejected_witness :
  StartCorrelation reference_shader mixed_frame acquiring
  = Ok (LogError acquiring) /\
  m_skews (LogError acquiring) = [] /\
  m_correlations (LogError acquiring) = [].
Proof.
  assert (Hmixed : mixed_representation mixed_frame).
  { left. exists (uniform_pair 1), (sparse_pair 0 1). split; reflexivity. }
  destruct (mixed_representation_is_rejected reference_shader mixed_frame
              acquiring Hmixed) as (Hstart & _ & Hs & Hc & _).
  split; [exact Hstart |]. split; [exact Hs | exact Hc].
Defined.

(** ** C9: waiting for new data *)

Lemma StartCorrelation_total (shader : Shader) (f : Frame) (w : ScopeDeskewWizard) :
  readable f -> exists w', StartCorrelation shader f w = Ok w'.
Proof.
  unfold readable, uses_accelerator, StartCorrelation.
  destruct (primaryData f) as [[upri | spri | b] |];
    destruct (secondaryData f) as [[usec | ssec | b'] |];
    intros Hr; try (eexists; reflexivity).
  - destruct (g_hasShaderInt64 f && g_hasShaderFloat64 f) eqn:Hcap; cbn [bind].
    + eexists. reflexivity.
    + destruct Hr as [Hr | Hlen]; [discriminate Hr |].
      destruct (run_candidates_total (uniform_candidate upri usec) (omp_schedule f)
                  (fun d => uniform_candidate_in_bounds upri usec d Hlen) w)
        as [w1 Hw1].
      unfold DoProcessWaveformUniformUnequalRate. rewrite Hw1. cbn [bind].
      eexists. reflexivity.
  - destruct Hr as (Hp & Hs & Hlen).
    destruct (run_candidates_total (sparse_candidate spri ssec) (omp_schedule f)
                (fun d => sparse_candidate_in_bounds spri ssec d Hp Hs Hlen) w)
      as [w1 Hw1].
    unfold DoProcessWaveformSparse. rewrite Hw1. cbn [bind].
    eexists. reflexivity.
Qed.

(** [StartCorrelation] leaves the state, the counters of the state
    machine and the stored signature alone. *)
Lemma StartCorrelation_frame (shader : Shader) (f : Frame) (w w' : ScopeDeskewWizard) :
  StartCorrelation shader f w = Ok w' ->
  m_state w' = m_state w /\
  m_measureCycle w' = m_measureCycle w /\
  m_lastTriggerTimestamp w' = m_lastTriggerTimestamp w /\
  m_lastTriggerFs w' = m_lastTriggerFs w /\
  m_maxSkewSamples w' = m_maxSkewSamples w /\
  armed w' = armed w.
Proof.
  intros H.
  destruct (StartCorrelation_shape shader f w w' H) as [-> | (pri & _ & ->)];
    repeat split.
Qed.

Lemma signature_test (f : Frame) (w : ScopeDeskewWizard) (data : WaveformData) :
  primaryData f = Some data ->
  ((m_lastTriggerTimestamp w =? m_startTimestamp (waveform_base data))
   && (m_lastTriggerFs w =? m_startFemtoseconds (waveform_base data)) = false
   <-> fresh_data f w).
Proof.
  intros Hdata. unfold fresh_data. split.
  - intros Htest. exists data. split; [exact Hdata |].
    intros Heq. injection Heq as E1 E2.
    rewrite E1, E2, !Z.eqb_refl in Htest. discriminate Htest.
  - intros (data' & Hdata' & Hne).
    rewrite Hdata in Hdata'. injection Hdata' as <-.
    destruct (Z.eqb_spec (m_lastTriggerTimestamp w)
                (m_startTimestamp (waveform_base data))) as [E1 | N1];
      [| reflexivity].
    destruct (Z.eqb_spec (m_lastTriggerFs w)
                (m_startFemtoseconds (waveform_base data))) as [E2 | N2];
      [| reflexivity].
    exfalso. apply Hne. rewrite E1, E2. reflexivity.
Qed.

(** C9.  In the acquire state a call of [DoMainProcessingFlow] returns the
    wizard unchanged (state, stored signature, history and all) when the
    primary stream has no data or its signature equals the stored one.
    When it returns a wizard, that wizard is in the correlate state if and
    only if the primary stream has data with a signature different from
    the stored one, and then the stored signature is the new one.  With
    such data the call does return, provided the buffers that a CPU
    backend reads are there. *)
Theorem acquire_waits_for_new_data (shader : Shader) (f : Frame)
    (w : ScopeDeskewWizard) :
  m_state w = STATE_ACQUIRE ->
  (~ fresh_data f w -> DoMainProcessingFlow shader f w = Ok w) /\
  (forall w',
     DoMainProcessingFlow shader f w = Ok w' ->
     (m_state w' = STATE_CORRELATE <-> fresh_data f w) /\
     (forall data,
        primaryData f = Some data -> fresh_data f w ->
        m_lastTriggerTimestamp w' = m_startTimestamp (waveform_base data) /\
        m_lastTriggerFs w' = m_startFemtoseconds (waveform_base data))) /\
  (fresh_data f w -> readable f ->
   exists w', DoMainProcessingFlow shader f w = Ok w' /\
              m_state w' = STATE_CORRELATE).
Proof.
  intros Hacq. unfold DoMainProcessingFlow. rewrite Hacq.
  destruct (primaryData f) as [data |] eqn:Hdata.
  - pose proof (signature_test f w data Hdata) as Htest.
    destruct ((m_lastTriggerTimestamp w =? m_startTimestamp (waveform_base data))
              && (m_lastTriggerFs w =? m_startFemtoseconds (waveform_base data)))
      eqn:Hsame.
    + assert (Hstale : ~ fresh_data f w)
        by (intros Hf; apply Htest in Hf; discriminate Hf).
      split; [| split].
      * reflexivity.
      * intros w' Hw'. injection Hw' as <-. split.
        -- split; [rewrite Hacq; discriminate | intros Hf; contradiction].
        -- intros data' _ Hf. contradiction.
      * intros Hf. contradiction.
    + assert (Hfresh : fresh_data f w) by (apply Htest; reflexivity).
      split; [| split].
      * intros Hf. contradiction.
      * intros w' Hw'. bind_ok Hw'. injection Hw' as <-.
        apply StartCorrelation_frame in E.
        destruct E as (_ & _ & Hts & Hfs & _).
        split; [split; [intros _; exact Hfresh | reflexivity] |].
        intros data' Hdata' _. injection Hdata' as <-.
        cbn. rewrite Hts, Hfs. split; reflexivity.
      * intros _ Hread.
        destruct (StartCorrelation_total shader f
                    (set_lastTrigger w (m_startTimestamp (waveform_base data))
                       (m_startFemtoseconds (waveform_base data))) Hread)
          as [w2 ->].
        cbn [bind]. eexists. split; reflexivity.
  - assert (Hstale : ~ fresh_data f w)
      by (intros (data & Hd & _); rewrite Hdata in Hd; discriminate Hd).
    split; [| split].
    + reflexivity.
    + intros w' Hw'. injection Hw' as <-. split.
      * split; [rewrite Hacq; discriminate | intros Hf; contradiction].
      * intros data Hd. discriminate Hd.
    + intros Hf. contradiction.
Qed.

(** A stale frame (signature [(0, 0)], as stored) and a new one. *)
Lemma acquire_waits_for_new_data_witness :
  DoMainProcessingFlow reference_shader
    (data_frame (Uniform (uniform_pair 0)) (Uniform (uniform_pair 0)) false)
    acquiring = Ok acquiring /\
  exists w',
    DoMainProcessingFlow reference_shader
      (data_frame (Uniform (uniform_pair 1)) (Uniform (uniform_pair 1)) false)
      acquiring = Ok w' /\
    m_state w' = STATE_CORRELATE.
Proof.
  split.
  - apply (proj1 (acquire_waits_for_new_data reference_shader
                    (data_frame (Uniform (uniform_pair 0)) (Uniform (uniform_pair 0)) false)
                    acquiring eq_refl)).
    intros (data & Hd & Hne). injection Hd as <-. apply Hne. reflexivity.
  - apply (proj2 (proj2 (acquire_waits_for_new_data reference_shader
                    (data_frame (Uniform (uniform_pair 1)) (Uniform (uniform_pair 1)) false)
                    acquiring eq_refl))).
    + exists (Uniform (uniform_pair 1)). split; [reflexivity | discriminate].
    + right. vm_compute. congruence.
Defined.

(** ** The pages of [DoRender] *)

Lemma ChannelSelector_some (scope : Oscilloscope) (stream : StreamDescriptor)
    (picked : option Z) (r : StreamDescriptor) :
  ChannelSelector scope stream picked = Ok r -> exists s, r = Some s.
Proof.
  unfold ChannelSelector. cbv zeta. intros H.
  destruct picked as [k |].
  - destruct (read _ k) as [s |]; [| discriminate H]. cbn [bind] in H.
    injection H as <-. exists s. reflexivity.
  - cbn [bind] in H. destruct stream as [cur |].
    + injection H as <-. exists cur. reflexivity.
    + destruct (read _ 0) as [s |]; [| discriminate H]. cbn [bind] in H.
      injection H as <-. exists s. reflexivity.
Qed.

Lemma select_streams_inv (f : Frame) (w w' : ScopeDeskewWizard) :
  select_streams f w = Ok w' ->
  exists pri sec,
    w' = set_secondaryStream (set_primaryStream w (Some pri)) (Some sec).
Proof.
  unfold select_streams. intros H. bind_ok H. cbv zeta in H. bind_ok H.
  injection H as <-.
  destruct (ChannelSelector_some _ _ _ _ E) as (pri & ->).
  destruct (ChannelSelector_some _ _ _ _ E0) as (sec & ->).
  exists pri, sec. reflexivity.
Qed.

Lemma drawn_inv (visible : bool) (shader : Shader) (f : Frame)
    (w w' : ScopeDeskewWizard) :
  (drawn <- DoMainProcessingFlow_drawn visible shader f w ;; Ok (snd drawn)) = Ok w' ->
  DoMainProcessingFlow shader f w = Ok w'.
Proof.
  unfold DoMainProcessingFlow_drawn. intros H.
  destruct (draw_table visible w) as [rows |]; [| discriminate H]. cbn [bind] in H.
  destruct (DoMainProcessingFlow shader f w) as [w1 |]; [| discriminate H].
  cbn [bind snd] in H. exact H.
Qed.

(** The cases of [DoRender shader f w = Ok w']: on the fourth welcome
    page the two selectors have returned, and in the processing flow the
    table was drawn and the [switch] is left to look at. *)
Ltac render_cases H Hst :=
  unfold DoRender in H;
  destruct (m_state _) eqn:Hst;
  [ | | |
    let E := fresh "E" in
    let pri := fresh "pri" in
    let sec := fresh "sec" in
    destruct (select_streams _ _) eqn:E; cbn [bind] in H; [| discriminate H];
    apply select_streams_inv in E; destruct E as (pri & sec & ->)
  | | apply drawn_inv in H | apply drawn_inv in H | apply drawn_inv in H ].

Lemma past_rows_in_bounds (w : ScopeDeskewWizard) (n : nat) :
  forall i,
    0 <= i ->
    i + Z.of_nat n <= Z.of_nat (length (m_skews w)) ->
    length (m_correlations w) = length (m_skews w) ->
    exists rows,
      past_rows w n i = Ok rows /\
      length rows = n /\
      forall k, (k < n)%nat ->
        exists s c,
          nth_error (m_skews w) (Z.to_nat i + k) = Some s /\
          nth_error (m_correlations w) (Z.to_nat i + k) = Some c /\
          nth_error rows k = Some (done_row s c).
Proof.
  induction n as [| n IH]; intros i Hi Hn Hlen; cbn [past_rows].
  - exists []. split; [reflexivity |]. split; [reflexivity |]. intros k Hk. lia.
  - destruct (read_in_bounds (m_skews w) i ltac:(lia)) as (s & Hs).
    destruct (read_in_bounds (m_correlations w) i ltac:(lia)) as (c & Hc).
    destruct (IH (i + 1) ltac:(lia) ltac:(lia) Hlen) as (rest & Hrest & Hlrest & Hrows).
    rewrite Hs, Hc. cbn [bind]. rewrite Hrest. cbn [bind].
    eexists. split; [reflexivity |]. split; [cbn [length]; lia |].
    intros [| k] Hk.
    + exists s, c. rewrite Nat.add_0_r.
      unfold read in Hs, Hc. destruct (Z.ltb_spec i 0); [lia |].
      destruct (nth_error (m_skews w) (Z.to_nat i)); [| discriminate Hs].
      destruct (nth_error (m_correlations w) (Z.to_nat i)); [| discriminate Hc].
      injection Hs as ->. injection Hc as ->.
      split; [reflexivity |]. split; reflexivity.
    + destruct (Hrows k ltac:(lia)) as (s' & c' & Hs' & Hc' & Hrow).
      exists s', c'.
      replace (Z.to_nat i + S k)%nat with (Z.to_nat (i + 1) + k)%nat by lia.
      split; [exact Hs' |]. split; [exact Hc' | exact Hrow].
Qed.

Lemma past_rows_out_of_bounds (w : ScopeDeskewWizard) (n : nat) :
  forall i,
    0 <= i <= Z.of_nat (length (m_skews w)) ->
    Z.of_nat (length (m_skews w)) < i + Z.of_nat n ->
    past_rows w n i = OutOfBounds.
Proof.
  induction n as [| n IH]; intros i Hi Hn; cbn [past_rows].
  - lia.
  - destruct (Z.eq_dec i (Z.of_nat (length (m_skews w)))) as [Heq | Hne].
    + assert (Hread : read (m_skews w) i = OutOfBounds).
      { unfold read. destruct (Z.ltb_spec i 0); [reflexivity |].
        destruct (nth_error (m_skews w) (Z.to_nat i)) eqn:E; [| reflexivity].
        assert (Hsome : nth_error (m_skews w) (Z.to_nat i) <> None) by congruence.
        apply nth_error_Some in Hsome. lia. }
      rewrite Hread. reflexivity.
    + destruct (read (m_skews w) i); [| reflexivity]. cbn [bind].
      destruct (read (m_correlations w) i); [| reflexivity]. cbn [bind].
      rewrite (IH (i + 1)) by lia. reflexivity.
Qed.

Lemma draw_table_in_bounds (visible : bool) (w : ScopeDeskewWizard) :
  history_covers_cycle w -> exists rows, draw_table visible w = Ok rows.
Proof.
  intros [Hs Hc]. unfold draw_table. destruct visible; [| exists []; reflexivity].
  assert (Hgen : forall n i,
            0 <= i ->
            i + Z.of_nat n <= Z.of_nat (length (m_skews w)) ->
            i + Z.of_nat n <= Z.of_nat (length (m_correlations w)) ->
            exists rows, past_rows w n i = Ok rows).
  { induction n as [| n IH]; intros i Hi H1 H2; cbn [past_rows].
    - exists []. reflexivity.
    - destruct (read_in_bounds (m_skews w) i ltac:(lia)) as (x & ->).
      destruct (read_in_bounds (m_correlations w) i ltac:(lia)) as (c & ->).
      cbn [bind].
      destruct (IH (i + 1) ltac:(lia) ltac:(lia) ltac:(lia)) as (rest & ->).
      cbn [bind]. eexists. reflexivity. }
  destruct (Hgen (Z.to_nat (m_measureCycle w)) 0 ltac:(lia) ltac:(lia) ltac:(lia))
    as (past & ->).
  cbn [bind]. eexists. reflexivity.
Qed.

(** In the processing flow a frame whose table stays in bounds is the
    [switch]. *)
Lemma DoRender_main (shader : Shader) (f : Frame) (w : ScopeDeskewWizard) :
  m_state w = STATE_ACQUIRE \/ m_state w = STATE_CORRELATE \/ m_state w = STATE_DONE ->
  history_covers_cycle w ->
  DoRender shader f w = DoMainProcessingFlow shader f w.
Proof.
  intros Hst Hcover.
  destruct (draw_table_in_bounds (table_visible f) w Hcover) as (rows & Hrows).
  unfold DoRender, DoMainProcessingFlow_drawn. rewrite Hrows. cbn [bind].
  destruct Hst as [-> | [-> | ->]];
    (destruct (DoMainProcessingFlow shader f w); reflexivity).
Qed.

(** ** C8: ten trials *)

Lemma history_invariant_new : history_invariant ScopeDeskewWizard_new.
Proof. repeat split. Qed.

Lemma StartCorrelation_history (shader : Shader) (f : Frame) (w w' : ScopeDeskewWizard) :
  StartCorrelation shader f w = Ok w' ->
  (errors w' = S (errors w) /\
   m_skews w' = m_skews w /\ m_correlations w' = m_correlations w) \/
  (errors w' = errors w /\
   (exists s, m_skews w' = m_skews w ++ [s]) /\
   m_correlations w' = m_correlations w ++ [m_bestCorrelation w']).
Proof.
  intros H.
  destruct (StartCorrelation_shape shader f w w' H) as [-> | (pri & _ & Hshape)].
  - left. repeat split.
  - right.
    pose proof (f_equal errors Hshape) as He.
    pose proof (f_equal m_correlations Hshape) as Hc.
    pose proof (f_equal m_skews Hshape) as Hs.
    cbn in He, Hc, Hs.
    split; [exact He |]. split; [eexists; exact Hs | exact Hc].
Qed.

Lemma DoRender_done (shader : Shader) (f : Frame) (w : ScopeDeskewWizard) :
  m_state w = STATE_DONE -> history_covers_cycle w -> DoRender shader f w = Ok w.
Proof.
  intros Hst Hcover. rewrite DoRender_main; [| auto | exact Hcover].
  unfold DoMainProcessingFlow. rewrite Hst. reflexivity.
Qed.

Ltac welcome_step H Hst Hinv :=
  destruct (button _); injection H as <-;
  unfold history_invariant in *; cbn; rewrite ?Hst in *; cbn in *;
  try exact Hinv.

Lemma DoRender_invariant (shader : Shader) (f : Frame) (w w' : ScopeDeskewWizard) :
  history_invariant w -> DoRender shader f w = Ok w' -> history_invariant w'.
Proof.
  intros Hinv H. render_cases H Hst.
  - welcome_step H Hst Hinv.
  - welcome_step H Hst Hinv.
  - welcome_step H Hst Hinv.
  - welcome_step H Hst Hinv.
  - destruct (button f); injection H as <-;
      unfold history_invariant in *; rewrite ?Hst in *; [| exact Hinv].
    destruct Hinv as (Hlen & Hc & Hs & He & Ha).
    unfold start_pressed. destruct (primaryData f); cbn;
      rewrite Hc, Hs, He, Ha; rewrite Hs in Hlen;
      (split; [exact Hlen |]); unfold nWaveforms; cbn; lia.
  - unfold DoMainProcessingFlow in H. rewrite Hst in H.
    destruct (primaryData f) as [data |]; [| injection H as <-; exact Hinv].
    destruct (_ && _); [injection H as <-; exact Hinv |].
    bind_ok H. injection H as <-.
    pose proof (StartCorrelation_frame _ _ _ _ E) as (_ & Hcy & _ & _ & _ & Harm).
    pose proof (StartCorrelation_history _ _ _ _ E) as Hhist.
    unfold history_invariant in *. rewrite Hst in Hinv. cbn in *.
    destruct Hinv as (Hlen & Hrange & Hcount & Ha).
    rewrite Hcy, Harm.
    destruct Hhist as [(He & Hs & Hc) | (He & (s & Hs) & Hc)];
      rewrite He, Hs, Hc; rewrite ?length_app; cbn [length];
      (split; [lia |]); (split; [exact Hrange |]); split; lia.
  - unfold DoMainProcessingFlow in H. rewrite Hst in H. cbv zeta in H.
    unfold history_invariant in *. rewrite Hst in Hinv.
    destruct Hinv as (Hlen & Hrange & Hcount & Ha).
    cbn [m_measureCycle set_measureCycle] in H.
    destruct (Z.geb_spec (m_measureCycle w + 1) nWaveforms) as [Hge | Hlt];
      injection H as <-; cbn; (split; [exact Hlen |]); unfold nWaveforms in *; lia.
  - unfold DoMainProcessingFlow in H. rewrite Hst in H. injection H as <-.
    exact Hinv.
Qed.

Lemma DoRender_history (shader : Shader) (f : Frame) (w w' : ScopeDeskewWizard) :
  DoRender shader f w = Ok w' ->
  (exists l, m_skews w' = m_skews w ++ l) /\
  (exists l, m_correlations w' = m_correlations w ++ l) /\
  (errors w <= errors w')%nat.
Proof.
  assert (Hsame : forall w0 : ScopeDeskewWizard,
            (exists l, m_skews w0 = m_skews w0 ++ l) /\
            (exists l, m_correlations w0 = m_correlations w0 ++ l) /\
            (errors w0 <= errors w0)%nat).
  { intros w0. split; [| split]; try (exists []; symmetry; apply app_nil_r). lia. }
  intros H. render_cases H Hst;
    try (destruct (button f); injection H as <-; apply (Hsame w)).
  - destruct (button f); injection H as <-; [| apply Hsame].
    unfold start_pressed. destruct (primaryData f); apply (Hsame w).
  - unfold DoMainProcessingFlow in H. rewrite Hst in H.
    destruct (primaryData f) as [data |]; [| injection H as <-; apply Hsame].
    destruct (_ && _); [injection H as <-; apply Hsame |].
    bind_ok H. injection H as <-.
    pose proof (StartCorrelation_history _ _ _ _ E) as Hhist. cbn in *.
    destruct Hhist as [(He & Hs & Hc) | (He & (s & Hs) & Hc)];
      rewrite He, Hs, Hc.
    + split; [| split]; try (exists []; symmetry; apply app_nil_r). lia.
    + split; [| split]; try (eexists; reflexivity). lia.
  - unfold DoMainProcessingFlow in H. rewrite Hst in H. cbv zeta in H.
    destruct (_ >=? _); injection H as <-; apply (Hsame w).
  - unfold DoMainProcessingFlow in H. rewrite Hst in H. injection H as <-.
    apply Hsame.
Qed.

Lemma run_frames_app (shader : Shader) (fs1 fs2 : list Frame) :
  forall w,
    run_frames shader (fs1 ++ fs2) w =
    (w1 <- run_frames shader fs1 w ;; run_frames shader fs2 w1).
Proof.
  induction fs1 as [| f rest IH]; intros w; cbn [app run_frames bind].
  - reflexivity.
  - destruct (DoRender shader f w) as [w' |]; cbn [bind]; [apply IH | reflexivity].
Qed.

Lemma run_frames_invariant (shader : Shader) (fs : list Frame) :
  forall w w',
    history_invariant w -> run_frames shader fs w = Ok w' -> history_invariant w'.
Proof.
  induction fs as [| f rest IH]; intros w w' Hinv H; cbn [run_frames] in H.
  - injection H as <-. exact Hinv.
  - bind_ok H. apply (IH a w'); [| exact H].
    apply (DoRender_invariant shader f w a Hinv E).
Qed.

Lemma run_frames_history (shader : Shader) (fs : list Frame) :
  forall w w',
    run_frames shader fs w = Ok w' ->
    (exists l, m_skews w' = m_skews w ++ l) /\
    (exists l, m_correlations w' = m_correlations w ++ l) /\
    (errors w <= errors w')%nat.
Proof.
  induction fs as [| f rest IH]; intros w w' H; cbn [run_frames] in H.
  - injection H as <-.
    split; [| split]; try (exists []; symmetry; apply app_nil_r). lia.
  - bind_ok H.
    destruct (DoRender_history shader f w a E) as ((l1 & Hs1) & (c1 & Hc1) & He1).
    destruct (IH a w' H) as ((l2 & Hs2) & (c2 & Hc2) & He2).
    split; [| split].
    + exists (l1 ++ l2). rewrite Hs2, Hs1, app_assoc. reflexivity.
    + exists (c1 ++ c2). rewrite Hc2, Hc1, app_assoc. reflexivity.
    + lia.
Qed.

(** C8.  In every session, from the construction of the wizard on, in
    which the cycle counter has reached the ten trials and no
    representation mismatch was logged: the state is [STATE_DONE], the
    history holds exactly ten skews and ten correlations, the trigger
    group was armed ten times in all, and every later frame leaves the
    wizard as it is, so no further acquisition is requested.  The history
    only ever grows at its end: at every earlier point of the session it
    was a prefix of the final one, and in the acquire state of trial
    number [k] it held [k] records, so that record [k] is that of trial
    [k]. *)
Theorem ten_trials_end_in_done (shader : Shader) (fs : list Frame)
    (w : ScopeDeskewWizard) :
  run_frames shader fs ScopeDeskewWizard_new = Ok w ->
  m_measureCycle w = nWaveforms ->
  errors w = 0%nat ->
  m_state w = STATE_DONE /\
  length (m_skews w) = 10%nat /\
  length (m_correlations w) = 10%nat /\
  armed w = 10%nat /\
  (forall f, DoRender shader f w = Ok w) /\
  (forall fs1 fs2 w1,
     fs = fs1 ++ fs2 ->
     run_frames shader fs1 ScopeDeskewWizard_new = Ok w1 ->
     (exists l, m_skews w = m_skews w1 ++ l) /\
     (exists l, m_correlations w = m_correlations w1 ++ l) /\
     (m_state w1 = STATE_ACQUIRE ->
      Z.of_nat (length (m_skews w1)) = m_measureCycle w1)).
Proof.
  intros Hrun Hcycle Herr.
  pose proof (run_frames_invariant shader fs _ _ history_invariant_new Hrun) as Hinv.
  assert (Hdone : m_state w = STATE_DONE).
  { unfold history_invariant in Hinv. unfold nWaveforms in *.
    destruct (m_state w); try reflexivity; lia. }
  unfold history_invariant in Hinv. rewrite Hdone in Hinv.
  destruct Hinv as (Hlen & _ & Hcount & Harm).
  unfold nWaveforms in *.
  split; [exact Hdone |].
  split; [lia |]. split; [lia |]. split; [lia |].
  split; [intros f; apply DoRender_done;
          [exact Hdone | unfold history_covers_cycle; lia] |].
  intros fs1 fs2 w1 Hfs Hrun1.
  subst fs. rewrite run_frames_app, Hrun1 in Hrun. cbn [bind] in Hrun.
  destruct (run_frames_history shader fs2 w1 w Hrun) as (Hs & Hc & He).
  split; [exact Hs |]. split; [exact Hc |].
  intros Hacq.
  pose proof (run_frames_invariant shader fs1 _ _ history_invariant_new Hrun1)
    as Hinv1.
  unfold history_invariant in Hinv1. rewrite Hacq in Hinv1.
  lia.
Qed.

(** *** Progress of a trial *)

Lemma StartCorrelation_no_error (shader : Shader) (f : Frame) (w w' : ScopeDeskewWizard) :
  trial_body f <> None ->
  StartCorrelation shader f w = Ok w' ->
  errors w' = errors w.
Proof.
  unfold trial_body, StartCorrelation.
  destruct (primaryData f) as [[upri | spri | b] |];
    destruct (secondaryData f) as [[usec | ssec | b'] |];
    intros Hbody H; try (exfalso; apply Hbody; reflexivity).
  - bind_ok H. injection H as <-. cbn.
    destruct (g_hasShaderInt64 f && g_hasShaderFloat64 f).
    + injection E as <-. reflexivity.
    + apply run_candidates_best in E. destruct E as [-> _]. reflexivity.
  - bind_ok H. injection H as <-. cbn.
    apply run_candidates_best in E. destruct E as [-> _]. reflexivity.
Qed.

Lemma correlate_step (shader : Shader) (f : Frame) (w : ScopeDeskewWizard) :
  m_state w = STATE_CORRELATE ->
  history_covers_cycle w ->
  exists w',
    DoRender shader f w = Ok w' /\
    m_measureCycle w' = m_measureCycle w + 1 /\
    errors w' = errors w /\
    m_lastTriggerTimestamp w' = m_lastTriggerTimestamp w /\
    m_lastTriggerFs w' = m_lastTriggerFs w /\
    m_state w' =
    (if m_measureCycle w + 1 >=? nWaveforms then STATE_DONE else STATE_ACQUIRE) /\
    m_skews w' = m_skews w /\
    m_correlations w' = m_correlations w.
Proof.
  intros Hst Hcover. rewrite DoRender_main; [| auto | exact Hcover].
  unfold DoMainProcessingFlow. rewrite Hst. cbv zeta.
  cbn [m_measureCycle set_measureCycle].
  destruct (m_measureCycle w + 1 >=? nWaveforms);
    eexists; (split; [reflexivity |]); repeat split.
Qed.

(** From the acquire state, a frame with new readable data of one
    representation followed by any frame completes the trial: the cycle
    counter advances by one, nothing is logged, the new signature is
    stored, and the state is the acquire state again, or the final state
    after the last trial. *)
Lemma trial_completes (shader : Shader) (f1 f2 : Frame) (w : ScopeDeskewWizard)
    (data : WaveformData) :
  m_state w = STATE_ACQUIRE ->
  history_covers_cycle w ->
  primaryData f1 = Some data ->
  fresh_data f1 w ->
  readable f1 ->
  trial_body f1 <> None ->
  exists w',
    run_frames shader [f1; f2] w = Ok w' /\
    m_measureCycle w' = m_measureCycle w + 1 /\
    errors w' = errors w /\
    m_lastTriggerTimestamp w' = m_startTimestamp (waveform_base data) /\
    m_lastTriggerFs w' = m_startFemtoseconds (waveform_base data) /\
    m_state w' =
    (if m_measureCycle w + 1 >=? nWaveforms then STATE_DONE else STATE_ACQUIRE) /\
    history_covers_cycle w'.
Proof.
  intros Hacq Hcover Hdata Hfresh Hread Hbody.
  cbn [run_frames]. rewrite DoRender_main; [| auto | exact Hcover].
  unfold DoMainProcessingFlow. rewrite Hacq, Hdata.
  rewrite (proj2 (signature_test f1 w data Hdata) Hfresh).
  destruct (StartCorrelation_total shader f1
              (set_lastTrigger w (m_startTimestamp (waveform_base data))
                 (m_startFemtoseconds (waveform_base data))) Hread)
    as [w2 Hw2].
  rewrite Hw2. cbn [bind].
  pose proof (StartCorrelation_frame _ _ _ _ Hw2) as (_ & Hcy & Hts & Hfs & _ & _).
  pose proof (StartCorrelation_no_error _ _ _ _ Hbody Hw2) as Herr.
  pose proof (StartCorrelation_history _ _ _ _ Hw2) as Hhist.
  cbn in Hcy, Hts, Hfs, Herr, Hhist.
  assert (Hcover2 : history_covers_cycle (set_state w2 STATE_CORRELATE) /\
                    m_measureCycle w + 1 <= Z.of_nat (length (m_skews w2)) /\
                    m_measureCycle w + 1 <= Z.of_nat (length (m_correlations w2))).
  { destruct Hcover as [Hs Hc]. unfold history_covers_cycle. cbn.
    destruct Hhist as [(He & _) | (_ & (x & Hsk) & Hco)]; [lia |].
    rewrite Hcy, Hsk, Hco, !length_app. cbn [length]. lia. }
  destruct Hcover2 as (Hcover2 & Hs2 & Hc2).
  destruct (correlate_step shader f2 (set_state w2 STATE_CORRELATE) eq_refl Hcover2)
    as (w' & Hstep & Hcy' & Herr' & Hts' & Hfs' & Hst' & Hsk' & Hco').
  cbn in Hcy', Herr', Hts', Hfs', Hst', Hsk', Hco'.
  rewrite Hstep. cbn [bind].
  exists w'. split; [reflexivity |].
  unfold history_covers_cycle.
  rewrite Hcy', Herr', Hts', Hfs', Hst', Hsk', Hco', Hcy, Herr, Hts, Hfs.
  repeat split; assumption.
Qed.

Lemma trial_frames_complete (shader : Shader) (k : Z) (w : ScopeDeskewWizard) :
  m_state w = STATE_ACQUIRE ->
  history_covers_cycle w ->
  m_lastTriggerTimestamp w <> k ->
  exists w',
    run_frames shader (trial_frames k) w = Ok w' /\
    m_measureCycle w' = m_measureCycle w + 1 /\
    errors w' = errors w /\
    m_lastTriggerTimestamp w' = k /\
    m_state w' =
    (if m_measureCycle w + 1 >=? nWaveforms then STATE_DONE else STATE_ACQUIRE) /\
    history_covers_cycle w'.
Proof.
  intros Hacq Hcover Hnew. unfold trial_frames. cbv zeta.
  destruct (trial_completes shader
              (data_frame (Uniform (uniform_single k)) (Uniform (uniform_single k)) false)
              (data_frame (Uniform (uniform_single k)) (Uniform (uniform_single k)) false)
              w (Uniform (uniform_single k)) Hacq Hcover eq_refl)
    as (w' & Hrun & Hcy & Herr & Hts & _ & Hst & Hcover').
  - exists (Uniform (uniform_single k)). split; [reflexivity |].
    cbn. intros Heq. injection Heq as E _. contradiction.
  - right. cbn. lia.
  - discriminate.
  - exists w'. split; [exact Hrun |]. split; [exact Hcy |]. split; [exact Herr |].
    split; [exact Hts |]. split; [exact Hst | exact Hcover'].
Qed.

(** Trials with pairwise different consecutive time stamps, as long as the
    cycle counter stays below the number of trials. *)
Lemma trials_complete (shader : Shader) (ks : list Z) :
  forall w,
    m_state w = STATE_ACQUIRE ->
    history_covers_cycle w ->
    StronglySorted Z.lt (m_lastTriggerTimestamp w :: ks) ->
    m_measureCycle w + Z.of_nat (length ks) <= nWaveforms ->
    exists w',
      run_frames shader (flat_map trial_frames ks) w = Ok w' /\
      m_measureCycle w' = m_measureCycle w + Z.of_nat (length ks) /\
      errors w' = errors w.
Proof.
  induction ks as [| k rest IH]; intros w Hacq Hcover Hsorted Hroom.
  - exists w. split; [reflexivity |]. cbn [length]. split; lia.
  - cbn [flat_map]. rewrite run_frames_app.
    apply StronglySorted_inv in Hsorted. destruct Hsorted as [Hrest Hall].
    assert (Hk : m_lastTriggerTimestamp w <> k).
    { apply Forall_inv in Hall. lia. }
    destruct (trial_frames_complete shader k w Hacq Hcover Hk)
      as (w1 & Hrun1 & Hcy1 & Herr1 & Hts1 & Hst1 & Hcover1).
    rewrite Hrun1. cbn [bind].
    destruct rest as [| k' rest'].
    + exists w1. split; [reflexivity |]. cbn [length]. split; lia.
    + cbn [length] in Hroom.
      assert (Hacq1 : m_state w1 = STATE_ACQUIRE).
      { rewrite Hst1. destruct (Z.geb_spec (m_measureCycle w + 1) nWaveforms);
          [lia | reflexivity]. }
      destruct (IH w1 Hacq1 Hcover1) as (w' & Hrun & Hcy & Herr).
      * rewrite Hts1. exact Hrest.
      * cbn [length]. lia.
      * exists w'. split; [exact Hrun |]. cbn [length] in *. split; lia.
Qed.

Lemma ten_trial_session_runs :
  exists w,
    run_frames reference_shader ten_trial_session ScopeDeskewWizard_new = Ok w /\
    m_measureCycle w = nWaveforms /\
    errors w = 0%nat.
Proof.
  unfold ten_trial_session. rewrite run_frames_app.
  change (run_frames reference_shader (repeat button_frame 5) ScopeDeskewWizard_new)
    with (Ok acquiring).
  cbn [bind].
  destruct (trials_complete reference_shader [1; 2; 3; 4; 5; 6; 7; 8; 9; 10] acquiring)
    as (w & Hrun & Hcy & Herr).
  - reflexivity.
  - unfold history_covers_cycle. cbn. lia.
  - repeat (constructor; [| repeat (constructor; [reflexivity |]); constructor]).
    constructor.
  - cbn. unfold nWaveforms. lia.
  - exists w. split; [exact Hrun |]. split; [exact Hcy | exact Herr].
Qed.

(** Ten trials on the CPU backend, each on a new one-sample waveform. *)
Lemma ten_trials_end_in_done_witness :
  exists w,
    run_frames reference_shader ten_trial_session ScopeDeskewWizard_new = Ok w /\
    m_state w = STATE_DONE /\
    length (m_skews w) = 10%nat /\
    armed w = 10%nat.
Proof.
  destruct ten_trial_session_runs as (w & Hrun & Hcycle & Herr).
  exists w. split; [exact Hrun |].
  destruct (ten_trials_end_in_done reference_shader ten_trial_session w
              Hrun Hcycle Herr) as (Hdone & Hlen & _ & Harm & _).
  split; [exact Hdone |]. split; [exact Hlen | exact Harm].
Defined.

(** ** C5: the running best across trials *)

Lemma run_candidates_none_better (body : Z -> mem Accum) (sched : list Z) :
  forall w w',
    (forall d acc, In d sched -> body d = Ok acc ->
       Fp.gt (normalizedCorrelation acc) (m_bestCorrelation w) = false) ->
    run_candidates body sched w = Ok w' ->
    w' = w.
Proof.
  induction sched as [| d rest IH]; intros w w' Hnone H; cbn [run_candidates] in H.
  - injection H as <-. reflexivity.
  - bind_ok H.
    unfold update_best in H.
    rewrite (Hnone d a (or_introl eq_refl) E) in H.
    apply (IH w w'); [| exact H].
    intros d' acc Hin. apply Hnone. right. exact Hin.
Qed.

Ltac unchanged_best :=
  split; [left; split; reflexivity | left; reflexivity].

Lemma StartCorrelation_cpu (shader : Shader) (f : Frame) (w w' : ScopeDeskewWizard) :
  uses_accelerator f = false ->
  StartCorrelation shader f w = Ok w' ->
  ((m_bestCorrelation w' = m_bestCorrelation w /\
    m_bestCorrelationOffset w' = m_bestCorrelationOffset w) \/
   Fp.gt (m_bestCorrelation w') (m_bestCorrelation w) = true) /\
  (m_correlations w' = m_correlations w \/
   m_correlations w' = m_correlations w ++ [m_bestCorrelation w']).
Proof.
  unfold uses_accelerator, StartCorrelation.
  destruct (primaryData f) as [[upri | spri | b] |];
    destruct (secondaryData f) as [[usec | ssec | b'] |];
    intros Hcpu H;
    try (injection H as <-; unchanged_best).
  - rewrite Hcpu in H. bind_ok H. injection H as <-.
    apply run_candidates_best in E. destruct E as [Hshape Hmono].
    split; [exact Hmono |]. right.
    pose proof (f_equal m_correlations Hshape) as Hc. cbn in Hc.
    cbn. rewrite Hc. reflexivity.
  - bind_ok H. injection H as <-.
    apply run_candidates_best in E. destruct E as [Hshape Hmono].
    split; [exact Hmono |]. right.
    pose proof (f_equal m_correlations Hshape) as Hc. cbn in Hc.
    cbn. rewrite Hc. reflexivity.
Qed.

Lemma DoRender_cpu (shader : Shader) (f : Frame) (w w' : ScopeDeskewWizard) :
  uses_accelerator f = false ->
  DoRender shader f w = Ok w' ->
  ((m_bestCorrelation w' = m_bestCorrelation w /\
    m_bestCorrelationOffset w' = m_bestCorrelationOffset w) \/
   Fp.gt (m_bestCorrelation w') (m_bestCorrelation w) = true) /\
  (m_correlations w' = m_correlations w \/
   m_correlations w' = m_correlations w ++ [m_bestCorrelation w']).
Proof.
  intros Hcpu H. render_cases H Hst;
    try (destruct (button f); injection H as <-; unchanged_best).
  - destruct (button f); injection H as <-;
      [| unchanged_best].
    unfold start_pressed. destruct (primaryData f);
      unchanged_best.
  - unfold DoMainProcessingFlow in H. rewrite Hst in H.
    destruct (primaryData f) as [data |];
      [| injection H as <-; unchanged_best].
    destruct (_ && _);
      [injection H as <-; unchanged_best |].
    bind_ok H. injection H as <-.
    apply (StartCorrelation_cpu shader f _ _ Hcpu) in E. exact E.
  - unfold DoMainProcessingFlow in H. rewrite Hst in H. cbv zeta in H.
    destruct (_ >=? _); injection H as <-; unchanged_best.
  - unfold DoMainProcessingFlow in H. rewrite Hst in H. injection H as <-.
    unchanged_best.
Qed.

Lemma nondecreasing_snoc (x : Fp.double) (l : list Fp.double) :
  nondecreasing l = true ->
  (forall l' c, l = l' ++ [c] -> Fp.le c x = true) ->
  nondecreasing (l ++ [x]) = true.
Proof.
  induction l as [| a l IH]; intros Hl Hlast; [reflexivity |].
  destruct l as [| b l].
  - cbn. rewrite (Hlast [] a eq_refl). reflexivity.
  - cbn [app nondecreasing] in *.
    apply andb_true_iff in Hl. destruct Hl as [Hab Hl].
    rewrite Hab. cbn [andb]. apply IH; [exact Hl |].
    intros l' c Heq. apply (Hlast (a :: l') c). rewrite Heq. reflexivity.
Qed.

Lemma best_invariant_new : best_invariant ScopeDeskewWizard_new.
Proof.
  split; [reflexivity |]. split; [reflexivity |].
  intros l c H. destruct l; discriminate H.
Qed.

Lemma DoRender_best_invariant (shader : Shader) (f : Frame) (w w' : ScopeDeskewWizard) :
  uses_accelerator f = false ->
  best_invariant w -> DoRender shader f w = Ok w' -> best_invariant w'.
Proof.
  intros Hcpu (Hnan & Hsorted & Hlast) H.
  destruct (DoRender_cpu shader f w w' Hcpu H) as [Hmono Hhist].
  assert (Hnan' : Fp.is_nan (m_bestCorrelation w') = false).
  { destruct Hmono as [[-> _] | Hgt]; [exact Hnan |].
    apply (FpFacts.gt_not_nan _ _ Hgt). }
  assert (Hle : Fp.le (m_bestCorrelation w) (m_bestCorrelation w') = true).
  { destruct Hmono as [[-> _] | Hgt];
      [apply FpFacts.le_refl; exact Hnan | apply FpFacts.gt_le; exact Hgt]. }
  split; [exact Hnan' |].
  destruct Hhist as [Hsame | Hpush].
  - rewrite Hsame. split; [exact Hsorted |].
    intros l c Heq. rewrite (Hlast l c Heq).
    destruct Hmono as [[Hb _] | Hgt]; [symmetry; exact Hb |].
    (* the best pair only changes together with a push *)
    exfalso. clear Hle Hnan'.
    assert (Hkeep : m_bestCorrelation w' = m_bestCorrelation w).
    { render_cases H Hst;
        try (destruct (button f); injection H as <-; reflexivity).
      - destruct (button f); injection H as <-; [| reflexivity].
        unfold start_pressed. destruct (primaryData f); reflexivity.
      - unfold DoMainProcessingFlow in H. rewrite Hst in H.
        destruct (primaryData f) as [data |]; [| injection H as <-; reflexivity].
        destruct (_ && _); [injection H as <-; reflexivity |].
        bind_ok H. injection H as <-.
        destruct (StartCorrelation_shape _ _ _ _ E) as [-> | (pri & _ & Hshape)];
          [reflexivity |].
        pose proof (f_equal m_correlations Hshape) as Hc. cbn in Hc, Hsame.
        rewrite Hsame in Hc.
        apply (f_equal (@length Fp.double)) in Hc.
        rewrite length_app in Hc. cbn in Hc. lia.
      - unfold DoMainProcessingFlow in H. rewrite Hst in H. cbv zeta in H.
        destruct (_ >=? _); injection H as <-; reflexivity.
      - unfold DoMainProcessingFlow in H. rewrite Hst in H.
        injection H as <-. reflexivity. }
    rewrite Hkeep, FpFacts.gt_irrefl in Hgt. discriminate Hgt.
  - rewrite Hpush. split.
    + apply nondecreasing_snoc; [exact Hsorted |].
      intros l c Heq. rewrite (Hlast l c Heq). exact Hle.
    + intros l c Heq. apply app_inj_tail in Heq. destruct Heq as [_ <-]. reflexivity.
Qed.

Lemma run_frames_best_invariant (shader : Shader) (fs : list Frame) :
  forall w w',
    (forall f, In f fs -> uses_accelerator f = false) ->
    best_invariant w -> run_frames shader fs w = Ok w' -> best_invariant w'.
Proof.
  induction fs as [| f rest IH]; intros w w' Hcpu Hinv H; cbn [run_frames] in H.
  - injection H as <-. exact Hinv.
  - bind_ok H. apply (IH a w'); [| | exact H].
    + intros f' Hin. apply Hcpu. right. exact Hin.
    + apply (DoRender_best_invariant shader f w a); [| exact Hinv | exact E].
      apply Hcpu. left. reflexivity.
Qed.

(** C5, as the code has it.  The best pair is set to correlation 0 and
    offset 0 by the constructor.  A frame that does not take the
    accelerator path either leaves the pair as it is or replaces the
    correlation by a strictly greater one; no such frame resets it
    between trials.  So in a session none of whose frames takes the
    accelerator path the recorded correlations are non-decreasing. *)
Theorem cpu_best_only_grows (shader : Shader) :
  (m_bestCorrelation ScopeDeskewWizard_new = Fp.zero /\
   m_bestCorrelationOffset ScopeDeskewWizard_new = 0) /\
  (forall f w w',
     uses_accelerator f = false ->
     DoRender shader f w = Ok w' ->
     (m_bestCorrelation w' = m_bestCorrelation w /\
      m_bestCorrelationOffset w' = m_bestCorrelationOffset w) \/
     Fp.gt (m_bestCorrelation w') (m_bestCorrelation w) = true) /\
  (forall fs w,
     (forall f, In f fs -> uses_accelerator f = false) ->
     run_frames shader fs ScopeDeskewWizard_new = Ok w ->
     nondecreasing (m_correlations w) = true).
Proof.
  split; [split; reflexivity |].
  split; [intros f w w' Hcpu H; apply (DoRender_cpu shader f w w' Hcpu H) |].
  intros fs w Hcpu Hrun.
  apply (run_frames_best_invariant shader fs _ _ Hcpu best_invariant_new Hrun).
Qed.

Lemma two_trial_session_runs :
  exists w,
    run_frames reference_shader two_trial_session ScopeDeskewWizard_new = Ok w /\
    m_correlations w = [five_halves; five_halves] /\
    m_skews w = [1; 2].
Proof.
  eexists. split; [vm_compute; reflexivity |]. split; reflexivity.
Qed.

(** On the one-sample waveform at two femtoseconds per sample every
    candidate of the window has a correlation below 2.5, or none. *)
Lemma uniform_slow_is_lower :
  forall d,
    In d (window 30000) ->
    match uniform_candidate (uniform_slow 2) (uniform_slow 2) d with
    | Ok acc =>
      (Fp.gt five_halves (normalizedCorrelation acc)
       || Fp.is_nan (normalizedCorrelation acc))
      && negb (Fp.gt (normalizedCorrelation acc) five_halves)
    | OutOfBounds => false
    end = true.
Proof.
  apply forallb_forall. vm_compute. reflexivity.
Qed.

(** Two trials on the CPU, the second with lower correlations: the
    recorded correlations do not decrease. *)
Lemma cpu_best_only_grows_witness :
  exists w,
    run_frames reference_shader two_trial_session ScopeDeskewWizard_new = Ok w /\
    nondecreasing (m_correlations w) = true.
Proof.
  destruct two_trial_session_runs as (w & Hrun & _).
  exists w. split; [exact Hrun |].
  apply (proj2 (proj2 (cpu_best_only_grows reference_shader))
           two_trial_session w); [| exact Hrun].
  intros f Hin. unfold two_trial_session in Hin.
  cbn in Hin.
  repeat (destruct Hin as [<- | Hin]; [reflexivity |]).
  contradiction.
Defined.

Lemma mixed_backend_session_runs :
  exists w,
    run_frames reference_shader mixed_backend_session ScopeDeskewWizard_new = Ok w /\
    m_correlations w = [five_halves; f64 1; f64 2] /\
    m_skews w = [1; 0; 0].
Proof.
  eexists. split; [vm_compute; reflexivity |]. split; reflexivity.
Qed.

(** C5 as stated fails in two places.

    Its last part: the first of two CPU trials, at one femtosecond per
    sample, finds correlation 2.5 at offset 1 and records skew 1.  In the
    second, at two femtoseconds per sample, every candidate has a lower
    correlation (or none), and the record is skew 2 with correlation 2.5:
    not the skew of the earlier trial.

    Its monotonic part: on a device with both shader capabilities, a
    trial on sparse waveforms uses a CPU backend and records 2.5, a trial
    on uniform waveforms uses the accelerator, which starts from
    correlation 0 again, and records 1, and the next trial on sparse
    waveforms uses a CPU backend and records 2: the records of the
    trials that use a CPU backend, 2.5 and then 2, decrease. *)
Lemma stale_skew_is_rescaled :
  ((forall d,
      In d (window 30000) ->
      exists acc,
        uniform_candidate (uniform_slow 2) (uniform_slow 2) d = Ok acc /\
        (Fp.gt five_halves (normalizedCorrelation acc) = true \/
         Fp.is_nan (normalizedCorrelation acc) = true)) /\
   exists w,
     run_frames reference_shader two_trial_session ScopeDeskewWizard_new = Ok w /\
     m_correlations w = [five_halves; five_halves] /\
     m_skews w = [1; 2] /\
     nth 1 (m_skews w) 0 <> nth 0 (m_skews w) 0) /\
  (uses_accelerator sparse_trial_1 = false /\
   uses_accelerator uniform_trial_2 = true /\
   uses_accelerator sparse_trial_3 = false /\
   exists w,
     run_frames reference_shader mixed_backend_session ScopeDeskewWizard_new = Ok w /\
     m_correlations w = [five_halves; f64 1; f64 2] /\
     Fp.gt (nth 0 (m_correlations w) Fp.zero) (nth 2 (m_correlations w) Fp.zero)
     = true /\
     nondecreasing [nth 0 (m_correlations w) Fp.zero;
                    nth 2 (m_correlations w) Fp.zero] = false).
Proof.
  split; [split |].
  - intros d Hin. pose proof (uniform_slow_is_lower d Hin) as Hlow.
    destruct (uniform_candidate (uniform_slow 2) (uniform_slow 2) d) as [acc |];
      [| discriminate Hlow].
    exists acc. split; [reflexivity |].
    apply andb_true_iff in Hlow. destruct Hlow as [Hlow _].
    apply orb_true_iff in Hlow. exact Hlow.
  - destruct two_trial_session_runs as (w & Hrun & Hc & Hs).
    exists w.
    split; [exact Hrun |]. split; [exact Hc |]. split; [exact Hs |].
    rewrite Hs. cbn. discriminate.
  - split; [reflexivity |]. split; [reflexivity |]. split; [reflexivity |].
    destruct mixed_backend_session_runs as (w & Hrun & Hc & _).
    exists w.
    split; [exact Hrun |]. split; [exact Hc |].
    rewrite Hc. split; vm_compute; reflexivity.
Qed.

(** ** C7: one trial on either backend *)

Lemma two_trial_session_accelerated_runs :
  exists w,
    run_frames reference_shader two_trial_session_accelerated ScopeDeskewWizard_new
    = Ok w /\
    m_correlations w = [five_halves; f64 1] /\
    m_skews w = [1; 0].
Proof.
  eexists. split; [vm_compute; reflexivity |]. split; reflexivity.
Qed.

(** C7 fails on the second of two trials.  The same frames are run on a
    device without and on a device with the two shader capabilities, so
    that the uniform waveforms of both trials go to the CPU path in the
    first session and to the accelerator path in the second.  The first
    trial records correlation 2.5 and skew 1 on either path.  Every
    candidate of the second trial has a correlation below 2.5: the CPU
    path, which still holds the best pair of the first trial, records 2.5
    with skew 2, and the accelerator path, whose scan starts from
    correlation 0 and offset 0, records 1 with skew 0. *)
Theorem second_trial_differs_between_backends :
  two_trial_session_accelerated = map with_capabilities two_trial_session /\
  (forall f, In f two_trial_session ->
     g_hasShaderInt64 f && g_hasShaderFloat64 f = false) /\
  (exists w,
     run_frames reference_shader two_trial_session ScopeDeskewWizard_new = Ok w /\
     m_correlations w = [five_halves; five_halves] /\
     m_skews w = [1; 2]) /\
  (exists w,
     run_frames reference_shader two_trial_session_accelerated ScopeDeskewWizard_new
     = Ok w /\
     m_correlations w = [five_halves; f64 1] /\
     m_skews w = [1; 0]).
Proof.
  split; [reflexivity |]. split.
  - intros f Hin. unfold two_trial_session in Hin. cbn in Hin.
    repeat (destruct Hin as [<- | Hin]; [reflexivity |]).
    contradiction.
  - split; [exact two_trial_session_runs | exact two_trial_session_accelerated_runs].
Qed.

(** * Further properties *)

(** ** More on the order of the floating-point numbers *)

Module FpOrder.

Lemma leb_rank (x y : spec_float) :
  SFleb x y = true <->
  Fp.is_nan x = false /\ Fp.is_nan y = false /\
  (lex_lt (rank x) (rank y) \/ lex_eq (rank x) (rank y)).
Proof.
  unfold SFleb, lex_lt, lex_eq.
  destruct x as [sx | sx | | sx mx ex], y as [sy | sy | | sy my ey];
    try destruct sx; try destruct sy; cbn;
    try (split; [discriminate | intros (_ & _ & Hl); lia]);
    try (split; [intros _; repeat split; lia | reflexivity]);
    try (split; [discriminate | intros (Hn & _); discriminate]);
    try (split; [discriminate | intros (_ & Hn & _); discriminate]).
  - change (Pos.compare_cont Eq mx my) with (Pos.compare mx my).
    destruct (Z.compare_spec ex ey), (Pos.compare_spec mx my); cbn;
      (split; [try discriminate; intros _; repeat split; lia
              | try reflexivity; intros (_ & _ & Hl); lia]).
  - change (Pos.compare_cont Eq mx my) with (Pos.compare mx my).
    destruct (Z.compare_spec ex ey), (Pos.compare_spec mx my); cbn;
      (split; [try discriminate; intros _; repeat split; lia
              | try reflexivity; intros (_ & _ & Hl); lia]).
Qed.

Lemma gt_asym (x y : Fp.double) : Fp.gt x y = true -> Fp.gt y x = false.
Proof.
  intros H. destruct (Fp.gt y x) eqn:E; [| reflexivity].
  pose proof (FpFacts.gt_trans _ _ _ H E) as Hxx.
  rewrite FpFacts.gt_irrefl in Hxx. discriminate Hxx.
Qed.

(** What does not exceed a bound does not exceed a greater bound. *)
Lemma not_gt_mono (a b c : Fp.double) :
  Fp.gt a b = false -> c = b \/ Fp.gt c b = true -> Fp.gt a c = false.
Proof.
  intros Hab [-> | Hcb]; [exact Hab |].
  destruct (Fp.gt a c) eqn:E; [| reflexivity].
  rewrite (FpFacts.gt_trans _ _ _ E Hcb) in Hab. discriminate Hab.
Qed.

(** A number above a bound is not at most a number that is not above it. *)
Lemma gt_not_le (x y b : Fp.double) :
  Fp.gt x b = true -> Fp.gt y b = false -> Fp.le x y = false.
Proof.
  intros Hx Hy. destruct (Fp.le x y) eqn:E; [| reflexivity].
  exfalso.
  unfold Fp.gt in Hx, Hy. unfold Fp.le in E.
  apply FpFacts.ltb_rank in Hx. apply leb_rank in E.
  destruct Hx as (Hb & Hxn & Hbx), E as (_ & Hyn & Hxy).
  assert (Hby : SFltb b y = true).
  { apply FpFacts.ltb_rank. repeat split; try assumption.
    unfold lex_lt, lex_eq in *.
    destruct (rank x) as [[x1 x2] x3], (rank y) as [[y1 y2] y3],
             (rank b) as [[b1 b2] b3].
    cbn in *. lia. }
  rewrite Hby in Hy. discriminate Hy.
Qed.

Lemma le_gt_trans (z b c : Fp.double) :
  Fp.le z b = true -> Fp.gt c b = true -> Fp.le z c = true.
Proof.
  unfold Fp.le, Fp.gt. intros Hzb Hcb.
  apply leb_rank in Hzb. apply FpFacts.ltb_rank in Hcb. apply leb_rank.
  destruct Hzb as (Hz & Hb & Hzb), Hcb as (_ & Hc & Hbc).
  repeat split; try assumption.
  unfold lex_lt, lex_eq in *.
  destruct (rank z) as [[z1 z2] z3], (rank b) as [[b1 b2] b3],
           (rank c) as [[c1 c2] c3].
  cbn in *. lia.
Qed.

Lemma le_not_nan (x y : Fp.double) :
  Fp.le x y = true -> Fp.is_nan x = false /\ Fp.is_nan y = false.
Proof.
  unfold Fp.le. intros H. apply leb_rank in H. tauto.
Qed.

End FpOrder.

(** ** The search window *)

Lemma window_from_spec (n : nat) :
  forall lo,
    length (window_from n lo) = n /\
    (forall d, In d (window_from n lo) <-> lo <= d < lo + Z.of_nat n) /\
    StronglySorted Z.lt (window_from n lo).
Proof.
  induction n as [| n IH]; intros lo; cbn [window_from].
  - split; [reflexivity |]. split; [| constructor].
    intros d. split; [contradiction | lia].
  - destruct (IH (lo + 1)) as (Hlen & Hin & Hsorted).
    split; [cbn [length]; rewrite Hlen; reflexivity |].
    split.
    + intros d. cbn [In]. rewrite Hin. lia.
    + constructor; [exact Hsorted |].
      apply Forall_forall. intros d Hd. apply Hin in Hd. lia.
Qed.

(** ** A CPU trial without a better candidate *)

(** X20.  [StartCorrelation] on a CPU backend, with a wizard that holds a
    best pair none of whose correlation the candidates of this trial
    exceed, leaves the pair as it is and pushes the correlation it held
    together with the offset it held multiplied by the timescale of the
    primary waveform of this trial. *)
Theorem cpu_trial_without_better_candidate (shader : Shader) (f : Frame)
    (w w' : ScopeDeskewWizard) (pri : WaveformData) (body : Z -> mem Accum) :
  uses_accelerator f = false ->
  primaryData f = Some pri ->
  trial_body f = Some body ->
  (forall d acc, In d (omp_schedule f) -> body d = Ok acc ->
     Fp.gt (normalizedCorrelation acc) (m_bestCorrelation w) = false) ->
  StartCorrelation shader f w = Ok w' ->
  m_bestCorrelation w' = m_bestCorrelation w /\
  m_bestCorrelationOffset w' = m_bestCorrelationOffset w /\
  m_correlations w' = m_correlations w ++ [m_bestCorrelation w] /\
  m_skews w' =
  m_skews w ++ [Int64.mul (m_bestCorrelationOffset w)
                  (m_timescale (waveform_base pri))].
Proof.
  intros Hcpu Hpri Hbody Hnone Hstart.
  unfold uses_accelerator in Hcpu. unfold trial_body in Hbody.
  unfold StartCorrelation in Hstart.
  destruct (primaryData f) as [[upri | spri | b] |];
    destruct (secondaryData f) as [[usec | ssec | b'] |];
    try discriminate Hbody;
    injection Hbody as <-; injection Hpri as <-.
  - rewrite Hcpu in Hstart. bind_ok Hstart. injection Hstart as <-.
    apply (run_candidates_none_better _ _ w a Hnone) in E. subst a.
    repeat split.
  - bind_ok Hstart. injection Hstart as <-.
    apply (run_candidates_none_better _ _ w a Hnone) in E. subst a.
    repeat split.
Qed.

(** A trial on the one-sample waveform at two femtoseconds per sample
    that starts from the best pair (2.5, 1) records correlation 2.5 with
    skew [1 * 2]. *)
Lemma cpu_trial_without_better_candidate_witness :
  exists w',
    StartCorrelation reference_shader
      (data_frame (Uniform (uniform_slow 2)) (Uniform (uniform_slow 2)) false)
      (set_best acquiring five_halves 1) = Ok w' /\
    m_correlations w' = [five_halves] /\
    m_skews w' = [2].
Proof.
  destruct (StartCorrelation_total reference_shader
              (data_frame (Uniform (uniform_slow 2)) (Uniform (uniform_slow 2)) false)
              (set_best acquiring five_halves 1)) as [w' Hstart].
  { right. cbn. lia. }
  exists w'. split; [exact Hstart |].
  destruct (cpu_trial_without_better_candidate reference_shader
              (data_frame (Uniform (uniform_slow 2)) (Uniform (uniform_slow 2)) false)
              (set_best acquiring five_halves 1) w'
              (Uniform (uniform_slow 2))
              (uniform_candidate (uniform_slow 2) (uniform_slow 2))
              eq_refl eq_refl eq_refl)
    as (_ & _ & Hc & Hs); [| exact Hstart | split; [exact Hc | exact Hs]].
  intros d acc Hin Hd.
  pose proof (uniform_slow_is_lower d Hin) as Hlow.
  rewrite Hd in Hlow.
  apply andb_true_iff in Hlow. destruct Hlow as [_ Hlow].
  apply negb_true_iff in Hlow. exact Hlow.
Defined.

(** ** The best pair after a CPU run *)

Lemma update_best_head (w : ScopeDeskewWizard) (d : Z) (nc : Fp.double) :
  Fp.gt nc (m_bestCorrelation (update_best w d nc)) = false /\
  (m_bestCorrelation (update_best w d nc) = m_bestCorrelation w \/
   Fp.gt (m_bestCorrelation (update_best w d nc)) (m_bestCorrelation w) = true).
Proof.
  unfold update_best.
  destruct (Fp.gt nc (m_bestCorrelation w)) eqn:G; cbn.
  - split; [apply FpFacts.gt_irrefl | right; exact G].
  - split; [exact G | left; reflexivity].
Qed.

Lemma run_candidates_dominates (body : Z -> mem Accum) (sched : list Z) :
  forall w w',
    run_candidates body sched w = Ok w' ->
    forall d acc,
      In d sched -> body d = Ok acc ->
      Fp.gt (normalizedCorrelation acc) (m_bestCorrelation w') = false.
Proof.
  induction sched as [| d0 rest IH]; intros w w' H d acc Hin Hd;
    cbn [run_candidates] in H; [contradiction |].
  bind_ok H.
  destruct Hin as [<- | Hin].
  - rewrite Hd in E. injection E as <-.
    destruct (update_best_head w d0 (normalizedCorrelation acc)) as [Hhead _].
    apply run_candidates_best in H. destruct H as [_ Hmono].
    apply (FpOrder.not_gt_mono _ _ _ Hhead).
    destruct Hmono as [[Hc _] | Hgt]; [left; exact Hc | right; exact Hgt].
  - apply (IH _ _ H d acc Hin Hd).
Qed.

Lemma run_candidates_attained (body : Z -> mem Accum) (sched : list Z) :
  forall w w',
    run_candidates body sched w = Ok w' ->
    Fp.gt (m_bestCorrelation w') (m_bestCorrelation w) = true ->
    exists pre d post acc,
      sched = pre ++ d :: post /\
      body d = Ok acc /\
      m_bestCorrelation w' = normalizedCorrelation acc /\
      m_bestCorrelationOffset w' = d /\
      (forall e acc', In e pre -> body e = Ok acc' ->
         Fp.le (normalizedCorrelation acc) (normalizedCorrelation acc') = false).
Proof.
  induction sched as [| d0 rest IH]; intros w w' H Hgt; cbn [run_candidates] in H.
  - injection H as <-. rewrite FpFacts.gt_irrefl in Hgt. discriminate Hgt.
  - bind_ok H.
    destruct (update_best_head w d0 (normalizedCorrelation a)) as [Hhead Hstep].
    pose proof (run_candidates_best _ _ _ _ H) as [_ Hmono].
    destruct Hmono as [[Hc Ho] | Hgt1].
    + (* the rest of the schedule changed nothing: the head was taken *)
      unfold update_best in Hc, Ho.
      destruct (Fp.gt (normalizedCorrelation a) (m_bestCorrelation w)) eqn:G.
      * exists [], d0, rest, a. cbn in Hc, Ho.
        repeat split; try assumption. intros e acc' Hin. contradiction.
      * rewrite Hc, FpFacts.gt_irrefl in Hgt. discriminate Hgt.
    + destruct (IH _ _ H Hgt1) as (pre & d & post & acc & Hs & Hd & Hc & Ho & Hpre).
      exists (d0 :: pre), d, post, acc.
      split; [rewrite Hs; reflexivity |].
      repeat split; try assumption.
      intros e acc' [Heq | Hin] He.
      * subst e. rewrite He in E. injection E as <-.
        apply (FpOrder.gt_not_le _ _ (m_bestCorrelation
                 (update_best w d0 (normalizedCorrelation acc')))).
        -- rewrite <- Hc. exact Hgt1.
        -- exact Hhead.
      * apply (Hpre e acc' Hin He).
Qed.

(** X2.  After a run of either CPU backend, no candidate of the schedule has a
    normalized correlation greater than the best correlation, and the
    best pair is either the one the run started from or the correlation
    and offset of a candidate of the schedule that no candidate before it
    in the schedule equals or exceeds: among equal maxima, the first to
    reach the critical section is kept. *)
Theorem cpu_run_selects_first_maximum (sched : list Z) (w w' : ScopeDeskewWizard) :
  (forall ppri psec,
     DoProcessWaveformUniformUnequalRate sched w ppri psec = Ok w' ->
     selects_first_maximum (uniform_candidate ppri psec) sched w w') /\
  (forall ppri psec,
     DoProcessWaveformSparse sched w ppri psec = Ok w' ->
     selects_first_maximum (sparse_candidate ppri psec) sched w w').
Proof.
  assert (Hrun : forall body, run_candidates body sched w = Ok w' ->
                              selects_first_maximum body sched w w').
  { intros body H. unfold selects_first_maximum.
    split; [apply (run_candidates_dominates body sched w w' H) |].
    destruct (run_candidates_best body sched w w' H) as [_ [Hsame | Hgt]];
      [left; exact Hsame | right].
    split; [exact Hgt | apply (run_candidates_attained body sched w w' H Hgt)]. }
  split; intros ppri psec H; apply Hrun; exact H.
Qed.

(** Candidates 0, 1 and 2 of a two-sample waveform against itself score
    1.5, 2.5 and 2: offset 1 is kept. *)
Lemma cpu_run_selects_first_maximum_witness :
  selects_first_maximum (uniform_candidate (uniform_pair 1) (uniform_pair 1))
    [0; 1; 2] ScopeDeskewWizard_new (set_best ScopeDeskewWizard_new five_halves 1).
Proof.
  apply (proj1 (cpu_run_selects_first_maximum [0; 1; 2] ScopeDeskewWizard_new
                  (set_best ScopeDeskewWizard_new five_halves 1))
           (uniform_pair 1) (uniform_pair 1)).
  vm_compute. reflexivity.
Defined.

(** ** The schedule of the parallel loop *)

Lemma run_candidates_total_iff (body : Z -> mem Accum) (sched : list Z) :
  forall w,
    (exists w', run_candidates body sched w = Ok w') <->
    (forall d, In d sched -> exists acc, body d = Ok acc).
Proof.
  induction sched as [| d rest IH]; intros w; cbn [run_candidates].
  - split; [intros _ d Hd; contradiction | intros _; exists w; reflexivity].
  - split.
    + intros (w' & H) e [<- | Hin].
      * destruct (body d) as [acc |]; [exists acc; reflexivity | discriminate H].
      * bind_ok H. apply (proj1 (IH _) (ex_intro _ w' H) e Hin).
    + intros Hall. destruct (Hall d (or_introl eq_refl)) as [acc ->]. cbn [bind].
      apply IH. intros e Hin. apply Hall. right. exact Hin.
Qed.

Lemma run_candidates_permutation (body : Z -> mem Accum) (s1 s2 : list Z)
    (w w1 : ScopeDeskewWizard) :
  Permutation s1 s2 ->
  run_candidates body s1 w = Ok w1 ->
  exists w2,
    run_candidates body s2 w = Ok w2 /\
    Fp.gt (m_bestCorrelation w1) (m_bestCorrelation w2) = false /\
    Fp.gt (m_bestCorrelation w2) (m_bestCorrelation w1) = false.
Proof.
  intros Hperm H1.
  assert (Hhalf : forall sa sb wa wb,
            (forall d, In d sa -> In d sb) ->
            run_candidates body sa w = Ok wa ->
            run_candidates body sb w = Ok wb ->
            Fp.gt (m_bestCorrelation wa) (m_bestCorrelation wb) = false).
  { intros sa sb wa wb Hsub Ha Hb.
    pose proof (run_candidates_best _ _ _ _ Ha) as [_ Hmono_a].
    pose proof (run_candidates_best _ _ _ _ Hb) as [_ Hmono_b].
    destruct Hmono_a as [[Hc _] | Hgt].
    - rewrite Hc. destruct Hmono_b as [[Hcb _] | Hgtb].
      + rewrite Hcb. apply FpFacts.gt_irrefl.
      + apply FpOrder.gt_asym. exact Hgtb.
    - destruct (run_candidates_attained _ _ _ _ Ha Hgt)
        as (pre & d & post & acc & Hs & Hd & Hc & _).
      rewrite Hc.
      apply (run_candidates_dominates _ _ _ _ Hb d acc); [| exact Hd].
      apply Hsub. rewrite Hs. apply in_or_app. right. left. reflexivity. }
  destruct (proj2 (run_candidates_total_iff body s2 w)) as [w2 H2].
  { intros d Hd.
    apply (proj1 (run_candidates_total_iff body s1 w) (ex_intro _ w1 H1)).
    apply (Permutation_in d (Permutation_sym Hperm) Hd). }
  exists w2. split; [exact H2 |]. split.
  - apply (Hhalf s1 s2 w1 w2); [| exact H1 | exact H2].
    intros d. apply Permutation_in. exact Hperm.
  - apply (Hhalf s2 s1 w2 w1); [| exact H2 | exact H1].
    intros d. apply Permutation_in. apply Permutation_sym. exact Hperm.
Qed.

(** X3.  The order in which the iterations of the parallel loop reach the
    critical section does not change whether the run reads out of bounds,
    nor the best correlation it ends with: for two orders of the same
    candidates, neither result is greater than the other.  (The best
    offset can differ between candidates of equal correlation.) *)
Theorem best_correlation_is_schedule_independent (s1 s2 : list Z)
    (w : ScopeDeskewWizard) :
  Permutation s1 s2 ->
  (forall ppri psec w1,
     DoProcessWaveformUniformUnequalRate s1 w ppri psec = Ok w1 ->
     exists w2,
       DoProcessWaveformUniformUnequalRate s2 w ppri psec = Ok w2 /\
       Fp.gt (m_bestCorrelation w1) (m_bestCorrelation w2) = false /\
       Fp.gt (m_bestCorrelation w2) (m_bestCorrelation w1) = false) /\
  (forall ppri psec w1,
     DoProcessWaveformSparse s1 w ppri psec = Ok w1 ->
     exists w2,
       DoProcessWaveformSparse s2 w ppri psec = Ok w2 /\
       Fp.gt (m_bestCorrelation w1) (m_bestCorrelation w2) = false /\
       Fp.gt (m_bestCorrelation w2) (m_bestCorrelation w1) = false).
Proof.
  intros Hperm. split; intros ppri psec w1 H1.
  - apply (run_candidates_permutation _ s1 s2 w w1 Hperm H1).
  - apply (run_candidates_permutation _ s1 s2 w w1 Hperm H1).
Qed.

(** The candidates 0, 1, 2 in the order 2, 0, 1. *)
Lemma best_correlation_is_schedule_independent_witness :
  exists w2,
    DoProcessWaveformUniformUnequalRate [2; 0; 1] ScopeDeskewWizard_new
      (uniform_pair 1) (uniform_pair 1) = Ok w2 /\
    Fp.gt five_halves (m_bestCorrelation w2) = false /\
    Fp.gt (m_bestCorrelation w2) five_halves = false.
Proof.
  apply (proj1 (best_correlation_is_schedule_independent [0; 1; 2] [2; 0; 1]
                  ScopeDeskewWizard_new
                  (Permutation_sym (Permutation_cons_append [0; 1] 2)))
           (uniform_pair 1) (uniform_pair 1)
           (set_best ScopeDeskewWizard_new five_halves 1)).
  vm_compute. reflexivity.
Defined.

(** ** The host-side scan of the accelerator output *)

Lemma scan_corrOut_mono (corrOut : Z -> Fp.double) (m : Z) (n : nat) :
  forall i best,
    scan_corrOut corrOut m n i best = best \/
    Fp.gt (fst (scan_corrOut corrOut m n i best)) (fst best) = true.
Proof.
  induction n as [| n IH]; intros i best; cbn [scan_corrOut]; [left; reflexivity |].
  destruct (Fp.gt (corrOut i) (fst best)) eqn:G.
  - right. destruct (IH (i + 1) (corrOut i, Int64.sub i m)) as [-> | Hgt];
      [exact G | apply (FpFacts.gt_trans _ _ _ Hgt G)].
  - apply IH.
Qed.

Lemma scan_corrOut_dominates (corrOut : Z -> Fp.double) (m : Z) (n : nat) :
  forall i best j,
    i <= j < i + Z.of_nat n ->
    Fp.gt (corrOut j) (fst (scan_corrOut corrOut m n i best)) = false.
Proof.
  induction n as [| n IH]; intros i best j Hj; cbn [scan_corrOut]; [lia |].
  destruct (Z.eq_dec j i) as [-> | Hne]; [| apply IH; lia].
  set (best1 := if Fp.gt (corrOut i) (fst best)
                then (corrOut i, Int64.sub i m) else best).
  assert (Hhead : Fp.gt (corrOut i) (fst best1) = false).
  { unfold best1. destruct (Fp.gt (corrOut i) (fst best)) eqn:G;
      [apply FpFacts.gt_irrefl | exact G]. }
  apply (FpOrder.not_gt_mono _ _ _ Hhead).
  destruct (scan_corrOut_mono corrOut m n (i + 1) best1) as [-> | Hgt];
    [left; reflexivity | right; exact Hgt].
Qed.

Lemma scan_corrOut_attained (corrOut : Z -> Fp.double) (m : Z) (n : nat) :
  forall i best,
    Fp.gt (fst (scan_corrOut corrOut m n i best)) (fst best) = true ->
    exists j,
      i <= j < i + Z.of_nat n /\
      scan_corrOut corrOut m n i best = (corrOut j, Int64.sub j m) /\
      (forall j', i <= j' < j -> Fp.le (corrOut j) (corrOut j') = false).
Proof.
  induction n as [| n IH]; intros i best Hgt; cbn [scan_corrOut] in *.
  - rewrite FpFacts.gt_irrefl in Hgt. discriminate Hgt.
  - set (best1 := if Fp.gt (corrOut i) (fst best)
                  then (corrOut i, Int64.sub i m) else best) in *.
    assert (Hhead : Fp.gt (corrOut i) (fst best1) = false).
    { unfold best1. destruct (Fp.gt (corrOut i) (fst best)) eqn:G;
        [apply FpFacts.gt_irrefl | exact G]. }
    destruct (scan_corrOut_mono corrOut m n (i + 1) best1) as [Hsame | Hgt1].
    + rewrite Hsame in *. unfold best1 in *.
      destruct (Fp.gt (corrOut i) (fst best)) eqn:G.
      * exists i. split; [lia |]. split; [reflexivity |]. intros j' Hj'. lia.
      * rewrite FpFacts.gt_irrefl in Hgt. discriminate Hgt.
    + destruct (IH (i + 1) best1 Hgt1) as (j & Hj & Hr & Hfirst).
      exists j. split; [lia |]. split; [exact Hr |].
      intros j' Hj'.
      destruct (Z.eq_dec j' i) as [-> | Hne]; [| apply Hfirst; lia].
      apply (FpOrder.gt_not_le _ _ (fst best1)); [| exact Hhead].
      rewrite Hr in Hgt1. exact Hgt1.
Qed.

(** X4.  The accelerator path, for a window of at most [2^62] samples.  It
    touches no member but the best pair, and that pair does not depend on
    the pair found by earlier trials.  The best correlation is a number
    that is not below zero and that no entry of [corrOut] exceeds.  It is
    zero with offset 0 when no entry is greater than zero; otherwise it is
    the entry [corrOut[j]] of an index [j] in [0, 2 m) with offset
    [j - m], and no entry before [j] equals or exceeds it. *)
Theorem accelerator_scan_selects_first_maximum (shader : Shader)
    (w : ScopeDeskewWizard) (ppri psec : UniformAnalogWaveform.t) :
  let m := m_maxSkewSamples w in
  let corrOut :=
    shader (UniformUnequalCrossCorrelateArgs_new ppri psec (Int64.neg m))
      (UniformAnalogWaveform.m_samples ppri) (UniformAnalogWaveform.m_samples psec) in
  let w' := DoProcessWaveformUniformUnequalRateVulkan shader w ppri psec in
  0 <= m < 4611686018427387904 ->
  w' = set_best w (m_bestCorrelation w') (m_bestCorrelationOffset w') /\
  (forall w0, m_maxSkewSamples w0 = m ->
     m_bestCorrelation (DoProcessWaveformUniformUnequalRateVulkan shader w0 ppri psec)
     = m_bestCorrelation w' /\
     m_bestCorrelationOffset (DoProcessWaveformUniformUnequalRateVulkan shader w0 ppri psec)
     = m_bestCorrelationOffset w') /\
  Fp.le Fp.zero (m_bestCorrelation w') = true /\
  (forall j, 0 <= j < 2 * m -> Fp.gt (corrOut j) (m_bestCorrelation w') = false) /\
  ((m_bestCorrelation w' = Fp.zero /\ m_bestCorrelationOffset w' = 0 /\
    forall j, 0 <= j < 2 * m -> Fp.gt (corrOut j) Fp.zero = false) \/
   (Fp.gt (m_bestCorrelation w') Fp.zero = true /\
    exists j,
      0 <= j < 2 * m /\
      m_bestCorrelation w' = corrOut j /\
      m_bestCorrelationOffset w' = j - m /\
      (forall j', 0 <= j' < j -> Fp.le (corrOut j) (corrOut j') = false))).
Proof.
  intros m corrOut w' Hm.
  assert (Hcount : Z.of_nat (Z.to_nat (Int64.mul 2 m)) = 2 * m).
  { unfold Int64.mul. rewrite Int64Facts.wrap_id;
      [lia | unfold Int64.in_range, Int64.half; lia]. }
  unfold w', DoProcessWaveformUniformUnequalRateVulkan. cbv zeta.
  fold m. fold corrOut.
  set (r := scan_corrOut corrOut m (Z.to_nat (Int64.mul 2 m)) 0 (Fp.zero, 0)).
  cbn [m_bestCorrelation m_bestCorrelationOffset set_best].
  assert (Hdom : forall j, 0 <= j < 2 * m -> Fp.gt (corrOut j) (fst r) = false).
  { intros j Hj. apply scan_corrOut_dominates. lia. }
  split; [reflexivity |].
  split; [intros w0 Hw0; unfold DoProcessWaveformUniformUnequalRateVulkan;
          rewrite Hw0; split; reflexivity |].
  destruct (scan_corrOut_mono corrOut m (Z.to_nat (Int64.mul 2 m)) 0 (Fp.zero, 0))
    as [Hsame | Hgt]; fold r in Hsame || fold r in Hgt.
  - rewrite Hsame in *. cbn [fst snd] in *.
    split; [reflexivity |]. split; [exact Hdom |].
    left. repeat split. exact Hdom.
  - cbn [fst] in Hgt.
    split; [apply FpFacts.gt_le; exact Hgt |]. split; [exact Hdom |].
    right. split; [exact Hgt |].
    destruct (scan_corrOut_attained corrOut m (Z.to_nat (Int64.mul 2 m)) 0
                (Fp.zero, 0) Hgt) as (j & Hj & Hr & Hfirst).
    fold r in Hr. exists j. rewrite Hr. cbn [fst snd].
    split; [lia |]. split; [reflexivity |].
    split; [| intros j' Hj'; apply Hfirst; lia].
    unfold Int64.sub. apply Int64Facts.wrap_id.
    unfold Int64.in_range, Int64.half. lia.
Qed.

(** The wizard as constructed, window 30000, with the reduction of the
    CPU path as the shader. *)
Lemma accelerator_scan_selects_first_maximum_witness :
  Fp.le Fp.zero
    (m_bestCorrelation
       (DoProcessWaveformUniformUnequalRateVulkan reference_shader acquiring
          (uniform_pair 1) (uniform_pair 1))) = true.
Proof.
  destruct (accelerator_scan_selects_first_maximum reference_shader
              acquiring (uniform_pair 1) (uniform_pair 1))
    as (_ & _ & Hle & _); [cbn; lia | exact Hle].
Defined.

(** ** The counters of the loop over the primary samples *)

Lemma accumulate_matches_processed (pri sec : list Fp.float) (ms : list (Z * Z)) :
  forall acc acc',
    accumulate_matches pri sec ms acc = Ok acc' ->
    samplesProcessed acc' = samplesProcessed acc + Z.of_nat (length ms).
Proof.
  induction ms as [| [i k] rest IH]; intros acc acc' H; cbn [accumulate_matches] in H.
  - injection H as <-. cbn. lia.
  - bind_ok H. bind_ok H. apply IH in H. cbn [accumulate samplesProcessed] in H.
    cbn [length]. lia.
Qed.

Lemma uniform_matches_length (ppri psec : UniformAnalogWaveform.t) (deltaFs : Z)
    (n : nat) :
  forall i c, (length (uniform_matches ppri psec deltaFs n i c) <= n)%nat.
Proof.
  induction n as [| n IH]; intros i c; cbn [uniform_matches length]; [lia |].
  cbv zeta.
  destruct (uniform_target ppri deltaFs i <? 0); [specialize (IH (i + 1) c); lia |].
  destruct (uniform_advance _ _ _ _) as [k |]; cbn [length]; [| lia].
  specialize (IH (i + 1) k). lia.
Qed.

Lemma sparse_samples_bounded (ppri psec : SparseAnalogWaveform.t) (deltaFs : Z)
    (n : nat) :
  forall i acc acc',
    sparse_samples ppri psec deltaFs n i acc = Ok acc' ->
    samplesProcessed acc' <= samplesProcessed acc + Z.of_nat n.
Proof.
  induction n as [| n IH]; intros i acc acc' H; cbn [sparse_samples] in H.
  - injection H as <-. lia.
  - bind_ok H.
    destruct (a <? 0); [apply IH in H; lia |].
    bind_ok H. destruct a0 as [k |]; [| injection H as <-; lia].
    bind_ok H. bind_ok H. apply IH in H. cbn [accumulate samplesProcessed] in H. lia.
Qed.

(** X5.  When a candidate returns on either CPU path, [samplesProcessed] is the
    number of sample pairs that were multiplied: on the uniform path the
    length of the list of matches, and on both paths between 0 and the
    number of primary samples.  So the normalized correlation is the sum
    over the matched pairs divided by their number. *)
Theorem samplesProcessed_counts_matches (d : Z) :
  (forall ppri psec acc,
     uniform_candidate ppri psec d = Ok acc ->
     samplesProcessed acc = Z.of_nat (length (uniform_candidate_matches ppri psec d)) /\
     0 <= samplesProcessed acc <= UniformAnalogWaveform.size ppri) /\
  (forall ppri psec acc,
     sparse_candidate ppri psec d = Ok acc ->
     0 <= samplesProcessed acc <= SparseAnalogWaveform.size ppri).
Proof.
  split; intros ppri psec acc H.
  - unfold uniform_candidate in H. rewrite uniform_samples_matches in H.
    apply accumulate_matches_processed in H. cbn [accum0 samplesProcessed isecondary] in H.
    unfold uniform_candidate_matches.
    pose proof (uniform_matches_length ppri psec (uniform_deltaFs ppri psec d)
                  (Z.to_nat (UniformAnalogWaveform.size ppri)) 0 0) as Hlen.
    set (ms := uniform_matches ppri psec (uniform_deltaFs ppri psec d)
                 (Z.to_nat (UniformAnalogWaveform.size ppri)) 0 0) in *.
    assert (Hsize : 0 <= UniformAnalogWaveform.size ppri)
      by (unfold UniformAnalogWaveform.size; lia).
    clearbody ms. split; lia.
  - unfold sparse_candidate in H.
    pose proof (sparse_samples_processed _ _ _ _ _ _ _ H) as [Hlo _].
    apply sparse_samples_bounded in H. cbn [accum0 samplesProcessed] in *.
    unfold SparseAnalogWaveform.size in *. lia.
Qed.

Lemma samplesProcessed_counts_matches_witness :
  exists acc,
    uniform_candidate (uniform_pair 1) (uniform_pair 1) 2 = Ok acc /\
    samplesProcessed acc = 1 /\
    uniform_candidate_matches (uniform_pair 1) (uniform_pair 1) 2 = [(0, 1)].
Proof.
  eexists. split; [reflexivity |].
  split; [| reflexivity].
  rewrite (proj1 (proj1 (samplesProcessed_counts_matches 2)
                    (uniform_pair 1) (uniform_pair 1) _ eq_refl)).
  reflexivity.
Defined.

(** ** The cursor of the sparse path *)

Lemma sparse_advance_search (psec : SparseAnalogWaveform.t) (target : Z) (n : nat) :
  forall c,
    Z.to_nat (SparseAnalogWaveform.size psec - c) = n ->
    (forall k,
       sparse_advance psec target c = Ok (Some k) ->
       c <= k /\
       (exists e, sparse_end psec k = Ok e /\ target <= e) /\
       (forall j, c <= j < k -> exists e, sparse_end psec j = Ok e /\ e < target)) /\
    (sparse_advance psec target c = Ok None ->
     forall j, c <= j < Z.max (c + 1) (SparseAnalogWaveform.size psec) ->
               exists e, sparse_end psec j = Ok e /\ e < target).
Proof.
  induction n as [n IH] using lt_wf_ind. intros c Hn.
  rewrite sparse_advance_equation_1.
  destruct (sparse_end psec c) as [e |] eqn:He; cbn;
    [| split; [intros k H | intros H]; discriminate H].
  destruct (Z_lt_dec e target) as [Hlt | Hge]; cbn.
  - destruct (Z_ge_dec (c + 1) (SparseAnalogWaveform.size psec)) as [Hend | Hmore]; cbn.
    + split; [intros k H; discriminate H |].
      intros _ j Hj. assert (j = c) as -> by lia. exists e. split; assumption.
    + destruct (IH (Z.to_nat (SparseAnalogWaveform.size psec - (c + 1)))
                  ltac:(lia) (c + 1) eq_refl) as [Hsome Hnone].
      split.
      * intros k H. destruct (Hsome k H) as (Hck & Hend & Hskip).
        split; [lia |]. split; [exact Hend |].
        intros j Hj. destruct (Z.eq_dec j c) as [-> | Hne];
          [exists e; split; assumption | apply Hskip; lia].
      * intros H j Hj. destruct (Z.eq_dec j c) as [-> | Hne];
          [exists e; split; assumption | apply (Hnone H); lia].
  - split; [| intros H; discriminate H].
    intros k H. injection H as <-.
    split; [lia |]. split; [exists e; split; [exact He | lia] |].
    intros j Hj. lia.
Qed.

(** X6.  The [while] loop of the sparse path is a forward search: when it
    leaves the cursor at [k], sample [k] is the first secondary sample from
    the old cursor on whose end time is not before the target, every
    sample it passed ends before the target, and it never moves the cursor
    back; when it runs off the end, every secondary sample from the old
    cursor on ends before the target. *)
Theorem sparse_cursor_is_first_not_before (psec : SparseAnalogWaveform.t)
    (target c : Z) :
  (forall k,
     sparse_advance psec target c = Ok (Some k) ->
     c <= k /\
     (exists e, sparse_end psec k = Ok e /\ target <= e) /\
     (forall j, c <= j < k -> exists e, sparse_end psec j = Ok e /\ e < target)) /\
  (sparse_advance psec target c = Ok None ->
   c < SparseAnalogWaveform.size psec ->
   forall j, c <= j < SparseAnalogWaveform.size psec ->
             exists e, sparse_end psec j = Ok e /\ e < target).
Proof.
  destruct (sparse_advance_search psec target _ c eq_refl) as [Hsome Hnone].
  split; [exact Hsome |].
  intros H Hc j Hj. apply (Hnone H). lia.
Qed.

(** Two samples ending at 1 and 2: target 2 is found at sample 1, target
    3 runs off the end. *)
Lemma sparse_cursor_is_first_not_before_witness :
  sparse_advance (sparse_pair 0 1) 2 0 = Ok (Some 1) /\
  (exists e, sparse_end (sparse_pair 0 1) 0 = Ok e /\ e < 2) /\
  sparse_advance (sparse_pair 0 1) 3 0 = Ok None /\
  (exists e, sparse_end (sparse_pair 0 1) 1 = Ok e /\ e < 3).
Proof.
  destruct (sparse_cursor_is_first_not_before (sparse_pair 0 1) 2 0) as [Hsome _].
  destruct (sparse_cursor_is_first_not_before (sparse_pair 0 1) 3 0) as [_ Hnone].
  split; [reflexivity |].
  split; [apply (proj2 (proj2 (Hsome 1 eq_refl)) 0); lia |].
  split; [reflexivity |].
  apply (Hnone eq_refl); [vm_compute; reflexivity | vm_compute; split; congruence].
Defined.

(** ** C2: the time shift of a candidate *)













(** ** Every state that a session reaches *)

Lemma DoRender_maxSkewSamples (shader : Shader) (f : Frame) (w w' : ScopeDeskewWizard) :
  DoRender shader f w = Ok w' -> m_maxSkewSamples w' = m_maxSkewSamples w.
Proof.
  intros H. render_cases H Hst;
    try (destruct (button f); injection H as <-; reflexivity).
  - destruct (button f); injection H as <-; [| reflexivity].
    unfold start_pressed. destruct (primaryData f); reflexivity.
  - unfold DoMainProcessingFlow in H. rewrite Hst in H.
    destruct (primaryData f) as [data |]; [| injection H as <-; reflexivity].
    destruct (_ && _); [injection H as <-; reflexivity |].
    bind_ok H. injection H as <-.
    apply StartCorrelation_frame in E. destruct E as (_ & _ & _ & _ & Hm & _).
    exact Hm.
  - unfold DoMainProcessingFlow in H. rewrite Hst in H. cbv zeta in H.
    destruct (_ >=? _); injection H as <-; reflexivity.
  - unfold DoMainProcessingFlow in H. rewrite Hst in H. injection H as <-.
    reflexivity.
Qed.

Lemma run_frames_maxSkewSamples (shader : Shader) (fs : list Frame) :
  forall w w',
    run_frames shader fs w = Ok w' -> m_maxSkewSamples w' = m_maxSkewSamples w.
Proof.
  induction fs as [| f rest IH]; intros w w' H; cbn [run_frames] in H.
  - injection H as <-. reflexivity.
  - bind_ok H. rewrite (IH _ _ H). apply (DoRender_maxSkewSamples _ _ _ _ E).
Qed.

(** X7.  In every state that a session reaches from the construction of the
    wizard: the cycle counter is between 0 and the ten trials; the trigger
    group was armed at most ten times, and not at all on the welcome
    pages, where the history is empty too; the two history vectors have
    one length; the search window is still 30000 samples; and in the
    final state the history holds ten records less one for every logged
    representation mismatch. *)
Theorem session_keeps_its_counters (shader : Shader) (fs : list Frame)
    (w : ScopeDeskewWizard) :
  run_frames shader fs ScopeDeskewWizard_new = Ok w ->
  0 <= m_measureCycle w <= nWaveforms /\
  (armed w <= 10)%nat /\
  length (m_correlations w) = length (m_skews w) /\
  m_maxSkewSamples w = 30000 /\
  (page_number (m_state w) < 5 ->
   armed w = 0%nat /\ m_skews w = [] /\ m_correlations w = [] /\ errors w = 0%nat)%nat /\
  (m_state w = STATE_DONE ->
   Z.of_nat (length (m_skews w)) = nWaveforms - Z.of_nat (errors w)).
Proof.
  intros Hrun.
  pose proof (run_frames_invariant shader fs _ _ history_invariant_new Hrun) as Hinv.
  pose proof (run_frames_maxSkewSamples shader fs _ _ Hrun) as Hm.
  unfold history_invariant, nWaveforms in *.
  destruct Hinv as (Hlen & Hst).
  destruct (m_state w) eqn:Hs; cbn [page_number];
    repeat match goal with
           | |- _ /\ _ => split
           | |- _ -> _ => intros ?
           end;
    try discriminate; try exact Hm; try lia;
    try (destruct Hst as (_ & Hsk & _); rewrite Hsk in Hlen;
         destruct (m_correlations w); [reflexivity | discriminate Hlen]);
    try (destruct Hst as (_ & Hsk & _); exact Hsk).
Qed.

(** The ten-trial session ends with ten records. *)
Lemma session_keeps_its_counters_witness :
  exists w,
    run_frames reference_shader ten_trial_session ScopeDeskewWizard_new = Ok w /\
    0 <= m_measureCycle w <= nWaveforms /\
    m_maxSkewSamples w = 30000.
Proof.
  destruct ten_trial_session_runs as (w & Hrun & _).
  exists w. split; [exact Hrun |].
  destruct (session_keeps_its_counters reference_shader ten_trial_session w Hrun)
    as (Hc & _ & _ & Hm & _).
  split; [exact Hc | exact Hm].
Defined.

(** ** One trial *)

Lemma correlate_step_result (shader : Shader) (f : Frame) (w : ScopeDeskewWizard) :
  m_state w = STATE_CORRELATE ->
  history_covers_cycle w ->
  DoRender shader f w =
  Ok (if m_measureCycle w + 1 >=? nWaveforms
      then set_state (set_measureCycle w (m_measureCycle w + 1)) STATE_DONE
      else set_state (Arm (set_measureCycle w (m_measureCycle w + 1))) STATE_ACQUIRE).
Proof.
  intros Hst Hcover. rewrite DoRender_main; [| auto | exact Hcover].
  unfold DoMainProcessingFlow. rewrite Hst. cbv zeta.
  cbn [m_measureCycle set_measureCycle].
  destruct (_ >=? _); reflexivity.
Qed.

Lemma acquire_step (shader : Shader) (f : Frame) (w : ScopeDeskewWizard)
    (data : WaveformData) :
  m_state w = STATE_ACQUIRE ->
  history_covers_cycle w ->
  primaryData f = Some data ->
  (m_lastTriggerTimestamp w, m_lastTriggerFs w) <>
  (m_startTimestamp (waveform_base data), m_startFemtoseconds (waveform_base data)) ->
  DoRender shader f w =
  (w2 <- StartCorrelation shader f
           (set_lastTrigger w (m_startTimestamp (waveform_base data))
              (m_startFemtoseconds (waveform_base data))) ;;
   Ok (set_state w2 STATE_CORRELATE)).
Proof.
  intros Hst Hcover Hdata Hfresh. rewrite DoRender_main; [| auto | exact Hcover].
  unfold DoMainProcessingFlow. rewrite Hst, Hdata.
  destruct (_ && _) eqn:Hsame; [| reflexivity].
  apply andb_true_iff in Hsame. destruct Hsame as [H1 H2].
  apply Z.eqb_eq in H1, H2. exfalso. apply Hfresh. congruence.
Qed.

Lemma acquire_stale (shader : Shader) (f : Frame) (w : ScopeDeskewWizard)
    (data : WaveformData) :
  m_state w = STATE_ACQUIRE ->
  history_covers_cycle w ->
  primaryData f = Some data ->
  m_lastTriggerTimestamp w = m_startTimestamp (waveform_base data) ->
  m_lastTriggerFs w = m_startFemtoseconds (waveform_base data) ->
  DoRender shader f w = Ok w.
Proof.
  intros Hst Hcover Hdata H1 H2. rewrite DoRender_main; [| auto | exact Hcover].
  unfold DoMainProcessingFlow.
  rewrite Hst, Hdata, H1, H2, !Z.eqb_refl. reflexivity.
Qed.

Lemma StartCorrelation_record (shader : Shader) (f : Frame) (w w' : ScopeDeskewWizard)
    (data : WaveformData) :
  primaryData f = Some data ->
  trial_body f <> None ->
  StartCorrelation shader f w = Ok w' ->
  m_skews w' =
  m_skews w ++ [Int64.mul (m_bestCorrelationOffset w') (m_timescale (waveform_base data))] /\
  m_correlations w' = m_correlations w ++ [m_bestCorrelation w'] /\
  errors w' = errors w.
Proof.
  intros Hdata Hbody H.
  destruct (StartCorrelation_shape shader f w w' H) as [Herr | (pri & Hpri & Hw')].
  - pose proof (StartCorrelation_no_error shader f w w' Hbody H) as He.
    rewrite Herr in He. cbn in He. lia.
  - rewrite Hdata in Hpri. injection Hpri as <-.
    split; [rewrite Hw' at 1; reflexivity |].
    split; [rewrite Hw' at 1; reflexivity |].
    rewrite Hw'. reflexivity.
Qed.

(** X9.  A trial takes two frames.  When the wizard waits for data, its
    history has a record for every completed trial (so that the table is
    drawn in bounds), and the
    primary stream shows a waveform with a new signature, beside a
    secondary waveform of the same representation whose reads stay in
    bounds, this frame and the next one, whatever it carries, advance the
    cycle counter by one and append exactly one record: the best
    correlation, and the best offset times the primary timescale with
    64-bit wrap-around.  The trigger is armed again unless this was the
    tenth trial.  Afterwards a frame that carries a waveform with the
    same signature changes nothing. *)
Theorem fresh_pair_is_recorded_once (shader : Shader) (f1 f2 : Frame)
    (w : ScopeDeskewWizard) (data : WaveformData) :
  m_state w = STATE_ACQUIRE ->
  history_covers_cycle w ->
  primaryData f1 = Some data ->
  fresh_data f1 w ->
  readable f1 ->
  trial_body f1 <> None ->
  exists w',
    run_frames shader [f1; f2] w = Ok w' /\
    m_measureCycle w' = m_measureCycle w + 1 /\
    m_skews w' =
    m_skews w ++
    [Int64.mul (m_bestCorrelationOffset w') (m_timescale (waveform_base data))] /\
    m_correlations w' = m_correlations w ++ [m_bestCorrelation w'] /\
    errors w' = errors w /\
    (if m_measureCycle w + 1 >=? nWaveforms
     then m_state w' = STATE_DONE /\ armed w' = armed w
     else m_state w' = STATE_ACQUIRE /\ armed w' = S (armed w)) /\
    forall f3 data3,
      primaryData f3 = Some data3 ->
      same_signature data data3 ->
      DoRender shader f3 w' = Ok w'.
Proof.
  intros Hst Hcover Hdata (data' & Hdata' & Hfresh) Hread Hbody.
  rewrite Hdata in Hdata'. injection Hdata' as <-.
  set (w1 := set_lastTrigger w (m_startTimestamp (waveform_base data))
               (m_startFemtoseconds (waveform_base data))).
  destruct (StartCorrelation_total shader f1 w1 Hread) as (w2 & Hstart).
  destruct (StartCorrelation_frame shader f1 w1 w2 Hstart)
    as (_ & Hc2 & Hts2 & Hfs2 & _ & Ha2).
  destruct (StartCorrelation_record shader f1 w1 w2 data Hdata Hbody Hstart)
    as (Hsk2 & Hco2 & He2).
  set (w3 := set_state w2 STATE_CORRELATE).
  assert (Hlen2 : m_measureCycle w + 1 <= Z.of_nat (length (m_skews w2)) /\
                  m_measureCycle w + 1 <= Z.of_nat (length (m_correlations w2))).
  { destruct Hcover as [Hs Hc]. rewrite Hsk2, Hco2, !length_app. cbn. lia. }
  assert (Hcover3 : history_covers_cycle w3).
  { unfold history_covers_cycle. cbn. rewrite Hc2. cbn. lia. }
  assert (Hrender1 : DoRender shader f1 w = Ok w3).
  { rewrite (acquire_step shader f1 w data Hst Hcover Hdata Hfresh).
    fold w1. rewrite Hstart. reflexivity. }
  pose proof (correlate_step_result shader f2 w3 eq_refl Hcover3) as Hrender2.
  cbn [run_frames]. rewrite Hrender1. cbn [bind]. rewrite Hrender2. cbn [bind].
  eexists. split; [reflexivity |].
  cbn [m_measureCycle w3 set_state] in *.
  rewrite Hc2. cbn [w1 set_lastTrigger m_measureCycle].
  destruct (m_measureCycle w + 1 >=? nWaveforms) eqn:Hlast;
    cbn [m_measureCycle m_skews m_correlations errors armed m_state
         m_bestCorrelation m_bestCorrelationOffset
         set_state set_measureCycle Arm];
    (split; [reflexivity |]);
    (split; [exact Hsk2 |]);
    (split; [exact Hco2 |]);
    (split; [exact He2 |]);
    (split; [split; [reflexivity | subst w3; cbn; rewrite Ha2; reflexivity] |]);
    intros f3 data3 Hdata3 [Hsame1 Hsame2].
  - apply DoRender_done; [reflexivity |].
    unfold history_covers_cycle. subst w3. cbn. lia.
  - apply (acquire_stale shader f3 _ data3); [reflexivity | | exact Hdata3 | |];
      subst w3; cbn.
    + unfold history_covers_cycle. cbn. lia.
    + rewrite Hts2, <- Hsame1. reflexivity.
    + rewrite Hfs2, <- Hsame2. reflexivity.
Qed.

(** The first trial of the two-sample waveform. *)
Lemma fresh_pair_is_recorded_once_witness :
  let f := data_frame (Uniform (uniform_single 1)) (Uniform (uniform_single 1)) false in
  exists w',
    run_frames reference_shader [f; f] acquiring = Ok w' /\
    m_measureCycle w' = 1.
Proof.
  cbv zeta.
  destruct (fresh_pair_is_recorded_once reference_shader
              (data_frame (Uniform (uniform_single 1)) (Uniform (uniform_single 1)) false)
              (data_frame (Uniform (uniform_single 1)) (Uniform (uniform_single 1)) false)
              acquiring (Uniform (uniform_single 1)))
    as (w' & Hrun & Hc & _).
  - reflexivity.
  - unfold history_covers_cycle. cbn. lia.
  - reflexivity.
  - eexists. split; [reflexivity |]. cbn. congruence.
  - cbn. right. lia.
  - cbn. discriminate.
  - exists w'. split; [exact Hrun | exact Hc].
Defined.

(** X10.  The waveform that is on the primary stream when [Start] is pressed
    is never correlated: its signature is stored, so the frames that
    follow with the same waveform leave the wizard as [Start] left it,
    armed once and with the history unchanged.  The history has a record
    for every completed trial, as it has when [Start] is reached from
    the construction of the wizard, so that the table of those frames
    is drawn in bounds. *)
Theorem waveform_present_at_start_is_skipped (shader : Shader) (f : Frame)
    (fs : list Frame) (w : ScopeDeskewWizard) (data : WaveformData) :
  m_state w = STATE_WELCOME_5 ->
  history_covers_cycle w ->
  button f = true ->
  primaryData f = Some data ->
  Forall (fun f' => exists data', primaryData f' = Some data' /\
                                  same_signature data data') fs ->
  run_frames shader (f :: fs) w = Ok (start_pressed f w) /\
  m_state (start_pressed f w) = STATE_ACQUIRE /\
  armed (start_pressed f w) = S (armed w) /\
  m_skews (start_pressed f w) = m_skews w /\
  m_correlations (start_pressed f w) = m_correlations w.
Proof.
  intros Hst Hcover Hbutton Hdata Hall.
  assert (Hfirst : DoRender shader f w = Ok (start_pressed f w)).
  { unfold DoRender. rewrite Hst, Hbutton. reflexivity. }
  assert (Hcover' : history_covers_cycle (start_pressed f w)).
  { unfold start_pressed. rewrite Hdata. exact Hcover. }
  assert (Hshape : m_state (start_pressed f w) = STATE_ACQUIRE /\
                   m_lastTriggerTimestamp (start_pressed f w)
                   = m_startTimestamp (waveform_base data) /\
                   m_lastTriggerFs (start_pressed f w)
                   = m_startFemtoseconds (waveform_base data)).
  { unfold start_pressed. rewrite Hdata. repeat split. }
  destruct Hshape as (Hacq & Hts & Hfs).
  split.
  - cbn [run_frames]. rewrite Hfirst. cbn [bind].
    induction Hall as [| f' rest (data' & Hdata' & Hs1 & Hs2) _ IH];
      cbn [run_frames]; [reflexivity |].
    rewrite (acquire_stale shader f' _ data' Hacq Hcover' Hdata'); [exact IH | |];
      congruence.
  - unfold start_pressed. rewrite Hdata. repeat split.
Qed.

Lemma waveform_present_at_start_is_skipped_witness :
  let f := pressed_data_frame in
  let f' := data_frame (Uniform (uniform_pair 1)) (Uniform (uniform_pair 1)) false in
  let w := set_state ScopeDeskewWizard_new STATE_WELCOME_5 in
  run_frames reference_shader [f; f'; f'] w = Ok (start_pressed f w).
Proof.
  cbv zeta.
  refine (proj1 (waveform_present_at_start_is_skipped reference_shader
                   pressed_data_frame
                   (repeat (data_frame (Uniform (uniform_pair 1))
                              (Uniform (uniform_pair 1)) false) 2)
                   (set_state ScopeDeskewWizard_new STATE_WELCOME_5)
                   (Uniform (uniform_pair 1)) eq_refl _ eq_refl eq_refl _)).
  - unfold history_covers_cycle. cbn. lia.
  - repeat constructor; eexists; (split; [reflexivity | split; reflexivity]).
Defined.

(** X11.  A trial is lost when the two streams do not hold waveforms of one
    representation at the moment new primary data shows up, which
    includes a secondary stream with no waveform yet: the error is
    logged without a sample being read, the cycle counter still advances
    with the next frame, and neither the history nor the best pair
    changes.  This is from a state whose history has a record for every
    completed trial, so that the table of the two frames is drawn in
    bounds. *)
Theorem unusable_pair_consumes_a_trial (shader : Shader) (f1 f2 : Frame)
    (w : ScopeDeskewWizard) :
  m_state w = STATE_ACQUIRE ->
  history_covers_cycle w ->
  fresh_data f1 w ->
  trial_body f1 = None ->
  exists w',
    run_frames shader [f1; f2] w = Ok w' /\
    m_measureCycle w' = m_measureCycle w + 1 /\
    errors w' = S (errors w) /\
    m_skews w' = m_skews w /\
    m_correlations w' = m_correlations w /\
    m_bestCorrelation w' = m_bestCorrelation w /\
    m_bestCorrelationOffset w' = m_bestCorrelationOffset w /\
    m_state w' =
    (if m_measureCycle w + 1 >=? nWaveforms then STATE_DONE else STATE_ACQUIRE).
Proof.
  intros Hst Hcover (data & Hdata & Hfresh) Hbody.
  set (w1 := set_lastTrigger w (m_startTimestamp (waveform_base data))
               (m_startFemtoseconds (waveform_base data))).
  assert (Hstart : StartCorrelation shader f1 w1 = Ok (LogError w1)).
  { unfold StartCorrelation. unfold trial_body in Hbody.
    destruct (primaryData f1) as [[upri | spri |] |];
      destruct (secondaryData f1) as [[usec | ssec |] |];
      try discriminate Hbody; reflexivity. }
  set (w3 := set_state (LogError w1) STATE_CORRELATE).
  assert (Hrender1 : DoRender shader f1 w = Ok w3).
  { rewrite (acquire_step shader f1 w data Hst Hcover Hdata Hfresh).
    fold w1. rewrite Hstart. reflexivity. }
  pose proof (correlate_step_result shader f2 w3 eq_refl Hcover) as Hrender2.
  cbn [run_frames]. rewrite Hrender1. cbn [bind]. rewrite Hrender2. cbn [bind].
  eexists. split; [reflexivity |].
  cbn [m_measureCycle w3 w1 set_state LogError set_lastTrigger].
  destruct (m_measureCycle w + 1 >=? nWaveforms); repeat split.
Qed.

(** New primary data and no secondary waveform. *)
Lemma unusable_pair_consumes_a_trial_witness :
  exists w',
    run_frames reference_shader [primary_only_frame; primary_only_frame] acquiring
    = Ok w' /\
    m_measureCycle w' = 1 /\ errors w' = 1%nat /\ m_skews w' = [].
Proof.
  destruct (unusable_pair_consumes_a_trial reference_shader
              primary_only_frame primary_only_frame acquiring)
    as (w' & Hrun & Hc & He & Hsk & _).
  - reflexivity.
  - unfold history_covers_cycle. cbn. lia.
  - eexists. split; [reflexivity |]. cbn. congruence.
  - reflexivity.
  - exists w'. split; [exact Hrun |]. split; [exact Hc |].
    split; [exact He | exact Hsk].
Defined.

(** ** The history over a session *)

Lemma DoRender_appends (shader : Shader) (f : Frame) (w w' : ScopeDeskewWizard) :
  DoRender shader f w = Ok w' ->
  exists ls lc,
    m_skews w' = m_skews w ++ ls /\
    m_correlations w' = m_correlations w ++ lc /\
    length ls = length lc /\
    (length ls + (errors w' - errors w) <= 1)%nat /\
    (errors w <= errors w')%nat /\
    (armed w <= armed w')%nat.
Proof.
  intros H.
  assert (Hsame : forall v : ScopeDeskewWizard,
            m_skews v = m_skews w -> m_correlations v = m_correlations w ->
            errors v = errors w -> (armed w <= armed v)%nat ->
            exists ls lc,
              m_skews v = m_skews w ++ ls /\
              m_correlations v = m_correlations w ++ lc /\
              length ls = length lc /\
              (length ls + (errors v - errors w) <= 1)%nat /\
              (errors w <= errors v)%nat /\ (armed w <= armed v)%nat).
  { intros v Hs Hc He Ha. exists [], []. rewrite !app_nil_r, He.
    repeat split; try assumption; cbn; lia. }
  render_cases H Hst;
    try (destruct (button f); injection H as <-; apply Hsame; cbn;
         first [reflexivity | lia]).
  - destruct (button f); injection H as <-; [| apply Hsame; cbn; first [reflexivity | lia]].
    unfold start_pressed.
    destruct (primaryData f); apply Hsame; cbn; first [reflexivity | lia].
  - unfold DoMainProcessingFlow in H. rewrite Hst in H.
    destruct (primaryData f) as [data |];
      [| injection H as <-; apply Hsame; cbn; first [reflexivity | lia]].
    destruct (_ && _);
      [injection H as <-; apply Hsame; cbn; first [reflexivity | lia] |].
    bind_ok H. injection H as <-.
    destruct (StartCorrelation_frame shader f _ _ E) as (_ & _ & _ & _ & _ & Ha).
    destruct (StartCorrelation_history shader f _ _ E)
      as [(He & Hs & Hc) | (He & (s & Hs) & Hc)];
      cbn [m_skews m_correlations errors armed set_state set_lastTrigger] in *.
    + exists [], []. rewrite !app_nil_r, He, Hs, Hc, Ha.
      repeat split; cbn [length]; lia.
    + exists [s], [m_bestCorrelation a]. rewrite He, Hs, Hc, Ha.
      repeat split; cbn [length]; lia.
  - unfold DoMainProcessingFlow in H. rewrite Hst in H. cbv zeta in H.
    destruct (_ >=? _); injection H as <-; apply Hsame; cbn;
      first [reflexivity | lia].
  - unfold DoMainProcessingFlow in H. rewrite Hst in H. injection H as <-.
    apply Hsame; cbn; first [reflexivity | lia].
Qed.

(** X12.  Between any two points of a session the history only grows at its
    end: the records that were there stay where they are, the two vectors
    grow by the same number of records, and each frame in between
    accounts for at most one event, a new record or a logged mismatch.
    Neither the count of logged mismatches nor the count of armings goes
    down. *)
Theorem history_is_append_only (shader : Shader) (fs : list Frame) :
  forall w w',
    run_frames shader fs w = Ok w' ->
    exists ls lc,
      m_skews w' = m_skews w ++ ls /\
      m_correlations w' = m_correlations w ++ lc /\
      length ls = length lc /\
      (length ls + (errors w' - errors w) <= length fs)%nat /\
      (errors w <= errors w')%nat /\
      (armed w <= armed w')%nat.
Proof.
  induction fs as [| f rest IH]; intros w w' H; cbn [run_frames] in H.
  - injection H as <-. exists [], []. rewrite !app_nil_r.
    repeat split; cbn; lia.
  - bind_ok H.
    destruct (DoRender_appends shader f w a E)
      as (ls1 & lc1 & Hs1 & Hc1 & Hl1 & Hn1 & He1 & Ha1).
    destruct (IH a w' H) as (ls2 & lc2 & Hs2 & Hc2 & Hl2 & Hn2 & He2 & Ha2).
    exists (ls1 ++ ls2), (lc1 ++ lc2).
    rewrite Hs2, Hs1, Hc2, Hc1, <- !app_assoc, !length_app.
    repeat split; cbn [length]; lia.
Qed.

(** The first trial after [Start]. *)
Lemma history_is_append_only_witness :
  exists w' ls,
    run_frames reference_shader (trial_frames 1) acquiring = Ok w' /\
    m_skews w' = m_skews acquiring ++ ls /\
    (length ls <= 2)%nat.
Proof.
  destruct (trial_frames_complete reference_shader 1 acquiring eq_refl)
    as (w' & Hrun & _); [unfold history_covers_cycle; cbn; lia | cbn; lia |].
  destruct (history_is_append_only reference_shader (trial_frames 1) acquiring w' Hrun)
    as (ls & lc & Hs & _ & _ & Hn & _).
  exists w', ls. split; [exact Hrun |]. split; [exact Hs |].
  cbn [length trial_frames] in Hn. lia.
Defined.

(** ** The progress table *)

Lemma reached_main_flow (shader : Shader) (fs : list Frame) (w : ScopeDeskewWizard) :
  run_frames shader fs ScopeDeskewWizard_new = Ok w ->
  page_number (m_state w) = 5%nat ->
  length (m_correlations w) = length (m_skews w) /\
  0 <= m_measureCycle w <= nWaveforms /\
  (m_state w = STATE_DONE <-> m_measureCycle w = nWaveforms) /\
  Z.of_nat (length (m_skews w) + errors w) =
  m_measureCycle w + match m_state w with STATE_CORRELATE => 1 | _ => 0 end.
Proof.
  intros Hrun Hpage.
  pose proof (run_frames_invariant shader fs _ _ history_invariant_new Hrun) as Hinv.
  unfold history_invariant, nWaveforms in *.
  destruct Hinv as (Hlen & Hst).
  split; [exact Hlen |].
  destruct (m_state w) eqn:Hs; cbn [page_number] in Hpage; try discriminate Hpage;
    (split; [lia |]); (split; [| lia]);
    split; intros Hx; try discriminate Hx; try reflexivity; lia.
Qed.

(** X13.  As long as no mismatch was logged, the table is drawn without a read
    out of bounds and has one row for each of the ten trials: first a row
    for every completed trial, which shows the recorded skew and
    correlation of that trial in the order of recording, then the row of
    the trial in progress, if there is one, then the pending rows.  When
    the table is not visible nothing is read. *)
Theorem table_shows_the_history (shader : Shader) (fs : list Frame)
    (w : ScopeDeskewWizard) :
  run_frames shader fs ScopeDeskewWizard_new = Ok w ->
  page_number (m_state w) = 5%nat ->
  errors w = 0%nat ->
  draw_table false w = Ok [] /\
  exists rows,
    draw_table true w = Ok rows /\
    Z.of_nat (length rows) = nWaveforms /\
    (forall k, (k < Z.to_nat (m_measureCycle w))%nat ->
       exists s c,
         nth_error (m_skews w) k = Some s /\
         nth_error (m_correlations w) k = Some c /\
         nth_error rows k = Some (done_row s c)) /\
    (forall k, (Z.to_nat (m_measureCycle w) < k < 10)%nat ->
       nth_error rows k = Some pending_row) /\
    (m_state w <> STATE_DONE ->
       exists row,
         current_rows w = [row] /\
         nth_error rows (Z.to_nat (m_measureCycle w)) = Some row).
Proof.
  intros Hrun Hpage Herr.
  destruct (reached_main_flow shader fs w Hrun Hpage) as (Hlen & Hc & Hdone & Hcount).
  split; [reflexivity |].
  unfold nWaveforms in *.
  destruct (past_rows_in_bounds w (Z.to_nat (m_measureCycle w)) 0 ltac:(lia))
    as (past & Hpast & Hlpast & Hrows).
  { destruct (m_state w); lia. }
  { exact Hlen. }
  assert (Hcur : length (current_rows w)
                 = if Z.eq_dec (m_measureCycle w) 10 then 0%nat else 1%nat).
  { unfold current_rows.
    destruct (Z.eq_dec (m_measureCycle w) 10) as [Heq | Hne].
    - rewrite (proj2 Hdone Heq). reflexivity.
    - destruct (m_state w) eqn:Hs; try reflexivity.
      exfalso. apply Hne, Hdone. reflexivity. }
  unfold draw_table. rewrite Hpast. cbn [bind].
  eexists. split; [reflexivity |].
  split.
  { rewrite !length_app, Hlpast, Hcur. unfold future_rows, nWaveforms.
    rewrite repeat_length. destruct (Z.eq_dec (m_measureCycle w) 10); lia. }
  split.
  { intros k Hk. destruct (Hrows k Hk) as (s & c & Hs & Hco & Hrow).
    exists s, c. cbn in Hs, Hco.
    split; [exact Hs |]. split; [exact Hco |].
    rewrite nth_error_app1 by lia. exact Hrow. }
  split.
  { intros k Hk.
    rewrite nth_error_app2 by lia. rewrite Hlpast.
    rewrite nth_error_app2 by (rewrite Hcur; destruct (Z.eq_dec _ _); lia).
    rewrite Hcur. destruct (Z.eq_dec (m_measureCycle w) 10) as [Heq | Hne]; [lia |].
    unfold future_rows, nWaveforms.
    apply nth_error_repeat. lia. }
  intros Hnot.
  assert (Hone : exists row, current_rows w = [row]).
  { unfold current_rows. destruct (m_state w); try (eexists; reflexivity).
    exfalso. apply Hnot. reflexivity. }
  destruct Hone as (row & Hrow). exists row. split; [exact Hrow |].
  rewrite nth_error_app2 by lia. rewrite Hlpast, Nat.sub_diag, Hrow. reflexivity.
Qed.

(** After the first of the ten trials the table has ten rows. *)
Lemma table_shows_the_history_witness :
  exists w rows,
    run_frames reference_shader (repeat button_frame 5 ++ trial_frames 1)
      ScopeDeskewWizard_new = Ok w /\
    draw_table true w = Ok rows /\
    Z.of_nat (length rows) = nWaveforms.
Proof.
  destruct (trial_frames_complete reference_shader 1 acquiring eq_refl)
    as (w & Hrun & Hcy & Herr & _ & Hst & _); [unfold history_covers_cycle; cbn; lia | cbn; lia |].
  assert (Hall : run_frames reference_shader (repeat button_frame 5 ++ trial_frames 1)
                   ScopeDeskewWizard_new = Ok w).
  { rewrite run_frames_app.
    change (run_frames reference_shader (repeat button_frame 5) ScopeDeskewWizard_new)
      with (Ok acquiring).
    exact Hrun. }
  destruct (table_shows_the_history reference_shader _ w Hall)
    as (_ & rows & Hrows & Hlen & _).
  - rewrite Hst. reflexivity.
  - rewrite Herr. reflexivity.
  - exists w, rows. split; [exact Hall |]. split; [exact Hrows | exact Hlen].
Defined.

(** X14.  The table loop runs up to the cycle counter, which also counts the
    trials that logged a mismatch and appended no record.  So the table
    is drawn with a read out of bounds exactly when the history is
    shorter than the cycle counter, and this is the case in every frame
    after a trial that logged a mismatch was completed: in the acquire
    and final states as soon as one mismatch was logged.  [DoRender]
    then reads out of bounds in every frame in which the table is
    visible. *)
Theorem table_reads_past_the_history_after_a_mismatch (shader : Shader)
    (fs : list Frame) (w : ScopeDeskewWizard) :
  run_frames shader fs ScopeDeskewWizard_new = Ok w ->
  page_number (m_state w) = 5%nat ->
  (draw_table true w = OutOfBounds <->
   Z.of_nat (length (m_skews w)) < m_measureCycle w) /\
  (m_state w <> STATE_CORRELATE ->
   (draw_table true w = OutOfBounds <-> (0 < errors w)%nat)) /\
  (draw_table true w = OutOfBounds ->
   forall f, DoMainProcessingFlow_drawn true shader f w = OutOfBounds) /\
  (draw_table true w = OutOfBounds ->
   forall f, table_visible f = true -> DoRender shader f w = OutOfBounds).
Proof.
  intros Hrun Hpage.
  destruct (reached_main_flow shader fs w Hrun Hpage) as (Hlen & Hc & Hdone & Hcount).
  assert (Hiff : draw_table true w = OutOfBounds <->
                 Z.of_nat (length (m_skews w)) < m_measureCycle w).
  { split.
    - intros Hoob.
      destruct (Z.ltb_spec (Z.of_nat (length (m_skews w))) (m_measureCycle w))
        as [Hlt | Hge]; [exact Hlt |].
      destruct (past_rows_in_bounds w (Z.to_nat (m_measureCycle w)) 0
                  ltac:(lia) ltac:(lia) Hlen) as (past & Hpast & _).
      unfold draw_table in Hoob. rewrite Hpast in Hoob. discriminate Hoob.
    - intros Hlt. unfold draw_table.
      rewrite (past_rows_out_of_bounds w (Z.to_nat (m_measureCycle w)) 0) by lia.
      reflexivity. }
  split; [exact Hiff |].
  split.
  - intros Hnot. rewrite Hiff.
    destruct (m_state w) eqn:Hs; try lia. exfalso. apply Hnot. reflexivity.
  - split.
    + intros Hoob f. unfold DoMainProcessingFlow_drawn. rewrite Hoob. reflexivity.
    + intros Hoob f Hvisible. unfold DoRender, DoMainProcessingFlow_drawn.
      rewrite Hvisible, Hoob.
      destruct (m_state w); cbn [page_number] in Hpage; try discriminate Hpage;
        reflexivity.
Qed.

(** A trial without a secondary waveform, then the next frame. *)
Lemma table_reads_past_the_history_after_a_mismatch_witness :
  exists w,
    run_frames reference_shader lost_trial_session ScopeDeskewWizard_new = Ok w /\
    m_state w = STATE_ACQUIRE /\
    draw_table true w = OutOfBounds.
Proof.
  eexists. split; [vm_compute; reflexivity |]. split; [reflexivity |].
  refine (proj2 (proj1 (table_reads_past_the_history_after_a_mismatch
                          reference_shader lost_trial_session _ _ _)) _).
  - vm_compute. reflexivity.
  - reflexivity.
  - cbn. lia.
Defined.

(** ** The channel selector *)

Lemma descriptor_eqb_eq (a b : Z * Z) : descriptor_eqb a b = true <-> a = b.
Proof.
  unfold descriptor_eqb. destruct a as [a1 a2], b as [b1 b2]. cbn [fst snd].
  rewrite andb_true_iff, !Z.eqb_eq. split.
  - intros [-> ->]. reflexivity.
  - intros H. injection H as -> ->. split; reflexivity.
Qed.

Lemma descriptor_lt_trans (a b c : Z * Z) :
  descriptor_lt a b -> descriptor_lt b c -> descriptor_lt a c.
Proof. unfold descriptor_lt. lia. Qed.

Lemma sorted_descriptors_NoDup (l : list (Z * Z)) :
  StronglySorted descriptor_lt l -> NoDup l.
Proof.
  induction 1 as [| a l Hsorted IH Hall]; constructor; [| exact IH].
  intros Hin. rewrite Forall_forall in Hall. specialize (Hall a Hin).
  unfold descriptor_lt in Hall. lia.
Qed.

Lemma sorted_descriptors_app (l1 l2 : list (Z * Z)) :
  StronglySorted descriptor_lt l1 ->
  StronglySorted descriptor_lt l2 ->
  (forall a b, In a l1 -> In b l2 -> descriptor_lt a b) ->
  StronglySorted descriptor_lt (l1 ++ l2).
Proof.
  intros H1 H2 Hcross. induction H1 as [| a l Hsorted IH Hall]; cbn [app].
  - exact H2.
  - constructor.
    + apply IH. intros x y Hx Hy. apply Hcross; [right; exact Hx | exact Hy].
    + apply Forall_app. split; [exact Hall |].
      apply Forall_forall. intros y Hy. apply Hcross; [left; reflexivity | exact Hy].
Qed.

Lemma preselected_push (stream : StreamDescriptor) (st : Selector) (s : Z * Z) :
  preselected stream st ->
  ~ In s (streams st) ->
  preselected stream
    {| streams := streams st ++ [s];
       sel := match stream with
              | Some cur =>
                if descriptor_eqb cur s then Z.of_nat (length (streams st)) else sel st
              | None => sel st
              end |}.
Proof.
  unfold preselected. destruct stream as [cur |]; [| intros H _; exact H].
  intros [Hin Hout] Hnew. cbn [streams sel].
  destruct (descriptor_eqb cur s) eqn:Heq.
  - apply descriptor_eqb_eq in Heq. subst s. split.
    + intros _. unfold read. destruct (Z.ltb_spec (Z.of_nat (length (streams st))) 0); [lia |].
      rewrite Nat2Z.id, nth_error_app2, Nat.sub_diag by lia. reflexivity.
    + intros Hno. exfalso. apply Hno. apply in_or_app. right. left. reflexivity.
  - assert (Hne : cur <> s).
    { intros ->. rewrite (proj2 (descriptor_eqb_eq s s) eq_refl) in Heq. discriminate Heq. }
    split.
    + intros Hcur. apply in_app_or in Hcur. destruct Hcur as [Hcur | [Hcur | []]];
        [| congruence].
      specialize (Hin Hcur). unfold read in *.
      destruct (sel st <? 0); [discriminate Hin |].
      destruct (nth_error (streams st) (Z.to_nat (sel st))) eqn:E; [| discriminate Hin].
      rewrite nth_error_app1; [rewrite E; exact Hin |].
      apply nth_error_Some. congruence.
    + intros Hno. apply Hout. intros Hcur. apply Hno. apply in_or_app. left. exact Hcur.
Qed.

Lemma offer_streams_spec (stream : StreamDescriptor) (chan : Z) (types : list StreamType) :
  forall j st,
    0 <= j ->
    exists added,
      streams (offer_streams stream chan types j st) = streams st ++ added /\
      (forall s, In s added <->
         exists k t, fst s = chan /\ snd s = j + Z.of_nat k /\
                     nth_error types k = Some t /\ usable_as_trigger t = true) /\
      StronglySorted descriptor_lt added /\
      (preselected stream st ->
       (forall s, In s (streams st) -> fst s < chan \/ (fst s = chan /\ snd s < j)) ->
       preselected stream (offer_streams stream chan types j st)).
Proof.
  induction types as [| t rest IH]; intros j st Hj; cbn [offer_streams].
  - exists []. rewrite app_nil_r. split; [reflexivity |].
    split; [| split; [constructor | intros H _; exact H]].
    intros s. split; [intros [] |]. intros (k & t & _ & _ & Hnth & _).
    destruct k; discriminate Hnth.
  - destruct (usable_as_trigger t) eqn:Ht.
    + cbv zeta.
      set (st' := {| streams := streams st ++ [(chan, j)];
                     sel := match stream with
                            | Some cur =>
                              if descriptor_eqb cur (chan, j)
                              then Z.of_nat (length (streams st)) else sel st
                            | None => sel st
                            end |}).
      destruct (IH (j + 1) st' ltac:(lia)) as (added & Hadd & Hin & Hsorted & Hsel).
      exists ((chan, j) :: added). rewrite Hadd. cbn [streams st'].
      rewrite <- app_assoc. split; [reflexivity |]. split; [| split].
      * intros s. split.
        -- intros [<- | Hs].
           ++ exists 0%nat, t. cbn. repeat split; [lia | exact Ht].
           ++ apply Hin in Hs. destruct Hs as (k & t' & Hc & Hsnd & Hnth & Hu).
              exists (S k), t'. repeat split; [exact Hc | lia | exact Hnth | exact Hu].
        -- intros (k & t' & Hc & Hsnd & Hnth & Hu). destruct k as [| k].
           ++ left. destruct s as [c' j']. cbn in *. f_equal; lia.
           ++ right. apply Hin. exists k, t'.
              repeat split; [exact Hc | lia | exact Hnth | exact Hu].
      * constructor; [exact Hsorted |].
        apply Forall_forall. intros s Hs. apply Hin in Hs.
        destruct Hs as (k & _ & Hc & Hsnd & _). unfold descriptor_lt. cbn [fst snd]. lia.
      * intros Hpre Hbefore. apply Hsel.
        -- apply preselected_push; [exact Hpre |].
           intros Hold. specialize (Hbefore _ Hold). cbn [fst snd] in Hbefore. lia.
        -- intros s Hs. cbn [streams st'] in Hs. apply in_app_or in Hs.
           destruct Hs as [Hs | [<- | []]].
           ++ specialize (Hbefore _ Hs). lia.
           ++ cbn [fst snd]. lia.
    + destruct (IH (j + 1) st ltac:(lia)) as (added & Hadd & Hin & Hsorted & Hsel).
      exists added. split; [exact Hadd |]. split; [| split; [exact Hsorted |]].
      * intros s. rewrite Hin. split.
        -- intros (k & t' & Hc & Hsnd & Hnth & Hu).
           exists (S k), t'. repeat split; [exact Hc | lia | exact Hnth | exact Hu].
        -- intros (k & t' & Hc & Hsnd & Hnth & Hu). destruct k as [| k].
           ++ cbn in Hnth. injection Hnth as <-. congruence.
           ++ exists k, t'. repeat split; [exact Hc | lia | exact Hnth | exact Hu].
      * intros Hpre Hbefore. apply Hsel; [exact Hpre |].
        intros s Hs. specialize (Hbefore _ Hs). lia.
Qed.

Lemma offer_channels_spec (stream : StreamDescriptor) (chans : list Channel) :
  forall i st,
    0 <= i ->
    exists added,
      streams (offer_channels stream chans i st) = streams st ++ added /\
      (forall s, In s added <->
         exists k chan t,
           fst s = i + Z.of_nat k /\ 0 <= snd s /\
           nth_error chans k = Some chan /\
           CanEnableChannel chan = true /\
           IsChannelEnabled chan = true /\
           nth_error (GetType chan) (Z.to_nat (snd s)) = Some t /\
           usable_as_trigger t = true) /\
      StronglySorted descriptor_lt added /\
      (preselected stream st ->
       (forall s, In s (streams st) -> fst s < i) ->
       preselected stream (offer_channels stream chans i st)).
Proof.
  induction chans as [| chan rest IH]; intros i st Hi; cbn [offer_channels].
  - exists []. rewrite app_nil_r. split; [reflexivity |].
    split; [| split; [constructor | intros H _; exact H]].
    intros s. split; [intros [] |]. intros (k & c & t & _ & _ & Hnth & _).
    destruct k; discriminate Hnth.
  - assert (Hskip :
      CanEnableChannel chan && IsChannelEnabled chan = false ->
      forall st',
        (exists added,
           streams (offer_channels stream rest (i + 1) st') = streams st' ++ added /\
           (forall s, In s added <->
              exists k chan0 t,
                fst s = i + 1 + Z.of_nat k /\ 0 <= snd s /\
                nth_error rest k = Some chan0 /\
                CanEnableChannel chan0 = true /\
                IsChannelEnabled chan0 = true /\
                nth_error (GetType chan0) (Z.to_nat (snd s)) = Some t /\
                usable_as_trigger t = true) /\
           StronglySorted descriptor_lt added /\
           (preselected stream st' ->
            (forall s, In s (streams st') -> fst s < i + 1) ->
            preselected stream (offer_channels stream rest (i + 1) st'))) ->
        st' = st ->
        exists added,
          streams (offer_channels stream rest (i + 1) st') = streams st ++ added /\
          (forall s, In s added <->
             exists k chan0 t,
               fst s = i + Z.of_nat k /\ 0 <= snd s /\
               nth_error (chan :: rest) k = Some chan0 /\
               CanEnableChannel chan0 = true /\
               IsChannelEnabled chan0 = true /\
               nth_error (GetType chan0) (Z.to_nat (snd s)) = Some t /\
               usable_as_trigger t = true) /\
          StronglySorted descriptor_lt added /\
          (preselected stream st ->
           (forall s, In s (streams st) -> fst s < i) ->
           preselected stream (offer_channels stream rest (i + 1) st'))).
    { intros Hoff st' (added & Hadd & Hin & Hsorted & Hsel) ->.
      exists added. split; [exact Hadd |]. split; [| split; [exact Hsorted |]].
      - intros s. rewrite Hin. split.
        + intros (k & c & t & Hf & Hs & Hnth & Hcan & Hen & Hty & Hu).
          exists (S k), c, t. repeat split; try assumption. lia.
        + intros (k & c & t & Hf & Hs & Hnth & Hcan & Hen & Hty & Hu).
          destruct k as [| k].
          * cbn in Hnth. injection Hnth as <-. rewrite Hcan, Hen in Hoff.
            discriminate Hoff.
          * exists k, c, t. repeat split; try assumption. lia.
      - intros Hpre Hbefore. apply Hsel; [exact Hpre |].
        intros s Hs. specialize (Hbefore _ Hs). lia. }
    destruct (CanEnableChannel chan) eqn:Hcan; cbn [negb];
      [| apply Hskip; [reflexivity | apply IH; lia | reflexivity]].
    destruct (IsChannelEnabled chan) eqn:Hen; cbn [negb];
      [| apply Hskip; [reflexivity | apply IH; lia | reflexivity]].
    clear Hskip.
    destruct (offer_streams_spec stream i (GetType chan) 0 st ltac:(lia))
      as (added1 & Hadd1 & Hin1 & Hsorted1 & Hsel1).
    destruct (IH (i + 1) (offer_streams stream i (GetType chan) 0 st) ltac:(lia))
      as (added2 & Hadd2 & Hin2 & Hsorted2 & Hsel2).
    exists (added1 ++ added2). rewrite Hadd2, Hadd1, <- app_assoc.
    split; [reflexivity |]. split; [| split].
    + intros s. rewrite in_app_iff, Hin1, Hin2. split.
      * intros [(k & t & Hf & Hs & Hty & Hu) | (k & c & t & Hf & Hs & Hnth & Hc & He & Hty & Hu)].
        -- exists 0%nat, chan, t. cbn [nth_error].
           repeat split; try assumption; try lia.
           rewrite Hs. cbn. rewrite Nat2Z.id. exact Hty.
        -- exists (S k), c, t. repeat split; try assumption. lia.
      * intros (k & c & t & Hf & Hs & Hnth & Hc & He & Hty & Hu).
        destruct k as [| k].
        -- left. cbn in Hnth. injection Hnth as <-.
           exists (Z.to_nat (snd s)), t. repeat split; try assumption; lia.
        -- right. exists k, c, t. repeat split; try assumption. lia.
    + apply sorted_descriptors_app; [exact Hsorted1 | exact Hsorted2 |].
      intros a b Ha Hb. apply Hin1 in Ha. apply Hin2 in Hb.
      destruct Ha as (_ & _ & Hfa & _). destruct Hb as (k & _ & _ & Hfb & _).
      unfold descriptor_lt. lia.
    + intros Hpre Hbefore. apply Hsel2.
      * apply Hsel1; [exact Hpre |]. intros s Hs. left. apply Hbefore. exact Hs.
      * intros s Hs. rewrite Hadd1 in Hs. apply in_app_or in Hs.
        destruct Hs as [Hs | Hs]; [specialize (Hbefore _ Hs); lia |].
        apply Hin1 in Hs. destruct Hs as (_ & _ & Hf & _). lia.
Qed.

Lemma selector_of_spec (scope : Oscilloscope) (stream : StreamDescriptor) :
  (forall s, In s (streams (selector_of scope stream)) <-> offered scope s) /\
  StronglySorted descriptor_lt (streams (selector_of scope stream)) /\
  preselected stream (selector_of scope stream).
Proof.
  unfold selector_of.
  destruct (offer_channels_spec stream scope 0 {| streams := []; sel := 0 |} ltac:(lia))
    as (added & Hadd & Hin & Hsorted & Hsel).
  cbn [streams app] in Hadd. rewrite Hadd.
  split; [| split; [exact Hsorted |]].
  - intros s. rewrite Hin. unfold offered. split.
    + intros (k & c & t & Hf & Hs & Hnth & Hcan & Hen & Hty & Hu).
      exists c, t. rewrite Hf, Z.add_0_l, Nat2Z.id.
      repeat split; try assumption. lia.
    + intros (c & t & Hf & Hs & Hnth & Hcan & Hen & Hty & Hu).
      exists (Z.to_nat (fst s)), c, t. repeat split; try assumption. lia.
  - apply Hsel.
    + unfold preselected. destruct stream as [cur |]; [| reflexivity].
      split; [intros [] | reflexivity].
    + intros s [].
Qed.

(** X15.  The streams that the combo box lists are exactly the streams of the
    accepted types (analog, digital, trigger) on the channels that can be
    enabled and are enabled, each once, in channel order and then stream
    order.  The entry it shows as selected is the current stream when
    that is listed, and the first entry when it is not or when the
    current stream is null. *)
Theorem selector_lists_enabled_trigger_streams (scope : Oscilloscope)
    (stream : StreamDescriptor) :
  (forall s, In s (streams (selector_of scope stream)) <-> offered scope s) /\
  StronglySorted descriptor_lt (streams (selector_of scope stream)) /\
  NoDup (streams (selector_of scope stream)) /\
  match stream with
  | Some cur =>
    (offered scope cur ->
     read (streams (selector_of scope stream)) (sel (selector_of scope stream)) = Ok cur) /\
    (~ offered scope cur -> sel (selector_of scope stream) = 0)
  | None => sel (selector_of scope stream) = 0
  end.
Proof.
  destruct (selector_of_spec scope stream) as (Hin & Hsorted & Hsel).
  split; [exact Hin |]. split; [exact Hsorted |].
  split; [apply sorted_descriptors_NoDup; exact Hsorted |].
  unfold preselected in Hsel. destruct stream as [cur |]; [| exact Hsel].
  destruct Hsel as [Hyes Hno]. split.
  - intros Hoff. apply Hyes, Hin. exact Hoff.
  - intros Hoff. apply Hno. intros Hcur. apply Hoff, Hin. exact Hcur.
Qed.

(** X16.  [ChannelSelector] never leaves the null descriptor in [stream]: what
    it leaves is the stream that was there or a listed one.  While the
    user picks nothing, a stream that is not null stays as it is, also
    when it is not listed any more; an entry that the user picks from
    the list replaces it. *)
Theorem ChannelSelector_leaves_a_stream (scope : Oscilloscope)
    (stream : StreamDescriptor) (picked : option Z) :
  (forall r, ChannelSelector scope stream picked = Ok r ->
     exists s, r = Some s /\
               ((picked = None /\ stream = Some s) \/ offered scope s)) /\
  (forall cur, stream = Some cur -> picked = None ->
     ChannelSelector scope stream picked = Ok (Some cur)) /\
  (forall k, picked = Some k ->
     0 <= k < Z.of_nat (length (streams (selector_of scope stream))) ->
     exists s,
       read (streams (selector_of scope stream)) k = Ok s /\
       ChannelSelector scope stream picked = Ok (Some s)).
Proof.
  destruct (selector_of_spec scope stream) as (Hin & _ & _).
  assert (Hread : forall k s,
            read (streams (selector_of scope stream)) k = Ok s -> offered scope s).
  { intros k s Hk. apply Hin. unfold read in Hk.
    destruct (k <? 0); [discriminate Hk |].
    destruct (nth_error _ _) eqn:E; [| discriminate Hk].
    injection Hk as <-. apply (nth_error_In _ _ E). }
  unfold ChannelSelector. fold (selector_of scope stream). cbv zeta.
  split; [| split].
  - intros r H. destruct picked as [k |].
    + destruct (read (streams (selector_of scope stream)) k) as [s |] eqn:Hk;
        [| discriminate H].
      cbn [bind] in H. injection H as <-. exists s. split; [reflexivity |].
      right. apply (Hread k s Hk).
    + cbn [bind] in H. destruct stream as [cur |].
      * injection H as <-. exists cur. split; [reflexivity |]. left. split; reflexivity.
      * destruct (read (streams (selector_of scope None)) 0) as [s |] eqn:H0;
          [| discriminate H].
        cbn [bind] in H. injection H as <-. exists s. split; [reflexivity |].
        right. apply (Hread 0 s H0).
  - intros cur -> ->. reflexivity.
  - intros k -> Hk. destruct (read_in_bounds _ k Hk) as (s & Hs).
    exists s. split; [exact Hs |]. rewrite Hs. reflexivity.
Qed.

(** The second entry of the list of the sample instrument is picked. *)
Lemma ChannelSelector_leaves_a_stream_witness :
  exists s,
    ChannelSelector sample_scope (Some (0, 0)) (Some 1) = Ok (Some s) /\
    offered sample_scope s.
Proof.
  destruct (ChannelSelector_leaves_a_stream sample_scope (Some (0, 0)) (Some 1))
    as (Hres & _ & _).
  destruct (Hres (Some (2, 1)) eq_refl) as (s & Hs & [[Hp _] | Hoff]);
    [discriminate Hp |].
  exists s. split; [rewrite <- Hs; reflexivity | exact Hoff].
Defined.

(** X17.  When [stream] is null and the user picks nothing, [stream] becomes
    the first listed stream: the lowest stream of an accepted type on
    the lowest channel that is enabled and has one.  When no stream is
    listed at all, the first element of the empty vector is read. *)
Theorem null_stream_becomes_first_listed (scope : Oscilloscope) :
  ((exists s, offered scope s) ->
   exists first,
     ChannelSelector scope None None = Ok (Some first) /\
     offered scope first /\
     forall s, offered scope s -> s = first \/ descriptor_lt first s) /\
  ((forall s, ~ offered scope s) ->
   ChannelSelector scope None None = OutOfBounds).
Proof.
  destruct (selector_of_spec scope None) as (Hin & Hsorted & _).
  unfold ChannelSelector. fold (selector_of scope None). cbv zeta. cbn [bind].
  destruct (streams (selector_of scope None)) as [| first rest] eqn:Hl.
  - split.
    + intros (s & Hs). apply Hin in Hs. destruct Hs.
    + intros _. reflexivity.
  - split.
    + intros _. exists first. split; [reflexivity |].
      split; [apply Hin; left; reflexivity |].
      intros s Hs. apply Hin in Hs. destruct Hs as [<- | Hs]; [left; reflexivity |].
      right. apply StronglySorted_inv in Hsorted. destruct Hsorted as [_ Hall].
      rewrite Forall_forall in Hall. apply Hall. exact Hs.
    + intros Hnone. exfalso. apply (Hnone first), Hin. left. reflexivity.
Qed.

(** The sample instrument lists stream 0 of channel 0 first; an
    instrument without channels lists nothing. *)
Lemma null_stream_becomes_first_listed_witness :
  (exists first, ChannelSelector sample_scope None None = Ok (Some first)) /\
  ChannelSelector [] None None = OutOfBounds.
Proof.
  split.
  - destruct (proj1 (null_stream_becomes_first_listed sample_scope))
      as (first & Hfirst & _).
    + exists (0, 0), {| CanEnableChannel := true; IsChannelEnabled := true;
                        GetType := [STREAM_TYPE_ANALOG] |}, STREAM_TYPE_ANALOG.
      cbn. repeat split; lia.
    + exists first. exact Hfirst.
  - apply (proj2 (null_stream_becomes_first_listed [])).
    intros s (chan & t & _ & _ & Hnth & _).
    destruct (Z.to_nat (fst s)); discriminate Hnth.
Defined.

(** ** The welcome pages *)

Lemma DoRender_page (shader : Shader) (f : Frame) (w w' : ScopeDeskewWizard) :
  DoRender shader f w = Ok w' ->
  (page_number (m_state w) < 5)%nat ->
  page_number (m_state w') =
  (page_number (m_state w) + if button f then 1 else 0)%nat.
Proof.
  intros H Hpage. render_cases H Hst; cbn [page_number] in *; try lia;
    destruct (button f); injection H as <-; cbn; rewrite ?Hst; try reflexivity.
  unfold start_pressed. destruct (primaryData f); reflexivity.
Qed.

Lemma run_frames_page (shader : Shader) (fs : list Frame) :
  forall w w',
    run_frames shader fs w = Ok w' ->
    (page_number (m_state w) + presses fs < 5)%nat ->
    page_number (m_state w') = (page_number (m_state w) + presses fs)%nat.
Proof.
  induction fs as [| f rest IH]; intros w w' H Hp; cbn [run_frames] in H.
  - injection H as <-. unfold presses. cbn. lia.
  - bind_ok H.
    assert (Hsplit : presses (f :: rest)
                     = ((if button f then 1 else 0) + presses rest)%nat).
    { unfold presses. cbn [filter]. destruct (button f); reflexivity. }
    rewrite Hsplit in *.
    pose proof (DoRender_page shader f w a E ltac:(lia)) as Hstep.
    rewrite (IH a w' H); lia.
Qed.

Lemma DoRender_welcome_best (shader : Shader) (f : Frame) (w w' : ScopeDeskewWizard) :
  DoRender shader f w = Ok w' ->
  (page_number (m_state w) < 5)%nat ->
  m_bestCorrelation w' = m_bestCorrelation w /\
  m_bestCorrelationOffset w' = m_bestCorrelationOffset w.
Proof.
  intros H Hpage. render_cases H Hst; cbn [page_number] in Hpage; try lia;
    destruct (button f); injection H as <-; try (split; reflexivity).
  unfold start_pressed. destruct (primaryData f); split; reflexivity.
Qed.

Lemma StartCorrelation_streams (shader : Shader) (f : Frame) (w w' : ScopeDeskewWizard) :
  StartCorrelation shader f w = Ok w' ->
  m_primaryStream w' = m_primaryStream w /\
  m_secondaryStream w' = m_secondaryStream w.
Proof.
  intros H.
  destruct (StartCorrelation_shape shader f w w' H) as [-> | (pri & _ & ->)];
    split; reflexivity.
Qed.

Lemma streams_invariant_new : streams_invariant ScopeDeskewWizard_new.
Proof. split; reflexivity. Qed.

Lemma DoRender_streams (shader : Shader) (f : Frame) (w w' : ScopeDeskewWizard) :
  streams_invariant w -> DoRender shader f w = Ok w' -> streams_invariant w'.
Proof.
  intros Hinv H. unfold streams_invariant in *.
  render_cases H Hst;
    try (destruct (button f); injection H as <-; cbn; rewrite ?Hst;
         first [exact Hinv | left; exact Hinv | split; discriminate
               | right; split; discriminate]).
  - destruct (button f); injection H as <-; [| rewrite Hst; exact Hinv].
    unfold start_pressed. destruct (primaryData f); exact Hinv.
  - unfold DoMainProcessingFlow in H. rewrite Hst in H.
    destruct (primaryData f) as [data |]; [| injection H as <-; rewrite Hst; exact Hinv].
    destruct (_ && _); [injection H as <-; rewrite Hst; exact Hinv |].
    bind_ok H. injection H as <-.
    destruct (StartCorrelation_streams shader f _ _ E) as [Hp Hs].
    cbn in *. rewrite Hp, Hs. exact Hinv.
  - unfold DoMainProcessingFlow in H. rewrite Hst in H. cbv zeta in H.
    destruct (_ >=? _); injection H as <-; exact Hinv.
  - unfold DoMainProcessingFlow in H. rewrite Hst in H. injection H as <-.
    rewrite Hst. exact Hinv.
Qed.

Lemma run_frames_streams (shader : Shader) (fs : list Frame) :
  forall w w',
    streams_invariant w -> run_frames shader fs w = Ok w' -> streams_invariant w'.
Proof.
  induction fs as [| f rest IH]; intros w w' Hinv H; cbn [run_frames] in H.
  - injection H as <-. exact Hinv.
  - bind_ok H. apply (IH a w' (DoRender_streams shader f w a Hinv E) H).
Qed.

Lemma ChannelSelector_listing (scope : Oscilloscope) :
  (exists s, offered scope s) <->
  exists first, ChannelSelector scope None None = Ok (Some first).
Proof.
  destruct (selector_of_spec scope None) as (Hin & _ & _).
  unfold ChannelSelector. fold (selector_of scope None). cbv zeta. cbn [bind].
  destruct (streams (selector_of scope None)) as [| first rest] eqn:Hl.
  - split.
    + intros (s & Hs). apply Hin in Hs. destruct Hs.
    + intros (first & H). discriminate H.
  - split.
    + intros _. exists first. reflexivity.
    + intros _. exists first. apply Hin. left. reflexivity.
Qed.

Lemma select_streams_returns (f : Frame) (w : ScopeDeskewWizard) :
  primaryPick f = None ->
  secondaryPick f = None ->
  (m_primaryStream w = None /\ m_secondaryStream w = None) \/
  (m_primaryStream w <> None /\ m_secondaryStream w <> None) ->
  ((exists w', select_streams f w = Ok w') <->
   (m_primaryStream w <> None \/
    ((exists s, offered (primaryScope f) s) /\
     (exists s, offered (secondaryScope f) s)))).
Proof.
  intros Hp Hs Hinv. unfold select_streams. rewrite Hp, Hs. cbv zeta.
  cbn [m_secondaryStream set_primaryStream].
  destruct Hinv as [[Hpri Hsec] | [Hpri Hsec]].
  - rewrite Hpri, Hsec.
    pose proof (ChannelSelector_listing (primaryScope f)) as Hlp.
    pose proof (ChannelSelector_listing (secondaryScope f)) as Hls.
    split.
    + intros (w' & H). right.
      destruct (ChannelSelector (primaryScope f) None None) as [p |] eqn:Ep;
        [| discriminate H].
      cbn [bind] in H.
      destruct (ChannelSelector (secondaryScope f) None None) as [x |] eqn:Es;
        [| discriminate H].
      destruct (ChannelSelector_some _ _ _ _ Ep) as (p' & ->).
      destruct (ChannelSelector_some _ _ _ _ Es) as (x' & ->).
      split; [apply Hlp | apply Hls]; eexists; reflexivity.
    + intros [Hne | [Hlisted1 Hlisted2]]; [contradiction Hne; reflexivity |].
      apply Hlp in Hlisted1. apply Hls in Hlisted2.
      destruct Hlisted1 as (p & ->). destruct Hlisted2 as (x & ->).
      cbn [bind]. eexists. reflexivity.
  - destruct (m_primaryStream w) as [p |]; [| contradiction Hpri; reflexivity].
    destruct (m_secondaryStream w) as [x |]; [| contradiction Hsec; reflexivity].
    split; [intros _; left; discriminate |].
    intros _. unfold ChannelSelector. cbn [bind]. eexists. reflexivity.
Qed.

(** X8.  The wizard shows the welcome page that the number of button
    presses so far selects: with fewer than five frames in which a
    button was pressed it has not left the welcome pages, whatever data
    the streams carried, so that nothing was armed and nothing
    correlated.  The two streams are null until the fourth page is
    rendered and are not null on the fifth.  On the fourth page a frame
    in which the user picks nothing returns exactly when an earlier
    frame of the page has selected the streams already or each of the
    two instruments lists a stream; if not, the first element of an
    empty vector is read, so that a fourth press is never reached. *)
Theorem five_presses_before_acquiring (shader : Shader) (fs : list Frame)
    (w : ScopeDeskewWizard) :
  run_frames shader fs ScopeDeskewWizard_new = Ok w ->
  (presses fs < 5)%nat ->
  page_number (m_state w) = presses fs /\
  armed w = 0%nat /\ m_skews w = [] /\ m_correlations w = [] /\
  m_bestCorrelation w = Fp.zero /\ m_bestCorrelationOffset w = 0 /\
  ((presses fs < 3)%nat ->
   m_primaryStream w = None /\ m_secondaryStream w = None) /\
  (presses fs = 4%nat ->
   m_primaryStream w <> None /\ m_secondaryStream w <> None) /\
  (presses fs = 3%nat ->
   forall f,
     primaryPick f = None ->
     secondaryPick f = None ->
     ((exists w', DoRender shader f w = Ok w') <->
      (m_primaryStream w <> None \/
       ((exists s, offered (primaryScope f) s) /\
        (exists s, offered (secondaryScope f) s))))).
Proof.
  intros Hrun Hp.
  pose proof (run_frames_page shader fs _ _ Hrun) as Hpage.
  cbn [m_state ScopeDeskewWizard_new page_number] in Hpage.
  specialize (Hpage Hp). cbn in Hpage.
  pose proof (run_frames_invariant shader fs _ _ history_invariant_new Hrun) as Hinv.
  pose proof (run_frames_streams shader fs _ _ streams_invariant_new Hrun) as Hstr.
  unfold history_invariant in Hinv. destruct Hinv as (Hlen & Hst).
  split; [exact Hpage |].
  assert (Hwelcome : m_measureCycle w = 0 /\ m_skews w = [] /\
                     errors w = 0%nat /\ armed w = 0%nat).
  { destruct (m_state w); cbn [page_number] in Hpage; try exact Hst; lia. }
  destruct Hwelcome as (_ & Hsk & _ & Ha).
  split; [exact Ha |]. split; [exact Hsk |].
  split; [rewrite Hsk in Hlen; destruct (m_correlations w);
          [reflexivity | discriminate Hlen] |].
  assert (Hbest : m_bestCorrelation w = Fp.zero /\ m_bestCorrelationOffset w = 0).
  { (* the best pair is only written by StartCorrelation *)
    clear Hpage Hlen Hst Hsk Ha Hstr.
    revert w Hrun.
    assert (Hgen : forall fs w0 w,
              (page_number (m_state w0) + presses fs < 5)%nat ->
              run_frames shader fs w0 = Ok w ->
              m_bestCorrelation w = m_bestCorrelation w0 /\
              m_bestCorrelationOffset w = m_bestCorrelationOffset w0).
    { clear fs Hp. induction fs as [| f rest IH]; intros w0 w Hp H;
        cbn [run_frames] in H.
      - injection H as <-. split; reflexivity.
      - bind_ok H.
        assert (Hsplit : presses (f :: rest)
                         = ((if button f then 1 else 0) + presses rest)%nat).
        { unfold presses. cbn [filter]. destruct (button f); reflexivity. }
        rewrite Hsplit in Hp.
        pose proof (DoRender_page shader f w0 a E ltac:(lia)) as Hstep.
        destruct (IH a w ltac:(lia) H) as [Hc Ho]. rewrite Hc, Ho.
        apply (DoRender_welcome_best shader f w0 a E). lia. }
    intros w Hrun. apply (Hgen fs ScopeDeskewWizard_new w); [cbn; lia | exact Hrun]. }
  destruct Hbest as [Hb Ho].
  split; [exact Hb |]. split; [exact Ho |].
  unfold streams_invariant in Hstr.
  split; [| split].
  - intros Hlt. destruct (m_state w); cbn [page_number] in Hpage; try exact Hstr; lia.
  - intros Heq. destruct (m_state w); cbn [page_number] in Hpage; try exact Hstr; lia.
  - intros Heq f Hpp Hps.
    assert (Hfour : m_state w = STATE_WELCOME_4).
    { destruct (m_state w); cbn [page_number] in Hpage; try reflexivity; lia. }
    rewrite Hfour in Hstr.
    rewrite <- (select_streams_returns f w Hpp Hps Hstr).
    unfold DoRender. rewrite Hfour.
    split.
    + intros (w' & H). destruct (select_streams f w) as [w1 |]; [| discriminate H].
      exists w1. reflexivity.
    + intros (w1 & ->). cbn [bind]. eexists. reflexivity.
Qed.

(** Four presses with data on the streams all along, on an instrument
    that lists two streams; and a session that cannot get past the
    fourth page, on an instrument without channels. *)
Lemma five_presses_before_acquiring_witness :
  (exists w,
     run_frames reference_shader (repeat pressed_data_frame 4) ScopeDeskewWizard_new
     = Ok w /\
     m_state w = STATE_WELCOME_5 /\ armed w = 0%nat /\ m_primaryStream w = Some (0, 0)) /\
  run_frames reference_shader (repeat button_frame 3 ++ [no_stream_frame])
    ScopeDeskewWizard_new = OutOfBounds.
Proof.
  split; [| reflexivity].
  eexists. split; [reflexivity |].
  split; [reflexivity |]. split; [| reflexivity].
  refine (proj1 (proj2 (five_presses_before_acquiring reference_shader
                          (repeat pressed_data_frame 4) _ _ _)));
    [reflexivity | cbn; lia].
Defined.

(** ** The best pair over a session *)

Lemma run_candidates_in_range (body : Z -> mem Accum) (sched : list Z)
    (w w' : ScopeDeskewWizard) :
  (forall d, In d sched -> -30000 <= d < 30000) ->
  best_in_range w ->
  run_candidates body sched w = Ok w' ->
  best_in_range w'.
Proof.
  intros Hsched (Hm & Hoff & Hbest & Hall) Hrun.
  destruct (run_candidates_best body sched w w' Hrun) as (Hw' & Hcases).
  assert (Hmax : m_maxSkewSamples w' = m_maxSkewSamples w)
    by (rewrite Hw'; reflexivity).
  assert (Hcorr : m_correlations w' = m_correlations w)
    by (rewrite Hw'; reflexivity).
  unfold best_in_range. rewrite Hmax, Hcorr.
  split; [exact Hm |].
  destruct Hcases as [(Hb & Ho) | Hgt].
  - rewrite Hb, Ho. split; [exact Hoff |]. split; [exact Hbest | exact Hall].
  - destruct (run_candidates_attained body sched w w' Hrun Hgt)
      as (pre & d & post & acc & Hsplit & _ & _ & Ho & _).
    split; [| split; [apply (FpOrder.le_gt_trans _ _ _ Hbest Hgt) | exact Hall]].
    rewrite Ho. apply Hsched. rewrite Hsplit. apply in_or_app. right. left. reflexivity.
Qed.

Lemma accelerator_in_range (shader : Shader) (w : ScopeDeskewWizard)
    (ppri psec : UniformAnalogWaveform.t) :
  best_in_range w ->
  best_in_range (DoProcessWaveformUniformUnequalRateVulkan shader w ppri psec).
Proof.
  intros (Hm & _ & _ & Hall).
  unfold DoProcessWaveformUniformUnequalRateVulkan. cbv zeta. rewrite Hm.
  set (corrOut := shader _ _ _).
  change (Int64.mul 2 30000) with 60000.
  unfold best_in_range. cbn [m_maxSkewSamples m_correlations m_bestCorrelation
                               m_bestCorrelationOffset set_best].
  split; [exact Hm |].
  destruct (scan_corrOut_mono corrOut 30000 (Z.to_nat 60000) 0 (Fp.zero, 0)) as [Hsame | Hgt].
  - rewrite Hsame. cbn [fst snd]. split; [lia |]. split; [reflexivity | exact Hall].
  - destruct (scan_corrOut_attained corrOut 30000 (Z.to_nat 60000) 0 (Fp.zero, 0) Hgt)
      as (j & Hj & Hr & _).
    split; [| split; [apply FpFacts.gt_le; exact Hgt | exact Hall]].
    rewrite Hr. cbn [snd]. unfold Int64.sub.
    rewrite Int64Facts.wrap_id; [lia |].
    unfold Int64.in_range, Int64.half. lia.
Qed.

Lemma collect_skew_in_range (w : ScopeDeskewWizard) (pri : WaveformBase) :
  best_in_range w -> best_in_range (collect_skew w pri).
Proof.
  intros (Hm & Hoff & Hbest & Hall). unfold best_in_range, collect_skew.
  cbn [m_maxSkewSamples m_correlations m_bestCorrelation m_bestCorrelationOffset
       push_back_record].
  split; [exact Hm |]. split; [exact Hoff |]. split; [exact Hbest |].
  apply Forall_app. split; [exact Hall |]. constructor; [exact Hbest | constructor].
Qed.

Lemma StartCorrelation_in_range (shader : Shader) (f : Frame) (w w' : ScopeDeskewWizard) :
  schedule_in_window f ->
  best_in_range w ->
  StartCorrelation shader f w = Ok w' ->
  best_in_range w'.
Proof.
  intros Hsched Hw H. unfold StartCorrelation in H.
  destruct (primaryData f) as [[upri | spri |] |];
    destruct (secondaryData f) as [[usec | ssec |] |];
    try (injection H as <-; exact Hw).
  - destruct (g_hasShaderInt64 f && g_hasShaderFloat64 f).
    + cbn [bind] in H. injection H as <-.
      apply collect_skew_in_range, accelerator_in_range. exact Hw.
    + bind_ok H. injection H as <-. apply collect_skew_in_range.
      apply (run_candidates_in_range _ _ _ _ Hsched Hw E).
  - bind_ok H. injection H as <-. apply collect_skew_in_range.
    apply (run_candidates_in_range _ _ _ _ Hsched Hw E).
Qed.

Lemma DoRender_in_range (shader : Shader) (f : Frame) (w w' : ScopeDeskewWizard) :
  schedule_in_window f ->
  best_in_range w ->
  DoRender shader f w = Ok w' ->
  best_in_range w'.
Proof.
  intros Hsched Hw H. render_cases H Hst;
    try (destruct (button f); injection H as <-; exact Hw).
  - destruct (button f); injection H as <-; [| exact Hw].
    unfold start_pressed. destruct (primaryData f); exact Hw.
  - unfold DoMainProcessingFlow in H. rewrite Hst in H.
    destruct (primaryData f) as [data |]; [| injection H as <-; exact Hw].
    destruct (_ && _); [injection H as <-; exact Hw |].
    bind_ok H. injection H as <-.
    apply (StartCorrelation_in_range shader f _ a Hsched) in E; [exact E | exact Hw].
  - unfold DoMainProcessingFlow in H. rewrite Hst in H. cbv zeta in H.
    destruct (_ >=? _); injection H as <-; exact Hw.
  - unfold DoMainProcessingFlow in H. rewrite Hst in H. injection H as <-. exact Hw.
Qed.

(** X18.  In a session whose schedules run candidates of the window only, on
    either backend: the best offset is always a candidate of the window
    of 30000 samples, the best correlation is a number that is not
    negative, and so is every recorded correlation. *)
Theorem best_pair_stays_in_range (shader : Shader) (fs : list Frame)
    (w : ScopeDeskewWizard) :
  Forall schedule_in_window fs ->
  run_frames shader fs ScopeDeskewWizard_new = Ok w ->
  -30000 <= m_bestCorrelationOffset w < 30000 /\
  Fp.le Fp.zero (m_bestCorrelation w) = true /\
  Fp.is_nan (m_bestCorrelation w) = false /\
  Forall (fun c => Fp.le Fp.zero c = true /\ Fp.is_nan c = false) (m_correlations w).
Proof.
  intros Hall Hrun.
  assert (Hgen : forall w0, best_in_range w0 ->
                            run_frames shader fs w0 = Ok w -> best_in_range w).
  { clear Hrun. induction Hall as [| f rest Hf _ IH]; intros w0 Hw0 H;
      cbn [run_frames] in H.
    - injection H as <-. exact Hw0.
    - bind_ok H. apply (IH a); [| exact H].
      apply (DoRender_in_range shader f w0 a Hf Hw0 E). }
  assert (Hnew : best_in_range ScopeDeskewWizard_new).
  { unfold best_in_range. cbn. repeat split; try lia. constructor. }
  destruct (Hgen _ Hnew Hrun) as (_ & Hoff & Hbest & Hcorr).
  split; [exact Hoff |]. split; [exact Hbest |].
  split; [apply (FpOrder.le_not_nan _ _ Hbest) |].
  apply Forall_forall. intros c Hc. rewrite Forall_forall in Hcorr.
  split; [apply Hcorr; exact Hc | apply (FpOrder.le_not_nan _ _ (Hcorr c Hc))].
Qed.

(** The welcome pages and the first trial. *)
Lemma best_pair_stays_in_range_witness :
  exists w,
    run_frames reference_shader (repeat button_frame 5 ++ trial_frames 1)
      ScopeDeskewWizard_new = Ok w /\
    -30000 <= m_bestCorrelationOffset w < 30000.
Proof.
  destruct (trial_frames_complete reference_shader 1 acquiring eq_refl)
    as (w & Hrun & _); [unfold history_covers_cycle; cbn; lia | cbn; lia |].
  assert (Hall : run_frames reference_shader (repeat button_frame 5 ++ trial_frames 1)
                   ScopeDeskewWizard_new = Ok w).
  { rewrite run_frames_app.
    change (run_frames reference_shader (repeat button_frame 5) ScopeDeskewWizard_new)
      with (Ok acquiring).
    exact Hrun. }
  exists w. split; [exact Hall |].
  refine (proj1 (best_pair_stays_in_range reference_shader _ w _ Hall)).
  assert (Hwin : forall d, In d (window 30000) -> -30000 <= d < 30000).
  { intros d Hd. apply (window_from_spec (Z.to_nat 60000) (-30000)) in Hd. lia. }
  repeat (constructor; [exact Hwin |]). constructor.
Defined.

(** ** The matches of the uniform loop, in order *)

Lemma uniform_matches_ordered (ppri psec : UniformAnalogWaveform.t) (deltaFs : Z)
    (n : nat) :
  forall i isec,
    Forall (fun m => i <= fst m < i + Z.of_nat n /\ isec <= snd m /\
                     (isec < UniformAnalogWaveform.size psec ->
                      snd m < UniformAnalogWaveform.size psec))
      (uniform_matches ppri psec deltaFs n i isec) /\
    StronglySorted match_before (uniform_matches ppri psec deltaFs n i isec).
Proof.
  induction n as [| n IH]; intros i isec; cbn [uniform_matches].
  - split; constructor.
  - cbv zeta. destruct (uniform_target ppri deltaFs i <? 0).
    + destruct (IH (i + 1) isec) as [Hall Hsorted]. split; [| exact Hsorted].
      apply (Forall_impl _ (P := fun m =>
               i + 1 <= fst m < i + 1 + Z.of_nat n /\ isec <= snd m /\
               (isec < UniformAnalogWaveform.size psec ->
                snd m < UniformAnalogWaveform.size psec))); [| exact Hall].
      intros m Hm. lia.
    + destruct (uniform_advance _ _ _ isec) as [k |] eqn:Hadv; [| split; constructor].
      apply (uniform_advance_bounds _ _ _ _ _ _ eq_refl) in Hadv.
      destruct (IH (i + 1) k) as [Hall Hsorted]. split.
      * constructor; [cbn [fst snd]; lia |].
        apply (Forall_impl _ (P := fun m =>
                 i + 1 <= fst m < i + 1 + Z.of_nat n /\ k <= snd m /\
                 (k < UniformAnalogWaveform.size psec ->
                  snd m < UniformAnalogWaveform.size psec))); [| exact Hall].
        intros m Hm. lia.
      * constructor; [exact Hsorted |].
        apply (Forall_impl _ (P := fun m =>
                 i + 1 <= fst m < i + 1 + Z.of_nat n /\ k <= snd m /\
                 (k < UniformAnalogWaveform.size psec ->
                  snd m < UniformAnalogWaveform.size psec))); [| exact Hall].
        intros m Hm. unfold match_before. cbn [fst snd]. lia.
Qed.

(** X19.  On the uniform path the secondary cursor only moves forward.  The
    pairs that a candidate multiplies are ordered: from one pair to the
    next the primary index grows strictly, so that a primary sample is
    used at most once, and the secondary index does not go down, so that
    a secondary sample can serve several primary samples but none is
    revisited.  Primary indices are indices of the primary waveform, and
    secondary indices are indices of the secondary waveform when it is
    not empty. *)
Theorem uniform_matches_move_forward (ppri psec : UniformAnalogWaveform.t) (d : Z) :
  StronglySorted match_before (uniform_candidate_matches ppri psec d) /\
  Forall (fun m => 0 <= fst m < UniformAnalogWaveform.size ppri /\ 0 <= snd m)
    (uniform_candidate_matches ppri psec d) /\
  (1 <= UniformAnalogWaveform.size psec ->
   Forall (fun m => snd m < UniformAnalogWaveform.size psec)
     (uniform_candidate_matches ppri psec d)).
Proof.
  unfold uniform_candidate_matches.
  destruct (uniform_matches_ordered ppri psec (uniform_deltaFs ppri psec d)
              (Z.to_nat (UniformAnalogWaveform.size ppri)) 0 0) as [Hall Hsorted].
  assert (Hsize : 0 <= UniformAnalogWaveform.size ppri)
    by (unfold UniformAnalogWaveform.size; lia).
  split; [exact Hsorted |]. split.
  - apply (Forall_impl _ (P := fun m =>
             0 <= fst m < 0 + Z.of_nat (Z.to_nat (UniformAnalogWaveform.size ppri)) /\
             0 <= snd m /\
             (0 < UniformAnalogWaveform.size psec ->
              snd m < UniformAnalogWaveform.size psec))); [| exact Hall].
    intros m Hm. lia.
  - intros Hne.
    apply (Forall_impl _ (P := fun m =>
             0 <= fst m < 0 + Z.of_nat (Z.to_nat (UniformAnalogWaveform.size ppri)) /\
             0 <= snd m /\
             (0 < UniformAnalogWaveform.size psec ->
              snd m < UniformAnalogWaveform.size psec))); [| exact Hall].
    intros m Hm. lia.
Qed.
